(** * ATMB-Addresses: harvester, detail enricher and verifier

    A shallow embedding of [ATMB_scrape.py], [ATMB_detail.py] and
    [ATMB_verify.py].  Text is ASCII ([string]); a CSV file is the table
    [csv.DictReader] reads from it (a header and one dictionary per
    record); HTML parsing, HTTP and the validation service are inputs of
    the functions that use them. *)

From Stdlib Require Import String Ascii List ZArith Lia Bool.
From stdpp Require Import gmap strings list fin_maps.

Open Scope string_scope.
Open Scope list_scope.
Open Scope nat_scope.

(** ** Python's [str] methods used by the three scripts *)

Module PyStr.

(** Code points for which [str.isspace] holds (and which [\s] matches)
    below 128: TAB, LF, VT, FF, CR, FS, GS, RS, US and the space. *)
Definition isspace (c : ascii) : bool :=
  let n := nat_of_ascii c in
  ((9 <=? n) && (n <=? 13)) || ((28 <=? n) && (n <=? 32)).

Definition isupper (c : ascii) : bool :=
  let n := nat_of_ascii c in (65 <=? n) && (n <=? 90).

Definition islower (c : ascii) : bool :=
  let n := nat_of_ascii c in (97 <=? n) && (n <=? 122).

Definition isdigit (c : ascii) : bool :=
  let n := nat_of_ascii c in (48 <=? n) && (n <=? 57).

(** [\w]: letters, digits and the underscore. *)
Definition isword (c : ascii) : bool :=
  isupper c || islower c || isdigit c || Ascii.eqb c "_".

Definition lower_char (c : ascii) : ascii :=
  if isupper c then ascii_of_nat (nat_of_ascii c + 32) else c.

(** [bool(s)] *)
Definition truthy (s : string) : bool :=
  match s with EmptyString => false | String _ _ => true end.

Fixpoint lower (s : string) : string :=
  match s with
  | EmptyString => EmptyString
  | String c s' => String (lower_char c) (lower s')
  end.

Fixpoint lstrip_by (p : ascii -> bool) (s : string) : string :=
  match s with
  | EmptyString => EmptyString
  | String c s' => if p c then lstrip_by p s' else s
  end.

Fixpoint rstrip_by (p : ascii -> bool) (s : string) : string :=
  match s with
  | EmptyString => EmptyString
  | String c s' =>
      match rstrip_by p s' with
      | EmptyString => if p c then EmptyString else String c EmptyString
      | r => String c r
      end
  end.

(** [s.strip()] *)
Definition strip (s : string) : string := rstrip_by isspace (lstrip_by isspace s).

(** [s.strip(chars)] for a one-character [chars] *)
Definition strip_char (a : ascii) (s : string) : string :=
  rstrip_by (Ascii.eqb a) (lstrip_by (Ascii.eqb a) s).

(** [s.split(sep)] for a one-character separator: never empty. *)
Fixpoint split_char (sep : ascii) (s : string) : list string :=
  match s with
  | EmptyString => [EmptyString]
  | String c s' =>
      if Ascii.eqb c sep then EmptyString :: split_char sep s'
      else match split_char sep s' with
           | h :: t => String c h :: t
           | [] => [String c EmptyString]
           end
  end.

(** [s.split()]: the maximal runs of non-whitespace characters. *)
Fixpoint split (s : string) : list string :=
  match s with
  | EmptyString => []
  | String c s' =>
      if isspace c then split s'
      else match s' with
           | EmptyString => [String c EmptyString]
           | String c' _ =>
               if isspace c' then String c EmptyString :: split s'
               else match split s' with
                    | h :: t => String c h :: t
                    | [] => [String c EmptyString]
                    end
           end
  end.

(** Line boundaries of [str.splitlines] below 128. *)
Definition islinebreak (c : ascii) : bool :=
  let n := nat_of_ascii c in
  ((10 <=? n) && (n <=? 13)) || ((28 <=? n) && (n <=? 30)).

(** [s.splitlines()]: CR LF counts once, and a final line break opens no
    further line. *)
Fixpoint splitlines (s : string) : list string :=
  match s with
  | EmptyString => []
  | String c s' =>
      if islinebreak c then
        match s' with
        | String c' s'' =>
            if Ascii.eqb c "013" && Ascii.eqb c' "010"
            then EmptyString :: splitlines s''
            else EmptyString :: splitlines s'
        | EmptyString => [EmptyString]
        end
      else match splitlines s' with
           | h :: t => String c h :: t
           | [] => [String c EmptyString]
           end
  end.

(** [sep.join(parts)] *)
Definition join (sep : string) (parts : list string) : string :=
  String.concat sep parts.

(** [s.startswith(p)] *)
Definition startswith (p s : string) : bool := String.prefix p s.

(** [sub in s] *)
Fixpoint contains (sub s : string) : bool :=
  String.prefix sub s ||
  match s with
  | EmptyString => false
  | String _ s' => contains sub s'
  end.

(** [s[n:]] and [s[:n]] *)
Fixpoint drop (n : nat) (s : string) : string :=
  match n, s with
  | S k, String _ s' => drop k s'
  | _, _ => s
  end.

Fixpoint take (n : nat) (s : string) : string :=
  match n, s with
  | S k, String c s' => String c (take k s')
  | _, _ => EmptyString
  end.

(** [s.endswith(p)] *)
Definition endswith (p s : string) : bool :=
  (String.length p <=? String.length s) &&
  String.eqb (drop (String.length s - String.length p) s) p.

(** [s.replace(old, new)] for a non-empty [old]: occurrences are taken
    from the left and do not overlap.  [skip] counts the characters of
    the occurrence just replaced that are still to be passed. *)
Fixpoint replace_from (old new : string) (skip : nat) (s : string) : string :=
  match s with
  | EmptyString => EmptyString
  | String c s' =>
      match skip with
      | S k => replace_from old new k s'
      | O =>
          if String.prefix old s
          then new +:+ replace_from old new (String.length old - 1) s'
          else String c (replace_from old new 0 s')
      end
  end.

Definition replace (old new s : string) : string := replace_from old new 0 s.

(** The longest prefix of characters satisfying [p], and the rest. *)
Fixpoint span (p : ascii -> bool) (s : string) : string * string :=
  match s with
  | EmptyString => (EmptyString, EmptyString)
  | String c s' =>
      if p c then let '(a, b) := span p s' in (String c a, b)
      else (EmptyString, s)
  end.

Fixpoint all_chars (p : ascii -> bool) (s : string) : bool :=
  match s with
  | EmptyString => true
  | String c s' => p c && all_chars p s'
  end.

End PyStr.


(** ** Tables and the file system

    A record is a Python dictionary from field names to cells; a cell
    holds a text, or [None] where the line the record was read from
    ended before the column ([restval]).  A table is what
    [csv.DictReader] yields for a file: its [fieldnames] and its records
    in order; the cells a line has beyond the header are kept under a
    key of their own, outside the field names ([restkey]).  The file
    system maps a path to the table stored there. *)

Abbreviation row := (gmap string (option string)).

Record table := Table { fieldnames : list string; rows : list row }.

Abbreviation filesystem := (gmap string table).

Module Csv.
Import PyStr.

(** [row.get(key, '')]: the cell under [key], a text or [None], and the
    empty text where the record has no such key. *)
Definition get_cell (key : string) (r : row) : option string :=
  default (Some "") (r !! key).

(** [row.get(key, '')] read as a text, [None] as the empty one: as a
    condition both are false, and the writer writes both as an empty
    cell. *)
Definition get (key : string) (r : row) : string := default "" (get_cell key r).

(** [csv.DictWriter] with the default [extrasaction='raise']: a record
    with a key outside [fieldnames] raises [ValueError]. *)
Definition writable (fnames : list string) (r : row) : bool :=
  bool_decide (map_Forall (fun k _ => k ∈ fnames) r).

(** What a written record reads back as: one cell per field name, the
    empty text where the record has no value ([restval]) or [None]. *)
Definition written_row (fnames : list string) (r : row) : row :=
  list_to_map ((fun f => (f, Some (get f r))) <$> fnames).

(** [open(path, 'w')]: the file is created, or truncated. *)
Definition open_w (path : string) (fs : filesystem) : filesystem :=
  <[path := Table [] []]> fs.

Definition writeheader (path : string) (fnames : list string) (fs : filesystem)
  : filesystem :=
  alter (fun t => Table fnames (rows t)) path fs.

Definition writerow (path : string) (r : row) (fs : filesystem) : filesystem :=
  alter (fun t => Table (fieldnames t) (rows t ++ [r])) path fs.

(** [os.path.exists], [os.remove], [os.rename] *)
Definition exists_ (path : string) (fs : filesystem) : bool :=
  bool_decide (is_Some (fs !! path)).

Definition remove (path : string) (fs : filesystem) : filesystem := delete path fs.

Definition rename (src dst : string) (fs : filesystem) : filesystem :=
  match fs !! src with
  | Some t => <[dst := t]> (delete src fs)
  | None => fs
  end.

(** [writer.writerows(rows)]: the states after each record written, and
    whether every record was written ([false]: [ValueError] at the first
    record that is not writable). *)
Fixpoint writerows (path : string) (fnames : list string) (rs : list row)
    (fs : filesystem) : list filesystem * bool :=
  match rs with
  | [] => ([], true)
  | r :: rest =>
      if writable fnames r then
        let fs' := writerow path (written_row fnames r) fs in
        let '(states, ok) := writerows path fnames rest fs' in
        (fs' :: states, ok)
      else ([], false)
  end.

(** [list.insert(i, x)] *)
Definition list_insert_at {A} (i : nat) (x : A) (l : list A) : list A :=
  List.firstn i l ++ x :: List.skipn i l.

(** [list.remove(x)] where [x] occurs: the first occurrence goes. *)
Fixpoint list_remove (x : string) (l : list string) : list string :=
  match l with
  | [] => []
  | y :: l' => if String.eqb y x then l' else y :: list_remove x l'
  end.

(** [list.index(x)] where [x] occurs. *)
Fixpoint list_index (x : string) (l : list string) : nat :=
  match l with
  | [] => 0
  | y :: l' => if String.eqb y x then 0 else S (list_index x l')
  end.

(** [x in l] *)
Definition list_in (x : string) (l : list string) : bool :=
  List.existsb (String.eqb x) l.

(** [s.rfind(c)], [None] for -1 *)
Fixpoint rfind (c : ascii) (s : string) : option nat :=
  match s with
  | EmptyString => None
  | String a s' =>
      match rfind c s' with
      | Some i => Some (S i)
      | None => if Ascii.eqb a c then Some 0 else None
      end
  end.

(** [os.path.splitext] of [posixpath]: the extension starts at the last
    dot of the last path component, leading dots of that component set
    aside. *)
Definition splitext (p : string) : string * string :=
  match rfind "." p with
  | None => (p, "")
  | Some dotIndex =>
      let filenameIndex := match rfind "/" p with Some i => S i | None => 0 end in
      if (filenameIndex <=? dotIndex) &&
         List.existsb (fun c => negb (Ascii.eqb c "."))
           (list_ascii_of_string (take (dotIndex - filenameIndex) (drop filenameIndex p)))
      then (take dotIndex p, drop dotIndex p)
      else (p, "")
  end.

End Csv.


(** ** ATMB_detail.py: the detail enricher *)

Module Detail.
Import PyStr Csv.

Definition clean_text (text : string) : string := join " " (split text).

Definition construct_url (city street_address : string) : string :=
  let city_slug := replace " " "-" (lower (clean_text city)) in
  let street_slug := replace " " "-" (lower (clean_text street_address)) in
  let street_slug := replace "#" "" (replace "." "" street_slug) in
  "https://www.anytimemailbox.com/s/" +:+ city_slug +:+ "-" +:+ street_slug.

(** The lines set aside before the search for a unit. *)
Definition boilerplate (line : string) : bool :=
  contains "United States" line
  || contains "Your Real Street Address" line
  || contains "YOUR NAME" line.

(** [re.search(r'\b(Suite|Ste|Unit|Apt)\b|[#]', line, re.IGNORECASE)].
    [word_here w s]: [w] matches at the head of [s] whatever the case,
    and a word boundary follows it. *)
Definition word_here (w s : string) : bool :=
  String.eqb (lower (take (String.length w) s)) (lower w)
  && match drop (String.length w) s with
     | EmptyString => true
     | String c _ => negb (isword c)
     end.

(** [after_word]: the character before the head of [s] is a word
    character, so that no word boundary stands at the head of [s]. *)
Fixpoint search_unit (after_word : bool) (s : string) : bool :=
  match s with
  | EmptyString => false
  | String c s' =>
      (negb after_word
       && List.existsb (fun w => word_here w s) ["Suite"; "Ste"; "Unit"; "Apt"])
      || Ascii.eqb c "#"
      || search_unit (isword c) s'
  end.

Definition unit_pattern (line : string) : bool := search_unit false line.

(** The [for line in lines] loop of [extract_suite_info]. *)
Fixpoint scan_lines (lines : list string) : string :=
  match lines with
  | [] => ""
  | line :: rest =>
      if boilerplate line then scan_lines rest
      else if unit_pattern line then
        let clean_line := strip (replace "MAILBOX" "" line) in
        if 1 <? String.length clean_line then clean_line
        else scan_lines rest
      else scan_lines rest
  end.

(** [addr_container] is the text [get_text(separator="\n")] gives for
    the first element of class [t-addr] of the page, [None] when the
    page has no such element. *)
Definition extract_suite_info (addr_container : option string) : string :=
  match addr_container with
  | None => ""
  | Some text =>
      let lines :=
        List.map strip
          (List.filter (fun line => truthy (strip line)) (split_char "010" text)) in
      scan_lines lines
  end.

(** *** save_csv *)

(** The states of the file system after each operation of [save_csv],
    and whether it returned ([false]: [ValueError] from the writer). *)
Definition save_csv_trace (filename : string) (fnames : list string)
    (rs : list row) (fs : filesystem) : list filesystem * bool :=
  let temp_file := filename +:+ ".tmp" in
  let fs1 := open_w temp_file fs in
  let fs2 := writeheader temp_file fnames fs1 in
  let '(written, ok) := writerows temp_file fnames rs fs2 in
  let fs3 := List.last written fs2 in
  if ok then
    if exists_ filename fs3 then
      let fs4 := remove filename fs3 in
      let fs5 := rename temp_file filename fs4 in
      ([fs1; fs2] ++ written ++ [fs4; fs5], true)
    else
      let fs5 := rename temp_file filename fs3 in
      ([fs1; fs2] ++ written ++ [fs5], true)
  else ([fs1; fs2] ++ written, false).

Definition save_csv (filename : string) (fnames : list string)
    (rs : list row) (fs : filesystem) : filesystem * bool :=
  let '(states, ok) := save_csv_trace filename fnames rs fs in
  (List.last states fs, ok).

(** *** process_file *)

Definition SUITE : string := "Suite/Apartment".

(** What [requests.get] does: it raises, or returns a response of which
    the final URL, the status and the page's address container are
    used. *)
Inductive fetched :=
  | Raises
  | Response (url : string) (status_code : nat) (addr_container : option string).

(** The network answers a request for a URL made while record [idx] is
    visited. *)
Definition network := nat -> string -> fetched.

(** Lines 92-106: the rows and field names after a look at the previous
    output. *)
Definition resume (input : table) (saved : option table) : table :=
  match saved with
  | Some out =>
      if length (rows input) <=? length (rows out) then
        Table (if negb (list_in SUITE (fieldnames input))
                  && list_in SUITE (fieldnames out)
               then fieldnames out else fieldnames input)
              (rows out)
      else input
  | None => input
  end.

(** Lines 108-110. *)
Definition ensure_column (fnames : list string) : list string :=
  if negb (list_in SUITE fnames) then list_insert_at 1 SUITE fnames else fnames.

Definition working_table (input : table) (saved : option table) : table :=
  let t := resume input saved in
  Table (ensure_column (fieldnames t)) (rows t).

Record state := State {
  all_rows : list row;
  success_count : nat;
  updated_any : bool;
  disk : filesystem;
  requests : list string
}.

(** A loop body or a pass ends normally, or with an exception that
    nothing catches. *)
Inductive outcome :=
  | Normal (st : state)
  | Uncaught (st : state).

Section Pass.
Variable net : network.
Variable output_file : string.
Variable fnames : list string.
Variable total : nat.

(** Lines 170-175: the incremental save at the end of the loop body. *)
Definition checkpoint (idx : nat) (st : state) : outcome :=
  if updated_any st && ((idx mod 10 =? 0) || (idx =? total - 1)) then
    match save_csv output_file fnames (all_rows st) (disk st) with
    | (fs', true) =>
        Normal (State (all_rows st) (success_count st) false fs' (requests st))
    | (fs', false) =>
        Uncaught (State (all_rows st) (success_count st) (updated_any st) fs' (requests st))
    end
  else Normal st.

(** Lines 132-136: the explicit detail URL of the record, or else the
    synthesized one, for a record whose [Detail Url] cell is a text or
    missing with its column. *)
Definition resolve_url (city street : string) (r : row) : string :=
  let detail_url := strip (get "Detail Url" r) in
  if truthy detail_url then detail_url else construct_url city street.

(** The body of the loop for record [idx].  Lines 120 and 132 call
    [strip] on a cell: where the cell is [None] that raises
    [AttributeError], outside the [try] of lines 140-168. *)
Definition visit (idx : nat) (st : state) : outcome :=
  match all_rows st !! idx with
  | None => Normal st
  | Some r =>
      match get_cell SUITE r with
      | None => Uncaught st
      | Some suite =>
          let current_suite := strip suite in
          if truthy current_suite then
            Normal (State (all_rows st) (S (success_count st)) (updated_any st)
                          (disk st) (requests st))
          else
            let city := get "City" r in
            let street := get "Street Address" r in
            if negb (truthy city) || negb (truthy street) then Normal st
            else
              match get_cell "Detail Url" r with
              | None => Uncaught st
              | Some _ =>
                  let url := resolve_url city street r in
                  let st1 := State (all_rows st) (success_count st) (updated_any st)
                                   (disk st) (requests st ++ [url]) in
                  match net idx url with
                  | Raises => checkpoint idx st1
                  | Response final status page =>
                      if negb (String.eqb final url)
                         && (contains "locations" final
                             || String.eqb (strip_char "/" final)
                                           "https://www.anytimemailbox.com")
                      then Normal st1
                      else if status =? 200 then
                        let suite_info := extract_suite_info page in
                        if truthy suite_info then
                          checkpoint idx
                            (State (<[idx := <[SUITE := Some suite_info]> r]>
                                      (all_rows st))
                                   (S (success_count st)) true (disk st)
                                   (requests st ++ [url]))
                        else checkpoint idx st1
                      else checkpoint idx st1
                  end
              end
      end
  end.

(** [for idx, row in enumerate(all_rows)] over the indices [idxs]. *)
Fixpoint loop (idxs : list nat) (st : state) : outcome :=
  match idxs with
  | [] => Normal st
  | idx :: rest =>
      match visit idx st with
      | Normal st' => loop rest st'
      | Uncaught st' => Uncaught st'
      end
  end.

End Pass.

(** The default output path of [process_file]. *)
Definition default_output (input_file : string) : string :=
  let '(base, ext) := splitext input_file in
  if contains "_detailed" base then input_file
  else base +:+ "_detailed" +:+ ext.

Inductive result :=
  | InputNotFound
  | NoRows
  | Done (st : state)
  | Crashed (st : state).

Definition initial (t : table) (fs : filesystem) : state :=
  State (rows t) 0 false fs [].

Definition process_file (net : network) (input_file : string)
    (output_file : option string) (fs : filesystem) : result :=
  match fs !! input_file with
  | None => InputNotFound
  | Some input =>
      let output_file := from_option id (default_output input_file) output_file in
      match rows input with
      | [] => NoRows
      | _ :: _ =>
          let t := working_table input (fs !! output_file) in
          let total := length (rows t) in
          match loop net output_file (fieldnames t) total (seq 0 total)
                     (initial t fs) with
          | Uncaught st => Crashed st
          | Normal st =>
              match save_csv output_file (fieldnames t) (all_rows st) (disk st) with
              | (fs', true) =>
                  Done (State (all_rows st) (success_count st) (updated_any st)
                              fs' (requests st))
              | (fs', false) =>
                  Crashed (State (all_rows st) (success_count st) (updated_any st)
                                 fs' (requests st))
              end
          end
      end
  end.

End Detail.


(** ** ATMB_scrape.py: the directory harvester *)

Module Scrape.
Import PyStr Csv.

Definition BASE_URL : string := "https://www.anytimemailbox.com".
Definition OUTPUT_DIR : string := "Public".

(** [$]: the end of the text, or the line feed that ends it. *)
Definition at_end (s : string) : bool :=
  String.eqb s "" || String.eqb s (String "010" "").

(** [\s+([A-Z]{2})\s+(\d{5}(?:-\d{4})?)$] from the head of [s]: the
    groups 2 and 3. *)
Definition state_zip (s : string) : option (string * string) :=
  let '(ws1, s1) := span isspace s in
  let st := take 2 s1 in
  let '(ws2, s2) := span isspace (drop 2 s1) in
  let zip5 := take 5 s2 in
  let ext := take 5 (drop 5 s2) in
  if truthy ws1 && (String.length st =? 2) && all_chars isupper st
     && truthy ws2 && (String.length zip5 =? 5) && all_chars isdigit zip5
  then
    if (String.length ext =? 5) && String.prefix "-" ext
       && all_chars isdigit (drop 1 ext) && at_end (drop 10 s2)
    then Some (st, zip5 +:+ ext)
    else if at_end (drop 5 s2) then Some (st, zip5)
    else None
  else None.

(** The [re.search] of [parse_address_block]: any characters (group
    1), a comma, and then [state_zip] up to the end.  [before] is what
    group 1 has taken so far, which stops at a line feed; being greedy
    it ends at the comma furthest to the right after which the rest
    matches. *)
Fixpoint city_state_zip (before s : string) : option (string * string * string) :=
  match s with
  | EmptyString => None
  | String c s' =>
      if Ascii.eqb c "010" then None
      else
        match city_state_zip (before +:+ String c EmptyString) s' with
        | Some groups => Some groups
        | None =>
            if Ascii.eqb c "," then
              match state_zip s' with
              | Some (st, zip) => Some (before, st, zip)
              | None => None
              end
            else None
        end
  end.

(** The four values [parse_address_block] returns ([None] is Python's
    [None]) and what it prints to the standard error. *)
Definition parse_address_block (addr_text : string)
  : (option string * option string * option string * option string) * list string :=
  let parts :=
    List.map strip (List.filter (fun p => truthy (strip p)) (splitlines addr_text)) in
  match parts with
  | [] => ((None, None, None, None), [])
  | street :: _ =>
      if 2 <=? length parts then
        let last_line := List.last parts "" in
        match city_state_zip "" last_line with
        | Some (c, st, zip) =>
            ((Some street, Some (strip c), Some (strip st), Some (strip zip)), [])
        | None =>
            ((Some street, Some "", Some "", Some ""),
             ["Warning: Could not parse City/State/Zip from '" +:+ last_line +:+ "'"])
        end
      else ((Some street, Some "", Some "", Some ""), [])
  end.

(** One element of class [theme-location-item]: the text of its
    [t-addr] element ([get_text(separator="\n", strip=True)]) and the
    [href] of its [theme-button] link, where it has them. *)
Record location_item := LocationItem {
  addr_div : option string;
  link : option string
}.

(** [bool(x)] for an optional text *)
Definition truthy_opt (x : option string) : bool :=
  match x with Some s => truthy s | None => false end.

(** The [for item in location_items] loop: the rows collected in [data],
    and the lines printed to the standard error. *)
Fixpoint scrape_items (items : list location_item) : list (list string) * list string :=
  match items with
  | [] => ([], [])
  | item :: rest =>
      let '(data, errs) := scrape_items rest in
      match addr_div item with
      | None => (data, errs)
      | Some addr_text =>
          let '((street, city, state, zip_code), warned) :=
            parse_address_block addr_text in
          let detail_url :=
            match link item with
            | Some href => if startswith "/" href then BASE_URL +:+ href else href
            | None => ""
            end in
          if truthy_opt street && truthy_opt city && truthy_opt state
             && truthy_opt zip_code
          then ([default "" street; default "" city; default "" state;
                 default "" zip_code; detail_url] :: data, warned ++ errs)
          else (data, warned ++ errs)
      end
  end.

Definition HEADER : list string :=
  ["Street Address"; "City"; "State Abbreviation"; "Zip Code"; "Detail Url"].

(** The record [csv.DictReader] reads back from a written line. *)
Definition row_of (fnames cells : list string) : row :=
  list_to_map (zip fnames (Some <$> cells)).

(** [scrape_state]: [page] is what [get_soup] returned, as the list of
    its location items.  The file is taken to open for writing; where
    it does not, the code reports the [IOError] and leaves the files as
    they are. *)
Definition scrape_state (page : option (list location_item)) (state_slug : string)
    (fs : filesystem) : filesystem * list string :=
  match page with
  | None => (fs, [])
  | Some [] =>
      (fs, ["No locations found for " +:+ state_slug
            +:+ ". Check if state name is correct."])
  | Some items =>
      let '(data, errs) := scrape_items items in
      match data with
      | [] => (fs, errs ++ ["No valid addresses parsed for " +:+ state_slug +:+ "."])
      | _ =>
          let filename := OUTPUT_DIR +:+ "/" +:+ state_slug +:+ ".csv" in
          (<[filename := Table HEADER (row_of HEADER <$> data)]> fs, errs)
      end
  end.

End Scrape.

(** ** ATMB_verify.py: the verifier *)

Module Verify.
Import PyStr Csv.

(** A decoded JSON value; an object holds the items of its dictionary. *)
#[local] Set Warnings "-register-all".
Inductive json :=
  | JNull
  | JBool (b : bool)
  | JNum (n : Z)
  | JStr (s : string)
  | JArr (items : list json)
  | JObj (members : list (string * json)).

(** What [requests.get], [raise_for_status] and [response.json] come
    to: an exception, or the decoded body. *)
Inductive reply :=
  | ApiRaises
  | ApiData (data : json).

(** The service answers the request made for record [i] with the given
    query parameters. *)
Definition service := nat -> gmap string string -> reply.

(** [bool(data)] *)
Definition json_truthy (j : json) : bool :=
  match j with
  | JNull => false
  | JBool b => b
  | JNum n => negb (n =? 0)%Z
  | JStr s => truthy s
  | JArr items => match items with [] => false | _ => true end
  | JObj members => match members with [] => false | _ => true end
  end.

(** [data[0]], [None] where it raises. *)
Definition first_item (j : json) : option json :=
  match j with
  | JArr (x :: _) => Some x
  | JStr (String c _) => Some (JStr (String c EmptyString))
  | _ => None
  end.

Fixpoint assoc (key : string) (members : list (string * json)) : option json :=
  match members with
  | [] => None
  | (k, v) :: rest => if String.eqb k key then Some v else assoc key rest
  end.

(** [d.get(key, dflt)], [None] where it raises ([d] is no dictionary). *)
Definition dict_get (d : json) (key : string) (dflt : json) : option json :=
  match d with
  | JObj members => Some (default dflt (assoc key members))
  | _ => None
  end.

Definition ERROR : json * json := (JStr "Error", JStr "Error").

(** A parameter of a request: [requests] leaves out the keys whose
    value is [None]. *)
Definition param (key : string) (value : option string) (params : gmap string string)
  : gmap string string :=
  match value with
  | Some v => <[key := v]> params
  | None => params
  end.

(** The [params] dictionary of [verify_address], as the request carries
    it.  The four address values are cells of the record. *)
Definition query (auth_id auth_token : string)
    (street city state zipcode : option string) (secondary : string)
  : gmap string string :=
  let params : gmap string string :=
    <["match" := "strict"]> (<["candidates" := "1"]> (param "zipcode" zipcode
    (param "state" state (param "city" city (param "street" street
    (<["auth-token" := auth_token]> (<["auth-id" := auth_id]> ∅))))))) in
  if truthy secondary then <["secondary" := secondary]> params else params.

Definition verify_address (call : gmap string string -> reply)
    (auth_id auth_token : string) (street city state zipcode : option string)
    (secondary : string)
  : json * json :=
  match call (query auth_id auth_token street city state zipcode secondary) with
  | ApiRaises => ERROR
  | ApiData data =>
      if negb (json_truthy data) then (JStr "Invalid", JStr "Invalid")
      else
        match first_item data with
        | None => ERROR
        | Some candidate =>
            match dict_get candidate "metadata" (JObj []),
                  dict_get candidate "analysis" (JObj []) with
            | Some metadata, Some analysis =>
                match dict_get metadata "rdi" (JStr "Unknown"),
                      dict_get analysis "dpv_cmra" (JStr "Unknown") with
                | Some rdi, Some cmra => (rdi, cmra)
                | _, _ => ERROR
                end
            | _, _ => ERROR
            end
        end
  end.

(** Lines 139-151: where the two columns go. *)
Definition place_columns (fnames : list string) : list string :=
  let fnames := if list_in "RDI" fnames then list_remove "RDI" fnames else fnames in
  let fnames := if list_in "CMRA" fnames then list_remove "CMRA" fnames else fnames in
  if list_in "Zip Code" fnames then
    let zip_idx := list_index "Zip Code" fnames in
    list_insert_at (zip_idx + 1) "RDI" (list_insert_at (zip_idx + 1) "CMRA" fnames)
  else fnames ++ ["RDI"] ++ ["CMRA"].

(** [for line in f] over a file opened for reading as text: the lines
    with their ends, where a line ends at LF, CR or CR LF, each read
    as LF. *)
Fixpoint file_lines (s : string) : list string :=
  match s with
  | EmptyString => []
  | String c s' =>
      if Ascii.eqb c "010" || Ascii.eqb c "013" then
        match s' with
        | String c' s'' =>
            if Ascii.eqb c "013" && Ascii.eqb c' "010"
            then String "010" EmptyString :: file_lines s''
            else String "010" EmptyString :: file_lines s'
        | EmptyString => [String "010" EmptyString]
        end
      else match file_lines s' with
           | h :: t => String c h :: t
           | [] => [String c EmptyString]
           end
  end.

(** [s.split(sep, 1)[1]] for a one-character separator, [None] where it
    raises [IndexError]. *)
Fixpoint after_first (sep : ascii) (s : string) : option string :=
  match s with
  | EmptyString => None
  | String c s' => if Ascii.eqb c sep then Some s' else after_first sep s'
  end.

(** The loop of [load_credentials] over the lines: the two variables
    when it ends, [None] where it raises. *)
Fixpoint read_credentials (lines : list string) (auth_id auth_token : option string)
  : option (option string * option string) :=
  match lines with
  | [] => Some (auth_id, auth_token)
  | line :: rest =>
      let line := strip line in
      if startswith "auth_id=" line then
        match after_first "=" line with
        | Some v => read_credentials rest (Some (strip v)) auth_token
        | None => None
        end
      else if startswith "auth_token=" line then
        match after_first "=" line with
        | Some v => read_credentials rest auth_id (Some (strip v))
        | None => None
        end
      else read_credentials rest auth_id auth_token
  end.

Inductive loaded :=
  | Exits
  | Raises
  | Credentials (auth_id auth_token : string).

(** [load_credentials]: [content] is the text of the file, [None]
    where there is no file at [filepath]. *)
Definition load_credentials (content : option string) : loaded :=
  match content with
  | None => Exits
  | Some text =>
      match read_credentials (file_lines text) None None with
      | None => Raises
      | Some (auth_id, auth_token) =>
          if negb (truthy (default "" auth_id)) || negb (truthy (default "" auth_token))
          then Exits
          else Credentials (default "" auth_id) (default "" auth_token)
      end
  end.

Section Run.
(** Python's [str] of a value that is no text, as the writer applies
    it. *)
Variable py_str : json -> string.
Variable api : service.

(** The text [csv.writer] writes for a value. *)
Definition cell_text (v : json) : string :=
  match v with
  | JStr s => s
  | JNull => ""
  | _ => py_str v
  end.

(** Lines 169-175: the secondary unit sent with the request, [None]
    where line 171 raises [AttributeError]: in a detailed run, at a
    record whose unit cell is [None]. *)
Definition secondary_of (is_detailed : bool) (r : row) : option string :=
  if is_detailed then
    match get_cell "Suite/Apartment" r with
    | None => None
    | Some unit =>
        let secondary := strip unit in
        Some (if String.eqb secondary "#" then "" else secondary)
    end
  else Some "".

(** The record handed to [writer.writerow] for record [i], once
    [secondary] is there. *)
Definition verified_row (auth_id auth_token : string) (secondary : string)
    (i : nat) (r : row) : row :=
  let street := get_cell "Street Address" r in
  let city := get_cell "City" r in
  let state := get_cell "State Abbreviation" r in
  let zipcode := get_cell "Zip Code" r in
  let '(rdi, cmra) :=
    verify_address (api i) auth_id auth_token street city state zipcode secondary in
  <["CMRA" := Some (cell_text cmra)]> (<["RDI" := Some (cell_text rdi)]> r).

(** The [for i, row in enumerate(rows)] loop from record [i] on: the
    file system when it ends, and [verified_count] where it ends
    without an exception; [None] where line 171 or the writer raises. *)
Fixpoint write_all (auth_id auth_token : string) (is_detailed : bool)
    (output_file : string) (fnames : list string) (i : nat) (rs : list row)
    (verified_count : nat) (fs : filesystem) : filesystem * option nat :=
  match rs with
  | [] => (fs, Some verified_count)
  | r :: rest =>
      match secondary_of is_detailed r with
      | None => (fs, None)
      | Some secondary =>
          let r' := verified_row auth_id auth_token secondary i r in
          if writable fnames r' then
            write_all auth_id auth_token is_detailed output_file fnames (S i) rest
              (S verified_count) (writerow output_file (written_row fnames r') fs)
          else (fs, None)
      end
  end.

Definition output_path (input_file : string) : string :=
  let '(base, ext) := splitext input_file in base +:+ "_verified" +:+ ext.

(** How [main] ends: with [sys.exit(1)]; after the loop, reporting
    [verified_count]; or in the handler of lines 193-196, reporting the
    exception that ended the loop. *)
Inductive result :=
  | Exit1
  | Ran (fs : filesystem) (verified_count : nat)
  | Stopped (fs : filesystem).

(** [main]: [credentials] is what the look for the credentials file and
    [load_credentials] come to, [None] where they exit.  The output
    file is taken to open for writing. *)
Definition main (credentials : option (string * string)) (input_file : string)
    (fs : filesystem) : result :=
  match fs !! input_file with
  | None => Exit1
  | Some input =>
      let is_detailed := endswith "_detailed.csv" (lower input_file) in
      let output_file := output_path input_file in
      match credentials with
      | None => Exit1
      | Some (auth_id, auth_token) =>
          match fieldnames input with
          | [] => Exit1
          | _ :: _ =>
              let fnames := place_columns (fieldnames input) in
              let fs1 := writeheader output_file fnames (open_w output_file fs) in
              match write_all auth_id auth_token is_detailed output_file fnames
                              0 (rows input) 0 fs1 with
              | (fs2, Some n) => Ran fs2 n
              | (fs2, None) => Stopped fs2
              end
          end
      end
  end.

End Run.
End Verify.

(** ** The claims in the words of the specification *)

Module Spec.
Import PyStr Csv.

Fixpoint map_chars (f : ascii -> ascii) (s : string) : string :=
  match s with
  | EmptyString => EmptyString
  | String c s' => String (f c) (map_chars f s')
  end.

Fixpoint remove_chars (p : ascii -> bool) (s : string) : string :=
  match s with
  | EmptyString => EmptyString
  | String c s' => if p c then remove_chars p s' else String c (remove_chars p s')
  end.

(** Lower-cased, each run of whitespace inside replaced by one hyphen
    (and none left at either end). *)
Definition spec_slug (text : string) : string :=
  join "-" (List.map lower (split text)).

(** The synthesized detail URL: the fixed path template over the slug of
    the city and the slug of the street without periods and hashes. *)
Definition spec_synthesized_url (city street : string) : string :=
  "https://www.anytimemailbox.com/s/" +:+ spec_slug city +:+ "-"
  +:+ remove_chars (fun c => Ascii.eqb c "." || Ascii.eqb c "#") (spec_slug street).

(** The non-empty trimmed lines of the address container. *)
Definition trimmed_lines (text : string) : list string :=
  List.map strip (List.filter (fun l => truthy (strip l)) (split_char "010" text)).

(** A line with the literal MAILBOX taken out (and trimmed again). *)
Definition spec_cleaned (line : string) : string := strip (replace "MAILBOX" "" line).

(** The lines left once those with a boundary marker are discarded. *)
Definition spec_remaining (text : string) : list string :=
  List.filter (fun l => negb (Detail.boilerplate l)) (trimmed_lines text).

(** The extraction as worded: the first remaining line with a unit word
    or a hash, MAILBOX taken out, returned if it is longer than one
    character, and empty otherwise. *)
Definition spec_extract_first_line (text : string) : string :=
  match List.find Detail.unit_pattern (spec_remaining text) with
  | Some line =>
      if 1 <? String.length (spec_cleaned line) then spec_cleaned line else ""
  | None => ""
  end.

(** The extraction with the length as part of the search: the first
    remaining line that has a unit word or a hash and is longer than one
    character once MAILBOX is taken out. *)
Definition spec_extract (text : string) : string :=
  match List.find
          (fun l => Detail.unit_pattern l && (1 <? String.length (spec_cleaned l)))
          (spec_remaining text) with
  | Some line => spec_cleaned line
  | None => ""
  end.

(** Every record of a table has its fields among the table's. *)
Definition well_formed (t : table) : Prop :=
  List.forallb (writable (fieldnames t)) (rows t) = true.

(** The query the verifier sends for a record (it sends none where the
    secondary unit cannot be had). *)
Definition record_query (auth_id auth_token input_file : string) (r : row)
  : gmap string string :=
  Verify.query auth_id auth_token (get_cell "Street Address" r) (get_cell "City" r)
    (get_cell "State Abbreviation" r) (get_cell "Zip Code" r)
    (default "" (Verify.secondary_of (endswith "_detailed.csv" (lower input_file)) r)).

(** The field [key] of the object [part] of a candidate, where the
    candidate has that object and the object has that field. *)
Definition response_field (part key : string) (candidate : list (string * Verify.json))
  : option Verify.json :=
  match Verify.assoc part candidate with
  | Some (Verify.JObj members) => Verify.assoc key members
  | _ => None
  end.

(** The two parts of a candidate the verifier reads, [metadata] and
    [analysis], are objects where the candidate has them. *)
Definition well_shaped (candidate : list (string * Verify.json)) : Prop :=
  forall part v, part = "metadata" \/ part = "analysis" ->
                 Verify.assoc part candidate = Some v ->
                 exists members, v = Verify.JObj members.

(** In a detailed run (one on a file named [..._detailed.csv]) every
    record has a unit cell: no line of the file ended before the unit
    column. *)
Definition unit_cells (input_file : string) (t : table) : Prop :=
  endswith "_detailed.csv" (lower input_file) = true ->
  List.forallb (fun r => negb (bool_decide (r !! "Suite/Apartment" = Some None)))
    (rows t) = true.

(** Every cell of the record holds a text: the line it was read from
    had a cell for each of its columns. *)
Definition complete (r : row) : bool :=
  bool_decide (map_Forall (fun _ (c : option string) => is_Some c) r).

(** The columns other than the two classification columns. *)
Definition other_columns (fnames : list string) : list string :=
  List.filter (fun f => negb (String.eqb f "RDI") && negb (String.eqb f "CMRA")) fnames.

(** The table a save of the given records under the given field names
    leaves at the target path. *)
Definition saved_table (fnames : list string) (rs : list row) : table :=
  Table fnames (List.map (written_row fnames) rs).

(** The unit of a record is blank: empty once trimmed. *)
Definition blank (r : row) : Prop := truthy (strip (get Detail.SUITE r)) = false.

(** A record as a pass leaves it: as it was, or, where its unit was
    blank, with a unit set. *)
Definition enriched (r0 r : row) : Prop :=
  r = r0 \/ (blank r0 /\ exists s, r = <[Detail.SUITE := Some s]> r0).

End Spec.

(** * Properties *)

Import PyStr Csv Spec.

#[local] Arguments String.append !s1 s2 : simpl nomatch.

(** ** Text *)

Lemma append_assoc (a b c : string) : (a +:+ b) +:+ c = a +:+ (b +:+ c).
Proof. induction a as [|x a IH]; simpl; [reflexivity | now rewrite IH]. Qed.

Lemma append_empty_r (a : string) : a +:+ "" = a.
Proof. induction a as [|x a IH]; simpl; [reflexivity | now rewrite IH]. Qed.

Lemma length_append (a b : string) :
  String.length (a +:+ b) = String.length a + String.length b.
Proof. induction a as [|x a IH]; simpl; [reflexivity | now rewrite IH]. Qed.

Lemma take_drop (n : nat) (s : string) : take n s +:+ drop n s = s.
Proof.
  revert s. induction n as [|n IH]; intros [|c s]; simpl; try reflexivity.
  now rewrite IH.
Qed.

Lemma lower_append (a b : string) : lower (a +:+ b) = lower a +:+ lower b.
Proof. induction a as [|x a IH]; simpl; [reflexivity | now rewrite IH]. Qed.

Lemma map_chars_append f (a b : string) :
  map_chars f (a +:+ b) = map_chars f a +:+ map_chars f b.
Proof. induction a as [|x a IH]; simpl; [reflexivity | now rewrite IH]. Qed.

Lemma isspace_lower_char (c : ascii) : isspace (lower_char c) = isspace c.
Proof.
  destruct c as [[] [] [] [] [] [] [] []]; reflexivity.
Qed.

Lemma all_chars_lower (s : string) :
  all_chars (fun c => negb (isspace c)) (lower s)
  = all_chars (fun c => negb (isspace c)) s.
Proof.
  induction s as [|c s IH]; simpl; [reflexivity|].
  now rewrite isspace_lower_char, IH.
Qed.

(** Replacing one character by another, or by nothing, goes character
    by character. *)
Lemma replace_char_char (a b : ascii) (s : string) :
  replace (String a "") (String b "") s
  = map_chars (fun c => if Ascii.eqb c a then b else c) s.
Proof.
  unfold replace. induction s as [|c s IH]; simpl; [reflexivity|].
  destruct (ascii_dec a c) as [->|Hne].
  - rewrite Ascii.eqb_refl.
    replace (String.prefix "" s) with true by (now destruct s).
    now rewrite IH.
  - assert (Ascii.eqb c a = false) as -> by (apply Ascii.eqb_neq; congruence).
    now rewrite IH.
Qed.

Lemma replace_char_empty (a : ascii) (s : string) :
  replace (String a "") "" s = remove_chars (fun c => Ascii.eqb c a) s.
Proof.
  unfold replace. induction s as [|c s IH]; simpl; [reflexivity|].
  destruct (ascii_dec a c) as [->|Hne].
  - rewrite Ascii.eqb_refl.
    replace (String.prefix "" s) with true by (now destruct s).
    now rewrite IH.
  - assert (Ascii.eqb c a = false) as -> by (apply Ascii.eqb_neq; congruence).
    now rewrite IH.
Qed.

Lemma remove_chars_twice p q (s : string) :
  remove_chars q (remove_chars p s) = remove_chars (fun c => p c || q c) s.
Proof.
  induction s as [|c s IH]; simpl; [reflexivity|].
  destruct (p c); simpl; [exact IH|]. destruct (q c); now rewrite IH.
Qed.

(** The words [split] returns hold no whitespace. *)
Lemma split_no_space (s : string) :
  Forall (fun w => all_chars (fun c => negb (isspace c)) w = true) (split s).
Proof.
  induction s as [|c s IH]; simpl; [constructor|].
  destruct (isspace c) eqn:Hc; [exact IH|].
  destruct s as [|c' s']; [repeat constructor; simpl; now rewrite Hc|].
  destruct (isspace c') eqn:Hc'.
  - constructor; [simpl; now rewrite Hc | exact IH].
  - destruct (split (String c' s')) as [|h t] eqn:Hs.
    + repeat constructor; simpl; now rewrite Hc.
    + inversion IH as [|? ? Hh Ht]; subst.
      constructor; [simpl; now rewrite Hc, Hh | exact Ht].
Qed.

Lemma map_chars_space_free (b : ascii) (w : string) :
  all_chars (fun c => negb (isspace c)) w = true ->
  map_chars (fun c => if Ascii.eqb c " " then b else c) w = w.
Proof.
  induction w as [|c w IH]; simpl; [reflexivity|].
  intros [Hc Hw]%andb_prop. rewrite (IH Hw).
  destruct (Ascii.eqb_spec c " ") as [->|_]; [discriminate Hc | reflexivity].
Qed.

Lemma join_cons (sep w w' : string) (ws : list string) :
  join sep (w :: w' :: ws) = w +:+ sep +:+ join sep (w' :: ws).
Proof. reflexivity. Qed.

Lemma join_space_hyphen (ws : list string) :
  Forall (fun w => all_chars (fun c => negb (isspace c)) w = true) ws ->
  map_chars (fun c => if Ascii.eqb c " " then "-"%char else c) (join " " ws)
  = join "-" ws.
Proof.
  induction 1 as [|w ws Hw Hws IH]; [reflexivity|].
  destruct ws as [|w' ws'].
  - now apply map_chars_space_free.
  - rewrite !join_cons, !map_chars_append, IH, (map_chars_space_free _ w Hw).
    reflexivity.
Qed.

Lemma lower_join_space (ws : list string) :
  lower (join " " ws) = join " " (List.map lower ws).
Proof.
  induction ws as [|w ws IH]; [reflexivity|].
  destruct ws as [|w' ws']; [reflexivity|].
  change (List.map lower (w :: w' :: ws'))
    with (lower w :: lower w' :: List.map lower ws').
  rewrite !join_cons, !lower_append, IH. reflexivity.
Qed.

Lemma slug_of_clean_text (text : string) :
  replace " " "-" (lower (Detail.clean_text text)) = spec_slug text.
Proof.
  unfold Detail.clean_text, spec_slug.
  rewrite replace_char_char, lower_join_space.
  apply join_space_hyphen.
  induction (split_no_space text) as [|w ws Hw _ IH]; simpl; constructor;
    [now rewrite all_chars_lower | exact IH].
Qed.

Lemma construct_url_spec (city street : string) :
  Detail.construct_url city street = spec_synthesized_url city street.
Proof.
  unfold Detail.construct_url, spec_synthesized_url.
  rewrite !slug_of_clean_text, !replace_char_empty, remove_chars_twice.
  reflexivity.
Qed.

(** ** URL synthesis *)

(** C9. A record without an explicit detail URL gets the synthesized
    one, which depends on the city and the street alone: two such
    records with the same city and street get the same URL, the fixed
    path template over the lower-cased, hyphen-joined words of the city
    and of the street, the latter without periods and hashes; New York
    with 123 Main St. #5 gives .../s/new-york-123-main-st-5. *)
Theorem synthesized_url_reproducible (r1 r2 : row) :
  strip (get "Detail Url" r1) = "" ->
  strip (get "Detail Url" r2) = "" ->
  get "City" r1 = get "City" r2 ->
  get "Street Address" r1 = get "Street Address" r2 ->
  Detail.resolve_url (get "City" r1) (get "Street Address" r1) r1
  = Detail.resolve_url (get "City" r2) (get "Street Address" r2) r2
  /\ Detail.resolve_url (get "City" r1) (get "Street Address" r1) r1
     = spec_synthesized_url (get "City" r1) (get "Street Address" r1)
  /\ Detail.construct_url "New York" "123 Main St. #5"
     = "https://www.anytimemailbox.com/s/new-york-123-main-st-5".
Proof.
  intros H1 H2 Hc Hs. unfold Detail.resolve_url.
  rewrite H1, H2, Hc, Hs. simpl.
  repeat split; try reflexivity. apply construct_url_spec.
Qed.

Definition new_york_record : row :=
  <["Street Address" := Some "123 Main St. #5"]> (<["City" := Some "New York"]> ∅).

Definition new_york_record_2 : row :=
  <["Detail Url" := Some "  "]> (<["Zip Code" := Some "10001"]> new_york_record).

Lemma synthesized_url_reproducible_witness :
  Detail.resolve_url "New York" "123 Main St. #5" new_york_record
  = Detail.resolve_url "New York" "123 Main St. #5" new_york_record_2
  /\ Detail.resolve_url "New York" "123 Main St. #5" new_york_record
     = spec_synthesized_url "New York" "123 Main St. #5"
  /\ Detail.construct_url "New York" "123 Main St. #5"
     = "https://www.anytimemailbox.com/s/new-york-123-main-st-5".
Proof.
  exact (synthesized_url_reproducible new_york_record new_york_record_2
           eq_refl eq_refl eq_refl eq_refl).
Defined.

(** ** Extraction of the unit *)

Lemma scan_lines_find (lines : list string) :
  Detail.scan_lines lines
  = match List.find
            (fun l => Detail.unit_pattern l && (1 <? String.length (spec_cleaned l)))
            (List.filter (fun l => negb (Detail.boilerplate l)) lines) with
    | Some line => spec_cleaned line
    | None => ""
    end.
Proof.
  induction lines as [|line rest IH]; simpl; [reflexivity|].
  destruct (Detail.boilerplate line); simpl; [exact IH|].
  destruct (Detail.unit_pattern line); simpl; [|exact IH].
  fold (spec_cleaned line).
  destruct (1 <? String.length (spec_cleaned line)); [reflexivity | exact IH].
Qed.

Definition LF : string := String "010" "".

(** C5, as worded, fails: when the first line with a hash is the hash
    alone, the search goes on and a later line is returned. *)
Lemma extract_first_line_counterexample :
  Detail.extract_suite_info (Some ("#" +:+ LF +:+ "Suite 5")) = "Suite 5"
  /\ spec_extract_first_line ("#" +:+ LF +:+ "Suite 5") = "".
Proof. split; reflexivity. Qed.

(** C5, amended. The extraction takes the non-empty trimmed lines of
    the address container, discards those with one of the three
    boundary markers, and returns the first remaining line that has one
    of the words Suite, Ste, Unit, Apt (whatever the case) or a hash and
    is longer than one character once MAILBOX is taken out, so cleaned;
    it returns the empty text when no line qualifies or the page has no
    address container.  The two examples evaluate as stated. *)
Theorem extract_suite_info_spec (text : string) :
  Detail.extract_suite_info (Some text) = spec_extract text
  /\ Detail.extract_suite_info None = ""
  /\ Detail.extract_suite_info
       (Some ("MAILBOX #244" +:+ LF +:+ "123 Main St" +:+ LF +:+ "United States"))
     = "#244"
  /\ Detail.extract_suite_info (Some ("United States" +:+ LF +:+ "YOUR NAME")) = "".
Proof.
  repeat split; try reflexivity.
  unfold Detail.extract_suite_info, spec_extract, spec_remaining, trimmed_lines.
  apply scan_lines_find.
Qed.

(** ** The harvester *)

Lemma scrape_items_app (a b : list Scrape.location_item) :
  Scrape.scrape_items (a ++ b)
  = ((Scrape.scrape_items a).1 ++ (Scrape.scrape_items b).1,
     (Scrape.scrape_items a).2 ++ (Scrape.scrape_items b).2).
Proof.
  induction a as [|item a IH]; simpl.
  - now destruct (Scrape.scrape_items b).
  - rewrite IH. destruct (Scrape.scrape_items a) as [da ea].
    destruct (Scrape.scrape_items b) as [db eb]. simpl.
    destruct (Scrape.addr_div item) as [addr_text|]; [|reflexivity].
    destruct (Scrape.parse_address_block addr_text) as [[[[st c] sa] z] w].
    destruct (_ && _); simpl; now rewrite <- ?app_assoc.
Qed.

Lemma scrape_state_written (items : list Scrape.location_item)
    (slug : string) (fs : filesystem) :
  (Scrape.scrape_state (Some items) slug fs).1
  = match (Scrape.scrape_items items).1 with
    | [] => fs
    | data =>
        <[Scrape.OUTPUT_DIR +:+ "/" +:+ slug +:+ ".csv"
          := Table Scrape.HEADER (Scrape.row_of Scrape.HEADER <$> data)]> fs
    end.
Proof.
  unfold Scrape.scrape_state. destruct items as [|item items]; [reflexivity|].
  destruct (Scrape.scrape_items (item :: items)) as [[|d data] errs]; reflexivity.
Qed.

Lemma scrape_state_stderr (items : list Scrape.location_item)
    (slug : string) (fs : filesystem) (w : string) :
  In w (Scrape.scrape_items items).2 ->
  In w (Scrape.scrape_state (Some items) slug fs).2.
Proof.
  unfold Scrape.scrape_state. destruct items as [|item items]; [intros []|].
  destruct (Scrape.scrape_items (item :: items)) as [[|d data] errs]; simpl;
    intros Hw; [apply in_or_app; now left | exact Hw].
Qed.

(** C7, as worded, fails: an address block of one line is not matched
    against the pattern; the entry is dropped, and no warning is
    printed. *)
Lemma single_line_no_warning_counterexample :
  Scrape.city_state_zip "" "Somewhere Else 12345" = None
  /\ Scrape.scrape_items [Scrape.LocationItem (Some "Somewhere Else 12345") None]
     = ([], []).
Proof. split; reflexivity. Qed.

(** C7, amended. For a listing entry whose address block has at least
    two non-empty lines, the last of them is matched against the
    city/state/zip pattern.  When it matches, the entry parses to the
    first line as street and the trimmed groups as city, state and zip,
    without warning.  When it does not, one warning is printed, and the
    entry is dropped: the file system the harvester leaves is the one it
    leaves for the page without that entry.  Airmont, NY 10901 matches
    with city Airmont, state NY and zip 10901; Somewhere Else 12345 does
    not match. *)
Theorem parse_last_line (addr_text street : string) (more : list string) :
  List.map strip (List.filter (fun p => truthy (strip p)) (splitlines addr_text))
  = street :: more ->
  more <> [] ->
  match Scrape.city_state_zip "" (List.last (street :: more) "") with
  | Some (c, st, zip) =>
      Scrape.parse_address_block addr_text
      = ((Some street, Some (strip c), Some (strip st), Some (strip zip)), [])
  | None =>
      exists warning,
        Scrape.parse_address_block addr_text
        = ((Some street, Some "", Some "", Some ""), [warning])
        /\ forall href before after slug fs,
             let item := Scrape.LocationItem (Some addr_text) href in
             (Scrape.scrape_state (Some (before ++ item :: after)) slug fs).1
             = (Scrape.scrape_state (Some (before ++ after)) slug fs).1
             /\ In warning
                   (Scrape.scrape_state (Some (before ++ item :: after)) slug fs).2
  end
  /\ Scrape.city_state_zip "" "Airmont, NY 10901" = Some ("Airmont", "NY", "10901")
  /\ Scrape.city_state_zip "" "Somewhere Else 12345" = None.
Proof.
  intros Hparts Hmore. split; [|split; reflexivity].
  assert (Hparse : Scrape.parse_address_block addr_text
    = match Scrape.city_state_zip "" (List.last (street :: more) "") with
      | Some (c, st, zip) =>
          ((Some street, Some (strip c), Some (strip st), Some (strip zip)), [])
      | None =>
          ((Some street, Some "", Some "", Some ""),
           ["Warning: Could not parse City/State/Zip from '"
            +:+ List.last (street :: more) "" +:+ "'"])
      end).
  { unfold Scrape.parse_address_block. rewrite Hparts.
    destruct more as [|l more']; [contradiction|].
    change (2 <=? length (street :: l :: more')) with true. cbv iota.
    destruct (Scrape.city_state_zip "" (List.last (street :: l :: more') ""))
      as [[[c st] zip]|]; reflexivity. }
  destruct (Scrape.city_state_zip "" (List.last (street :: more) ""))
    as [[[c st] zip]|] eqn:Hm; [exact Hparse|].
  eexists. split; [exact Hparse|].
  intros href before after slug fs item.
  assert (Hitem : Scrape.scrape_items [item]
                  = ([], ["Warning: Could not parse City/State/Zip from '"
                          +:+ List.last (street :: more) "" +:+ "'"])).
  { unfold item, Scrape.scrape_items. cbn [Scrape.addr_div Scrape.link].
    rewrite Hparse. cbn [Scrape.truthy_opt truthy].
    rewrite !andb_false_r. reflexivity. }
  split.
  - rewrite !scrape_state_written.
    change (before ++ item :: after) with (before ++ [item] ++ after).
    rewrite !scrape_items_app, Hitem. reflexivity.
  - apply scrape_state_stderr.
    change (before ++ item :: after) with (before ++ [item] ++ after).
    rewrite !scrape_items_app, Hitem. simpl.
    apply in_or_app. right. now left.
Qed.

Lemma parse_last_line_witness :
  List.map strip (List.filter (fun p => truthy (strip p))
                    (splitlines ("1 Main St" +:+ LF +:+ "Somewhere Else 12345")))
  = ["1 Main St"; "Somewhere Else 12345"]
  /\ ["Somewhere Else 12345"] <> []
  /\ (match Scrape.city_state_zip ""
              (List.last ["1 Main St"; "Somewhere Else 12345"] "") with
      | Some (c, st, zip) =>
          Scrape.parse_address_block ("1 Main St" +:+ LF +:+ "Somewhere Else 12345")
          = ((Some "1 Main St", Some (strip c), Some (strip st), Some (strip zip)), [])
      | None =>
          exists warning,
            Scrape.parse_address_block ("1 Main St" +:+ LF +:+ "Somewhere Else 12345")
            = ((Some "1 Main St", Some "", Some "", Some ""), [warning])
            /\ forall href before after slug fs,
                 let item := Scrape.LocationItem
                               (Some ("1 Main St" +:+ LF +:+ "Somewhere Else 12345"))
                               href in
                 (Scrape.scrape_state (Some (before ++ item :: after)) slug fs).1
                 = (Scrape.scrape_state (Some (before ++ after)) slug fs).1
                 /\ In warning
                       (Scrape.scrape_state (Some (before ++ item :: after)) slug fs).2
      end
      /\ Scrape.city_state_zip "" "Airmont, NY 10901" = Some ("Airmont", "NY", "10901")
      /\ Scrape.city_state_zip "" "Somewhere Else 12345" = None).
Proof.
  split; [reflexivity|]. split; [discriminate|].
  exact (parse_last_line ("1 Main St" +:+ LF +:+ "Somewhere Else 12345")
           "1 Main St" ["Somewhere Else 12345"] eq_refl
           (fun H => eq_ind ["Somewhere Else 12345"]
                       (fun l => match l with [] => False | _ => True end) I [] H)).
Defined.

(** ** Lists of field names and records *)

Lemma list_in_spec (x : string) (l : list string) : list_in x l = true <-> x ∈ l.
Proof.
  unfold list_in. rewrite existsb_exists. split.
  - intros (y & Hy & ->%String.eqb_eq). now apply list_elem_of_In.
  - intros H. exists x. split; [now apply list_elem_of_In | apply String.eqb_refl].
Qed.

Lemma list_in_false (x : string) (l : list string) : list_in x l = false <-> x ∉ l.
Proof.
  rewrite <- list_in_spec. destruct (list_in x l); split; congruence.
Qed.

Lemma written_row_lookup (fnames : list string) (r : row) (k : string) :
  written_row fnames r !! k
  = if decide (k ∈ fnames) then Some (Some (get k r)) else None.
Proof.
  unfold written_row. induction fnames as [|f fnames IH].
  - rewrite fmap_nil, list_to_map_nil, lookup_empty.
    destruct (decide (k ∈ [])) as [H|H]; [now apply elem_of_nil in H | reflexivity].
  - rewrite fmap_cons, list_to_map_cons. cbn [fst snd].
    destruct (decide (f = k)) as [->|Hne].
    + rewrite lookup_insert_eq, decide_True by left. reflexivity.
    + rewrite lookup_insert_ne, IH by exact Hne.
      destruct (decide (k ∈ fnames)) as [H|H].
      * rewrite decide_True by (now right). reflexivity.
      * rewrite decide_False; [reflexivity|].
        intros [->|H']%elem_of_cons; contradiction.
Qed.

Lemma writable_spec (fnames : list string) (r : row) :
  writable fnames r = true <-> forall k, is_Some (r !! k) -> k ∈ fnames.
Proof.
  unfold writable. rewrite bool_decide_eq_true, map_Forall_lookup. split.
  - intros H k [v Hv]. exact (H k v Hv).
  - intros H k v Hv. apply H. now exists v.
Qed.

Lemma written_row_writable (fnames : list string) (r : row) :
  writable fnames (written_row fnames r) = true.
Proof.
  apply writable_spec. intros k [v Hv]. rewrite written_row_lookup in Hv.
  case_decide; [assumption | discriminate].
Qed.

Lemma written_row_idem (fnames : list string) (r : row) :
  written_row fnames (written_row fnames r) = written_row fnames r.
Proof.
  apply map_eq. intros k. rewrite !written_row_lookup.
  case_decide as H; [|reflexivity].
  unfold get at 1, get_cell. rewrite written_row_lookup. now rewrite decide_True.
Qed.

Lemma get_text (k : string) (r : row) (s : string) :
  r !! k = Some (Some s) -> get k r = s.
Proof. intros H. unfold get, get_cell. now rewrite H. Qed.

Lemma get_cell_text (k : string) (r : row) (s : string) :
  get_cell k r = Some s -> get k r = s.
Proof. intros H. unfold get. now rewrite H. Qed.

Lemma get_insert (k : string) (s : string) (r : row) :
  get k (<[k := Some s]> r) = s.
Proof. apply get_text, lookup_insert_eq. Qed.

Lemma get_insert_ne (k k' : string) (c : option string) (r : row) :
  k' <> k -> get k (<[k' := c]> r) = get k r.
Proof. intros H. unfold get, get_cell. now rewrite lookup_insert_ne. Qed.

Lemma complete_spec (r : row) :
  complete r = true <-> forall k, r !! k <> Some None.
Proof.
  unfold complete. rewrite bool_decide_eq_true, map_Forall_lookup. split.
  - intros H k Hk. destruct (H k None Hk) as [x Hx]. discriminate Hx.
  - intros H k [c|] Hk; [now exists c | now destruct (H k)].
Qed.

Lemma get_cell_None (k : string) (r : row) :
  get_cell k r = None -> complete r = false.
Proof.
  intros H. apply not_true_is_false. intros Hc.
  apply (proj1 (complete_spec r) Hc k). unfold get_cell in H.
  now destruct (r !! k) as [[c|]|].
Qed.

Lemma complete_get_cell (k : string) (r : row) :
  complete r = true -> get_cell k r = Some (get k r).
Proof.
  intros Hc. unfold get. destruct (get_cell k r) eqn:H; [reflexivity|].
  rewrite (get_cell_None _ _ H) in Hc. discriminate Hc.
Qed.

Lemma complete_insert (k : string) (s : string) (r : row) :
  complete r = true -> complete (<[k := Some s]> r) = true.
Proof.
  rewrite !complete_spec. intros H k'. destruct (decide (k = k')) as [->|Hne].
  - now rewrite lookup_insert_eq.
  - rewrite lookup_insert_ne by exact Hne. apply H.
Qed.

Lemma get_written_row (fnames : list string) (r : row) (k : string) :
  k ∈ fnames -> get k (written_row fnames r) = get k r.
Proof.
  intros Hk. apply get_text. now rewrite written_row_lookup, decide_True.
Qed.

Lemma complete_written_row (fnames : list string) (r : row) :
  complete (written_row fnames r) = true.
Proof.
  apply complete_spec. intros k. rewrite written_row_lookup.
  now case_decide.
Qed.

Lemma elem_of_list_remove (k x : string) (l : list string) :
  k ∈ list_remove x l -> k ∈ l.
Proof.
  induction l as [|y l IH]; simpl; [easy|].
  destruct (String.eqb y x).
  - intros H. now right.
  - intros [->|H]%elem_of_cons; [left | right; auto].
Qed.

Lemma elem_of_list_remove_ne (k x : string) (l : list string) :
  k <> x -> k ∈ l -> k ∈ list_remove x l.
Proof.
  intros Hne. induction l as [|y l IH]; simpl; [easy|].
  destruct (String.eqb_spec y x) as [->|Hyx].
  - intros [->|H]%elem_of_cons; [contradiction | exact H].
  - intros [->|H]%elem_of_cons; [left | right; auto].
Qed.

Lemma elem_of_list_insert_at (k x : string) (i : nat) (l : list string) :
  k ∈ list_insert_at i x l <-> k = x \/ k ∈ l.
Proof.
  unfold list_insert_at.
  rewrite <- (firstn_skipn i l) at 3.
  rewrite !elem_of_app, elem_of_cons. tauto.
Qed.

Lemma elem_of_place_columns (k : string) (fnames : list string) :
  k ∈ Verify.place_columns fnames <-> k = "RDI" \/ k = "CMRA" \/ k ∈ fnames.
Proof.
  unfold Verify.place_columns.
  set (f1 := if list_in "RDI" fnames then list_remove "RDI" fnames else fnames).
  set (f2 := if list_in "CMRA" f1 then list_remove "CMRA" f1 else f1).
  assert (H1 : k ∈ f1 -> k ∈ fnames).
  { unfold f1. destruct (list_in "RDI" fnames); [apply elem_of_list_remove | easy]. }
  assert (H1' : k <> "RDI" -> k ∈ fnames -> k ∈ f1).
  { unfold f1. destruct (list_in "RDI" fnames);
      [apply elem_of_list_remove_ne | easy]. }
  assert (H2 : k ∈ f2 -> k ∈ f1).
  { unfold f2. destruct (list_in "CMRA" f1); [apply elem_of_list_remove | easy]. }
  assert (H2' : k <> "CMRA" -> k ∈ f1 -> k ∈ f2).
  { unfold f2. destruct (list_in "CMRA" f1);
      [apply elem_of_list_remove_ne | easy]. }
  destruct (list_in "Zip Code" f2).
  - rewrite !elem_of_list_insert_at.
    destruct (decide (k = "RDI")), (decide (k = "CMRA")); intuition.
  - rewrite !elem_of_app, !list_elem_of_singleton.
    destruct (decide (k = "RDI")), (decide (k = "CMRA")); intuition.
Qed.

Lemma other_columns_remove (x : string) (l : list string) :
  x = "RDI" \/ x = "CMRA" ->
  other_columns (list_remove x l) = other_columns l.
Proof.
  intros Hx. unfold other_columns. induction l as [|y l IH]; simpl; [reflexivity|].
  destruct (String.eqb_spec y x) as [->|Hyx].
  - destruct Hx as [->| ->]; reflexivity.
  - simpl. now rewrite IH.
Qed.

Lemma other_columns_insert_at (x : string) (i : nat) (l : list string) :
  x = "RDI" \/ x = "CMRA" ->
  other_columns (list_insert_at i x l) = other_columns l.
Proof.
  intros Hx. unfold other_columns, list_insert_at.
  rewrite <- (firstn_skipn i l) at 3. rewrite !List.filter_app. simpl.
  destruct Hx as [->| ->]; reflexivity.
Qed.

Lemma other_columns_place (fnames : list string) :
  other_columns (Verify.place_columns fnames) = other_columns fnames.
Proof.
  unfold Verify.place_columns.
  set (f1 := if list_in "RDI" fnames then list_remove "RDI" fnames else fnames).
  set (f2 := if list_in "CMRA" f1 then list_remove "CMRA" f1 else f1).
  assert (H1 : other_columns f1 = other_columns fnames).
  { unfold f1. destruct (list_in "RDI" fnames);
      [apply other_columns_remove; now left | reflexivity]. }
  assert (H2 : other_columns f2 = other_columns f1).
  { unfold f2. destruct (list_in "CMRA" f1);
      [apply other_columns_remove; now right | reflexivity]. }
  destruct (list_in "Zip Code" f2).
  - rewrite !other_columns_insert_at by auto. congruence.
  - unfold other_columns in *. rewrite !List.filter_app. simpl.
    rewrite app_nil_r. congruence.
Qed.

(** ** The verifier *)

Lemma writerow_insert (path : string) (r : row) (fs : filesystem) (t : table) :
  fs !! path = Some t ->
  writerow path r fs = <[path := Table (fieldnames t) (rows t ++ [r])]> fs.
Proof.
  intros H. unfold writerow. apply map_eq. intros k.
  destruct (decide (path = k)) as [->|Hne].
  - now rewrite lookup_alter_eq, lookup_insert_eq, H.
  - now rewrite lookup_alter_ne, lookup_insert_ne.
Qed.

Lemma writeheader_open_w (path : string) (fnames : list string) (fs : filesystem) :
  writeheader path fnames (open_w path fs) = <[path := Table fnames []]> fs.
Proof.
  unfold writeheader, open_w. apply map_eq. intros k.
  destruct (decide (path = k)) as [->|Hne].
  - now rewrite lookup_alter_eq, !lookup_insert_eq.
  - now rewrite lookup_alter_ne, !lookup_insert_ne.
Qed.

Section VerifierRun.
Variable py_str : Verify.json -> string.
Variable api : Verify.service.
Variables auth_id auth_token : string.

Lemma verified_row_lookup (secondary : string) (i : nat) (r : row) (k : string) :
  k <> "RDI" -> k <> "CMRA" ->
  Verify.verified_row py_str api auth_id auth_token secondary i r !! k = r !! k.
Proof.
  intros H1 H2. unfold Verify.verified_row.
  destruct (Verify.verify_address _ _ _ _ _ _ _ _) as [rdi cmra].
  now rewrite !lookup_insert_ne by congruence.
Qed.

(** The two values the verifier adds are under names the placed header
    has: whether the writer accepts the record depends on the keys it
    came with. *)
Lemma verified_row_accepted (fnames : list string) (secondary : string)
    (i : nat) (r : row) :
  writable (Verify.place_columns fnames)
    (Verify.verified_row py_str api auth_id auth_token secondary i r)
  = writable (Verify.place_columns fnames) r.
Proof.
  apply eq_true_iff_eq. rewrite !writable_spec. split; intros H k Hk.
  - destruct (decide (k = "RDI")) as [->|H1];
      [apply elem_of_place_columns; now left|].
    destruct (decide (k = "CMRA")) as [->|H2];
      [apply elem_of_place_columns; now right; left|].
    apply H. now rewrite (verified_row_lookup secondary i r k H1 H2).
  - destruct (decide (k = "RDI")) as [->|H1];
      [apply elem_of_place_columns; now left|].
    destruct (decide (k = "CMRA")) as [->|H2];
      [apply elem_of_place_columns; now right; left|].
    apply H. now rewrite <- (verified_row_lookup secondary i r k H1 H2).
Qed.

End VerifierRun.

(** The record the verifier hands to the writer for record [i] of a
    run, where it gets that far. *)
Definition completed_row (py_str : Verify.json -> string) (api : Verify.service)
    (auth_id auth_token : string) (is_detailed : bool) (i : nat) (r : row) : row :=
  Verify.verified_row py_str api auth_id auth_token
    (default "" (Verify.secondary_of is_detailed r)) i r.

(** The loop of the verifier gets through the record: line 171 finds a
    text to trim, and the writer finds every key among the field
    names. *)
Definition passes (is_detailed : bool) (fnames : list string) (r : row) : bool :=
  match Verify.secondary_of is_detailed r with
  | Some _ => writable fnames r
  | None => false
  end.

(** The number of leading records the loop gets through. *)
Fixpoint accepted (is_detailed : bool) (fnames : list string) (rs : list row) : nat :=
  match rs with
  | [] => 0
  | r :: rest =>
      if passes is_detailed fnames r then S (accepted is_detailed fnames rest) else 0
  end.

Lemma accepted_le (is_detailed : bool) (fnames : list string) (rs : list row) :
  accepted is_detailed fnames rs <= length rs.
Proof.
  induction rs as [|r rs IH]; [reflexivity|]. cbn [accepted length].
  destruct (passes is_detailed fnames r); lia.
Qed.

Lemma accepted_all (is_detailed : bool) (fnames : list string) (rs : list row) :
  accepted is_detailed fnames rs = length rs
  <-> forallb (passes is_detailed fnames) rs = true.
Proof.
  induction rs as [|r rs IH]; [easy|]. cbn [accepted length forallb].
  destruct (passes is_detailed fnames r); cbn [andb]; [|easy].
  rewrite <- IH. split; [now intros [= ->] | now intros ->].
Qed.

(** A record with the keys of the header only and, in a detailed run, a
    unit cell passes. *)
Lemma passes_spec (is_detailed : bool) (fnames : list string) (r : row) :
  passes is_detailed (Verify.place_columns fnames) r = true
  <-> (forall k, is_Some (r !! k) -> k = "RDI" \/ k = "CMRA" \/ k ∈ fnames)
      /\ (is_detailed = true -> r !! "Suite/Apartment" <> Some None).
Proof.
  unfold passes, Verify.secondary_of, get_cell.
  assert (Hw : writable (Verify.place_columns fnames) r = true
               <-> forall k, is_Some (r !! k) -> k = "RDI" \/ k = "CMRA" \/ k ∈ fnames).
  { rewrite writable_spec. split; intros H k Hk; apply elem_of_place_columns || 
      apply (proj1 (elem_of_place_columns k fnames)); now apply H. }
  destruct is_detailed.
  - destruct (r !! "Suite/Apartment") as [[unit|]|]; cbn [default from_option id].
    + rewrite Hw. split; [intros H; split; [exact H | discriminate] | now intros [H _]].
    + split; [discriminate | intros [_ H]; now destruct (H eq_refl)].
    + rewrite Hw. split; [intros H; split; [exact H | discriminate] | now intros [H _]].
  - rewrite Hw. split; [intros H; split; [exact H | discriminate] | now intros [H _]].
Qed.

Section VerifierLoop.
Variable py_str : Verify.json -> string.
Variable api : Verify.service.
Variables auth_id auth_token : string.
Variable is_detailed : bool.

(** The loop writes the leading records it gets through, and ends
    without an exception when these are all the records. *)
Lemma write_all_stops (output_file : string) (header : list string)
    (rs : list row) :
  forall (i n : nat) (fs : filesystem) (h : list string) (rows0 : list row),
    fs !! output_file = Some (Table h rows0) ->
    let fnames := Verify.place_columns header in
    let k := accepted is_detailed fnames rs in
    Verify.write_all py_str api auth_id auth_token is_detailed output_file
      fnames i rs n fs
    = (<[output_file :=
          Table h (rows0 ++
                   imap (fun j r =>
                           written_row fnames
                             (completed_row py_str api auth_id auth_token
                                is_detailed (i + j) r))
                        (firstn k rs))]> fs,
       if k =? length rs then Some (n + k) else None).
Proof.
  cbv zeta. induction rs as [|r rs IH]; intros i n fs h rows0 Hfs.
  - simpl. rewrite app_nil_r, Nat.add_0_r. f_equal. symmetry.
    now apply insert_id.
  - cbn [Verify.write_all accepted]. unfold passes.
    destruct (Verify.secondary_of is_detailed r) as [secondary|] eqn:Hsec.
    2:{ cbn [firstn imap length Nat.eqb]. rewrite app_nil_r. f_equal. symmetry.
        now apply insert_id. }
    rewrite verified_row_accepted.
    destruct (writable (Verify.place_columns header) r).
    + rewrite (writerow_insert _ _ _ _ Hfs). cbn [fieldnames rows].
      erewrite IH; [|apply lookup_insert_eq].
      rewrite insert_insert_eq. cbn [length Nat.eqb].
      f_equal.
      * do 2 f_equal. rewrite <- app_assoc. f_equal. cbn [firstn imap app].
        rewrite Nat.add_0_r. unfold completed_row at 2. rewrite Hsec.
        cbn [default from_option id]. f_equal.
        apply imap_ext. intros j r' _. cbn. do 2 f_equal. lia.
      * destruct (_ =? _); [f_equal; lia | reflexivity].
    + cbn [firstn imap length Nat.eqb]. rewrite app_nil_r. f_equal. symmetry.
      now apply insert_id.
Qed.

End VerifierLoop.

Lemma splitext_join (p : string) : (splitext p).1 +:+ (splitext p).2 = p.
Proof.
  unfold splitext. destruct (rfind "." p) as [dotIndex|]; [|apply append_empty_r].
  destruct (_ && _); [apply take_drop | apply append_empty_r].
Qed.

Lemma output_path_fresh (input_file : string) :
  Verify.output_path input_file <> input_file.
Proof.
  unfold Verify.output_path. pose proof (splitext_join input_file) as H.
  destruct (splitext input_file) as [base ext]. simpl in H. intros Heq.
  apply (f_equal String.length) in Heq. rewrite <- H in Heq.
  rewrite !length_append in Heq. simpl in Heq. lia.
Qed.

(** What a run of the verifier comes to, with credentials, on a table
    with a header. *)
Lemma main_outcome (py_str : Verify.json -> string) (api : Verify.service)
    (auth_id auth_token input_file : string) (fs : filesystem) (input : table) :
  fs !! input_file = Some input ->
  fieldnames input <> [] ->
  let is_detailed := endswith "_detailed.csv" (lower input_file) in
  let fnames := Verify.place_columns (fieldnames input) in
  let n := accepted is_detailed fnames (rows input) in
  let fs' :=
    <[Verify.output_path input_file :=
        Table fnames
          (imap (fun i r =>
                   written_row fnames
                     (completed_row py_str api auth_id auth_token is_detailed i r))
                (firstn n (rows input)))]> fs in
  Verify.main py_str api (Some (auth_id, auth_token)) input_file fs
  = if n =? length (rows input) then Verify.Ran fs' n else Verify.Stopped fs'.
Proof.
  intros Hin Hhead. cbv zeta. unfold Verify.main. rewrite Hin.
  destruct (fieldnames input) as [|f fs'] eqn:Hf; [contradiction|].
  rewrite <- Hf in *. rewrite writeheader_open_w.
  erewrite write_all_stops; [|apply lookup_insert_eq].
  rewrite insert_insert_eq. cbn [app Nat.add].
  now destruct (_ =? _).
Qed.

(** The records of the table have their keys among its field names
    and, where the run is a detailed one, a unit cell: the loop of the
    verifier gets through each of them. *)
Lemma passes_all (input_file : string) (input : table) :
  well_formed input ->
  unit_cells input_file input ->
  forallb (passes (endswith "_detailed.csv" (lower input_file))
             (Verify.place_columns (fieldnames input))) (rows input) = true.
Proof.
  unfold well_formed, unit_cells. intros Hwf Hu.
  apply forallb_forall. intros r Hr. apply passes_spec. split.
  - rewrite forallb_forall in Hwf. intros k Hk. right; right.
    exact (proj1 (writable_spec _ _) (Hwf r Hr) k Hk).
  - intros Hd. specialize (Hu Hd). rewrite forallb_forall in Hu.
    specialize (Hu r Hr). apply negb_true_iff, bool_decide_eq_false in Hu. exact Hu.
Qed.

Lemma complete_unit_cells (input_file : string) (fnames : list string)
    (rs : list row) :
  forallb complete rs = true -> unit_cells input_file (Table fnames rs).
Proof.
  intros Hc _. cbn [rows]. apply forallb_forall. intros r Hr.
  rewrite forallb_forall in Hc. apply negb_true_iff, bool_decide_eq_false.
  apply complete_spec. now apply Hc.
Qed.

(** What a run of the verifier comes to on such a table. *)
Lemma main_runs (py_str : Verify.json -> string) (api : Verify.service)
    (auth_id auth_token input_file : string) (fs : filesystem) (input : table) :
  fs !! input_file = Some input ->
  fieldnames input <> [] ->
  well_formed input ->
  unit_cells input_file input ->
  Verify.main py_str api (Some (auth_id, auth_token)) input_file fs
  = Verify.Ran
      (<[Verify.output_path input_file :=
          Table (Verify.place_columns (fieldnames input))
            (imap (fun i r =>
                     written_row (Verify.place_columns (fieldnames input))
                       (completed_row py_str api auth_id auth_token
                          (endswith "_detailed.csv" (lower input_file)) i r))
                  (rows input))]> fs)
      (length (rows input)).
Proof.
  intros Hin Hhead Hwf Hu.
  rewrite (main_outcome py_str api auth_id auth_token _ _ _ Hin Hhead).
  rewrite (proj2 (accepted_all _ _ _) (passes_all _ _ Hwf Hu)).
  now rewrite Nat.eqb_refl, firstn_all.
Qed.

(** Whatever the table and the service, the verifier writes to its
    output path alone. *)
Lemma write_all_elsewhere (py_str : Verify.json -> string) (api : Verify.service)
    (auth_id auth_token : string) (is_detailed : bool) (output_file : string)
    (fnames : list string) (rs : list row) :
  forall (i n : nat) (fs : filesystem) (p : string),
    p <> output_file ->
    (Verify.write_all py_str api auth_id auth_token is_detailed output_file fnames
       i rs n fs).1 !! p = fs !! p.
Proof.
  induction rs as [|r rs IH]; intros i n fs p Hp; [reflexivity|].
  cbn [Verify.write_all].
  destruct (Verify.secondary_of is_detailed r) as [secondary|]; [|reflexivity].
  destruct (writable fnames _); [|reflexivity].
  rewrite IH by exact Hp. unfold writerow. now rewrite lookup_alter_ne.
Qed.

(** The file system a run of the verifier ends with, the one it
    started with where it exits at once. *)
Definition disk_after (res : Verify.result) (fs : filesystem) : filesystem :=
  match res with
  | Verify.Exit1 => fs
  | Verify.Ran fs' _ | Verify.Stopped fs' => fs'
  end.

Lemma main_elsewhere (py_str : Verify.json -> string) (api : Verify.service)
    (credentials : option (string * string)) (input_file : string)
    (fs : filesystem) (p : string) :
  p <> Verify.output_path input_file ->
  disk_after (Verify.main py_str api credentials input_file fs) fs !! p = fs !! p.
Proof.
  intros Hp. unfold Verify.main. destruct (fs !! input_file) as [input|] eqn:Hin;
    [|reflexivity].
  destruct credentials as [[auth_id auth_token]|]; [|reflexivity].
  destruct (fieldnames input) as [|f l]; [reflexivity|].
  destruct (Verify.write_all _ _ _ _ _ _ _ _ _ _ _) as [fs2 m] eqn:Hw.
  apply (f_equal fst) in Hw. cbn [fst] in Hw.
  assert (Hfs2 : fs2 !! p = fs !! p).
  { rewrite <- Hw, write_all_elsewhere by exact Hp. unfold writeheader, open_w.
    now rewrite lookup_alter_ne, lookup_insert_ne by (intros E; now apply Hp). }
  now destruct m.
Qed.

Lemma main_input_untouched (py_str : Verify.json -> string) (api : Verify.service)
    (credentials : option (string * string)) (input_file : string)
    (fs : filesystem) :
  disk_after (Verify.main py_str api credentials input_file fs) fs !! input_file
  = fs !! input_file.
Proof. apply main_elsewhere. intros E. now apply (output_path_fresh input_file). Qed.

Lemma elem_of_other_columns (f : string) (fnames : list string) :
  f ∈ other_columns fnames -> f ∈ fnames /\ f <> "RDI" /\ f <> "CMRA".
Proof.
  unfold other_columns. rewrite !list_elem_of_In, filter_In.
  intros [Hin [H1 H2]%andb_prop]. split; [exact Hin|].
  split; intros ->; discriminate.
Qed.

(** A table with a record read from a line longer than the header:
    the cell beyond the header is under a key of its own. *)
Definition stray_table : table :=
  Table ["Street Address"; "City"]
    [ <["City" := Some "Reno"]> (<["Street Address" := Some "1 Main St"]> ∅);
      <["Notes" := Some "x"]>
        (<["City" := Some "Airmont"]> (<["Street Address" := Some "2 Oak Ave"]> ∅));
      <["City" := Some "Denver"]> (<["Street Address" := Some "3 Elm Rd"]> ∅) ].

(** A table with a record read from a line shorter than the header:
    the unit cell is missing. *)
Definition short_table : table :=
  Table ["Street Address"; "Suite/Apartment"]
    [ <["Suite/Apartment" := Some "Suite 5"]> (<["Street Address" := Some "1 Main St"]> ∅);
      <["Suite/Apartment" := None]> (<["Street Address" := Some "2 Oak Ave"]> ∅);
      <["Suite/Apartment" := Some ""]> (<["Street Address" := Some "3 Elm Rd"]> ∅) ].

Definition sample_table : table :=
  Table ["Street Address"; "City"; "State Abbreviation"; "Zip Code"]
    [ <["Zip Code" := Some "89501"]> (<["State Abbreviation" := Some "NV"]>
        (<["City" := Some "Reno"]> (<["Street Address" := Some "1 Main St"]> ∅)));
      <["Zip Code" := Some "10901"]> (<["State Abbreviation" := Some "NY"]>
        (<["City" := Some "Airmont"]> (<["Street Address" := Some "2 Oak Ave"]> ∅)));
      <["Zip Code" := Some "80202"]> (<["State Abbreviation" := Some "CO"]>
        (<["City" := Some "Denver"]> (<["Street Address" := Some "3 Elm Rd"]> ∅))) ].

Definition sample_disk : filesystem := <["Public/nevada.csv" := sample_table]> ∅.

(** A service that raises for the first record, finds no candidate for
    the second and returns a bare candidate for the third. *)
Definition sample_service : Verify.service :=
  fun i _ =>
    match i with
    | 0 => Verify.ApiRaises
    | 1 => Verify.ApiData (Verify.JArr [])
    | _ => Verify.ApiData (Verify.JArr [Verify.JObj []])
    end.

(** A candidate as the service returns them, with members that are no
    objects; its metadata has no [rdi] and its analysis no
    [dpv_cmra]. *)
Definition sample_candidate : list (string * Verify.json) :=
  [("input_index", Verify.JNum 0);
   ("delivery_line_1", Verify.JStr "3 Elm Rd");
   ("metadata", Verify.JObj [("record_type", Verify.JStr "S")]);
   ("analysis", Verify.JObj [("dpv_match_code", Verify.JStr "Y")])].

(** A service that raises for the first record, finds no candidate for
    the second and returns that candidate for the third. *)
Definition candidate_service : Verify.service :=
  fun i _ =>
    match i with
    | 0 => Verify.ApiRaises
    | 1 => Verify.ApiData (Verify.JArr [])
    | _ => Verify.ApiData (Verify.JArr [Verify.JObj sample_candidate])
    end.

(** C10, as worded, fails.  A record read from a line longer than the
    header ends the run: of three records one is written.  So does, in
    a detailed run, a record read from a line that ends before the unit
    column.  And on a file without a header the verifier exits and
    writes no table. *)
Lemma verifier_frame_counterexample :
  (exists fs' out,
     Verify.main (fun _ => "") sample_service (Some ("id", "token")) "a.csv"
       (<["a.csv" := stray_table]> ∅)
     = Verify.Stopped fs'
     /\ fs' !! Verify.output_path "a.csv" = Some out
     /\ length (rows out) = 1
     /\ length (rows stray_table) = 3)
  /\ (exists fs' out,
        Verify.main (fun _ => "") sample_service (Some ("id", "token"))
          "b_detailed.csv" (<["b_detailed.csv" := short_table]> ∅)
        = Verify.Stopped fs'
        /\ fs' !! Verify.output_path "b_detailed.csv" = Some out
        /\ length (rows out) = 1
        /\ length (rows short_table) = 3)
  /\ Verify.main (fun _ => "") sample_service (Some ("id", "token")) "c.csv"
       (<["c.csv" := Table [] []]> ∅)
     = Verify.Exit1.
Proof.
  split; [|split].
  - eexists _, _. split; [reflexivity|]. split; [reflexivity|]. now split.
  - eexists _, _. split; [reflexivity|]. split; [reflexivity|]. now split.
  - reflexivity.
Qed.

(** C10, amended.  Whatever the input table, the credentials and the
    service, a run changes no path but its output path: the input file
    is left as it was.  On an input table with a header, whose records
    have their keys among the field names and, in a detailed run, a
    unit cell, the verifier writes one record per input record, in the
    same order; the columns other than RDI and CMRA are those of the
    input in their order, and each of their cells holds the input value
    (the empty text for a cell that is missing). *)
Theorem verifier_frame (py_str : Verify.json -> string) (api : Verify.service)
    (auth_id auth_token input_file : string) (fs : filesystem) (input : table) :
  fs !! input_file = Some input ->
  (forall credentials,
     let fs' := disk_after (Verify.main py_str api credentials input_file fs) fs in
     fs' !! input_file = Some input
     /\ forall p, p <> Verify.output_path input_file -> fs' !! p = fs !! p)
  /\ (fieldnames input <> [] ->
      well_formed input ->
      unit_cells input_file input ->
      exists fs' out,
        Verify.main py_str api (Some (auth_id, auth_token)) input_file fs
        = Verify.Ran fs' (length (rows input))
        /\ fs' !! Verify.output_path input_file = Some out
        /\ length (rows out) = length (rows input)
        /\ other_columns (fieldnames out) = other_columns (fieldnames input)
        /\ forall i r, rows input !! i = Some r ->
             exists o, rows out !! i = Some o
                       /\ forall f, f ∈ other_columns (fieldnames input) ->
                                    o !! f = Some (Some (get f r))).
Proof.
  intros Hin. split.
  { intros credentials. cbv zeta. split.
    - rewrite main_input_untouched. exact Hin.
    - intros p Hp. now apply main_elsewhere. }
  intros Hhead Hwf Hu. do 2 eexists.
  split; [exact (main_runs py_str api _ _ _ _ _ Hin Hhead Hwf Hu)|].
  split; [apply lookup_insert_eq|]. cbn [rows fieldnames].
  split; [apply length_imap|].
  split; [apply other_columns_place|].
  intros i r Hr. eexists. split; [rewrite list_lookup_imap, Hr; reflexivity|].
  intros f [Hf [H1 H2]]%elem_of_other_columns.
  rewrite written_row_lookup, decide_True
    by (apply elem_of_place_columns; auto).
  do 2 f_equal. unfold get, get_cell, completed_row.
  now rewrite verified_row_lookup.
Qed.

(** The output of an enricher run, with a unit of its own and a lone
    hash for a unit. *)
Definition detailed_table : table :=
  Table ["Street Address"; "Suite/Apartment"; "City"]
    [ <["City" := Some "Reno"]> (<["Suite/Apartment" := Some "Suite 5"]>
        (<["Street Address" := Some "1 Main St"]> ∅));
      <["City" := Some "Airmont"]> (<["Suite/Apartment" := Some "#"]>
        (<["Street Address" := Some "2 Oak Ave"]> ∅)) ].

Definition detailed_disk : filesystem :=
  <["Public/nevada_detailed.csv" := detailed_table]> ∅.

Lemma verifier_frame_witness :
  detailed_disk !! "Public/nevada_detailed.csv" = Some detailed_table
  /\ fieldnames detailed_table <> []
  /\ well_formed detailed_table
  /\ unit_cells "Public/nevada_detailed.csv" detailed_table
  /\ exists fs' out,
       Verify.main (fun _ => "") sample_service (Some ("id", "token"))
         "Public/nevada_detailed.csv" detailed_disk
       = Verify.Ran fs' 2
       /\ fs' !! "Public/nevada_detailed.csv" = Some detailed_table
       /\ fs' !! "Public/nevada_detailed_verified.csv" = Some out
       /\ length (rows out) = 2
       /\ other_columns (fieldnames out) = fieldnames detailed_table.
Proof.
  assert (H1 : detailed_disk !! "Public/nevada_detailed.csv" = Some detailed_table)
    by reflexivity.
  assert (H2 : fieldnames detailed_table <> []) by discriminate.
  assert (H3 : well_formed detailed_table) by (vm_compute; reflexivity).
  assert (H4 : unit_cells "Public/nevada_detailed.csv" detailed_table)
    by (intros _; vm_compute; reflexivity).
  repeat split; try assumption.
  destruct (verifier_frame (fun _ => "") sample_service "id" "token"
              "Public/nevada_detailed.csv" detailed_disk detailed_table H1)
    as (Hframe & Hrun).
  destruct (Hrun H2 H3 H4) as (fs' & out & Hmain & Hout & Hlen & Hcols & _).
  destruct (Hframe (Some ("id", "token"))) as [Hsame _].
  rewrite Hmain in Hsame. cbn [disk_after] in Hsame.
  exists fs', out. repeat split; assumption.
Defined.

Section VerifierAnswers.
Variable py_str : Verify.json -> string.
Variable call : gmap string string -> Verify.reply.
Variables auth_id auth_token : string.
Variables street city state zipcode : option string.
Variable secondary : string.

Let asked := Verify.query auth_id auth_token street city state zipcode secondary.
Let verdict :=
  Verify.verify_address call auth_id auth_token street city state zipcode secondary.

Lemma verify_address_raises :
  call asked = Verify.ApiRaises ->
  verdict = (Verify.JStr "Error", Verify.JStr "Error").
Proof. unfold verdict, Verify.verify_address. fold asked. now intros ->. Qed.

Lemma verify_address_no_candidate :
  call asked = Verify.ApiData (Verify.JArr []) ->
  verdict = (Verify.JStr "Invalid", Verify.JStr "Invalid").
Proof. unfold verdict, Verify.verify_address. fold asked. now intros ->. Qed.

Lemma verify_address_candidate candidate rest :
  call asked = Verify.ApiData (Verify.JArr (Verify.JObj candidate :: rest)) ->
  well_shaped candidate ->
  verdict
  = (default (Verify.JStr "Unknown") (response_field "metadata" "rdi" candidate),
     default (Verify.JStr "Unknown") (response_field "analysis" "dpv_cmra" candidate)).
Proof.
  unfold verdict, Verify.verify_address. fold asked. intros -> Hshape.
  cbn [Verify.json_truthy negb Verify.first_item Verify.dict_get].
  unfold response_field.
  destruct (Verify.assoc "metadata" candidate) as [m|] eqn:Hm;
    [destruct (Hshape _ _ (or_introl eq_refl) Hm) as [mm ->]|];
    (destruct (Verify.assoc "analysis" candidate) as [a|] eqn:Ha;
     [destruct (Hshape _ _ (or_intror eq_refl) Ha) as [aa ->]|]); reflexivity.
Qed.

End VerifierAnswers.

(** C8, as worded, fails.  A record whose call finds no candidate is
    not written where it was read from a line longer than the header:
    the writer raises and the run ends there, with one record of three
    in the output.  And a first candidate whose metadata is no object
    gives Error, not Unknown, though it has no [rdi]. *)
Lemma verifier_sentinels_counterexample :
  (exists r fs' out,
     rows stray_table !! 1 = Some r
     /\ sample_service 1 (record_query "id" "token" "a.csv" r)
        = Verify.ApiData (Verify.JArr [])
     /\ Verify.main (fun _ => "") sample_service (Some ("id", "token")) "a.csv"
          (<["a.csv" := stray_table]> ∅)
        = Verify.Stopped fs'
     /\ fs' !! Verify.output_path "a.csv" = Some out
     /\ rows out !! 1 = None)
  /\ response_field "metadata" "rdi" [("metadata", Verify.JNull)] = None
  /\ Verify.verify_address
       (fun _ => Verify.ApiData
                   (Verify.JArr [Verify.JObj [("metadata", Verify.JNull)]]))
       "id" "token" (Some "1 Main St") (Some "Reno") (Some "NV") (Some "89501") ""
     = (Verify.JStr "Error", Verify.JStr "Error").
Proof.
  split; [|split; reflexivity].
  eexists _, _, _. split; [reflexivity|]. split; [reflexivity|].
  split; [reflexivity|]. split; reflexivity.
Qed.

(** C8, amended.  On an input table with a header, whose records have
    their keys among the field names and, in a detailed run, a unit
    cell, the verifier writes every record, whatever the service does
    for it: when the call for a record raises, its RDI and CMRA are both
    Error; when the service returns no candidate, both are Invalid;
    when the first candidate is an object whose metadata and analysis,
    where it has them, are objects, RDI is Unknown if it lacks
    metadata.rdi and CMRA is Unknown if it lacks analysis.dpv_cmra. *)
Theorem verifier_sentinels (py_str : Verify.json -> string) (api : Verify.service)
    (auth_id auth_token input_file : string) (fs : filesystem) (input : table) :
  fs !! input_file = Some input ->
  fieldnames input <> [] ->
  well_formed input ->
  unit_cells input_file input ->
  exists fs' out,
    Verify.main py_str api (Some (auth_id, auth_token)) input_file fs
    = Verify.Ran fs' (length (rows input))
    /\ fs' !! Verify.output_path input_file = Some out
    /\ length (rows out) = length (rows input)
    /\ forall i r, rows input !! i = Some r ->
         exists o,
           rows out !! i = Some o
           /\ let answer := api i (record_query auth_id auth_token input_file r) in
              (answer = Verify.ApiRaises ->
               o !! "RDI" = Some (Some "Error") /\ o !! "CMRA" = Some (Some "Error"))
              /\ (answer = Verify.ApiData (Verify.JArr []) ->
                  o !! "RDI" = Some (Some "Invalid")
                  /\ o !! "CMRA" = Some (Some "Invalid"))
              /\ (forall candidate rest,
                    answer = Verify.ApiData
                               (Verify.JArr (Verify.JObj candidate :: rest)) ->
                    well_shaped candidate ->
                    (response_field "metadata" "rdi" candidate = None ->
                     o !! "RDI" = Some (Some "Unknown"))
                    /\ (response_field "analysis" "dpv_cmra" candidate = None ->
                        o !! "CMRA" = Some (Some "Unknown"))).
Proof.
  intros Hin Hhead Hwf Hu. do 2 eexists.
  split; [exact (main_runs py_str api _ _ _ _ _ Hin Hhead Hwf Hu)|].
  split; [apply lookup_insert_eq|]. cbn [rows fieldnames].
  split; [apply length_imap|].
  intros i r Hr. eexists. split; [rewrite list_lookup_imap, Hr; reflexivity|].
  cbn zeta. rewrite !written_row_lookup.
  rewrite !decide_True by (apply elem_of_place_columns; auto).
  unfold completed_row, Verify.verified_row, record_query.
  set (det := endswith "_detailed.csv" (lower input_file)).
  split; [|split].
  - intros Hans. rewrite (verify_address_raises _ _ _ _ _ _ _ _ Hans).
    now rewrite get_insert, get_insert_ne, get_insert.
  - intros Hans. rewrite (verify_address_no_candidate _ _ _ _ _ _ _ _ Hans).
    now rewrite get_insert, get_insert_ne, get_insert.
  - intros candidate rest Hans Hshape.
    rewrite (verify_address_candidate _ _ _ _ _ _ _ _ _ _ Hans Hshape).
    rewrite get_insert, get_insert_ne, get_insert by easy.
    split; intros ->; reflexivity.
Qed.

Lemma verifier_sentinels_witness :
  sample_disk !! "Public/nevada.csv" = Some sample_table
  /\ fieldnames sample_table <> []
  /\ well_formed sample_table
  /\ unit_cells "Public/nevada.csv" sample_table
  /\ well_shaped sample_candidate
  /\ exists fs' out o0 o1 o2,
       Verify.main (fun _ => "") candidate_service (Some ("id", "token"))
         "Public/nevada.csv" sample_disk
       = Verify.Ran fs' 3
       /\ fs' !! "Public/nevada_verified.csv" = Some out
       /\ rows out = [o0; o1; o2]
       /\ (o0 !! "RDI" = Some (Some "Error") /\ o0 !! "CMRA" = Some (Some "Error"))
       /\ (o1 !! "RDI" = Some (Some "Invalid")
           /\ o1 !! "CMRA" = Some (Some "Invalid"))
       /\ (o2 !! "RDI" = Some (Some "Unknown")
           /\ o2 !! "CMRA" = Some (Some "Unknown")).
Proof.
  assert (H1 : sample_disk !! "Public/nevada.csv" = Some sample_table)
    by reflexivity.
  assert (H2 : fieldnames sample_table <> []) by discriminate.
  assert (H3 : well_formed sample_table) by (vm_compute; reflexivity).
  assert (H4 : unit_cells "Public/nevada.csv" sample_table) by discriminate.
  assert (H5 : well_shaped sample_candidate).
  { intros part v [-> | ->] [= <-]; now eexists. }
  repeat split; try assumption.
  destruct (verifier_sentinels (fun _ => "") candidate_service "id" "token"
              "Public/nevada.csv" sample_disk sample_table H1 H2 H3 H4)
    as (fs' & out & Hrun & Hout & Hlen & Hrows).
  destruct (Hrows 0 _ eq_refl) as (o0 & Ho0 & Hraise & _ & _).
  destruct (Hrows 1 _ eq_refl) as (o1 & Ho1 & _ & Hnone & _).
  destruct (Hrows 2 _ eq_refl) as (o2 & Ho2 & _ & _ & Hcand).
  exists fs', out, o0, o1, o2.
  split; [exact Hrun|]. split; [exact Hout|].
  split.
  { destruct (rows out) as [|a [|b [|c [|d l]]]]; try discriminate Hlen.
    cbn in Ho0, Ho1, Ho2. congruence. }
  split; [exact (Hraise eq_refl)|]. split; [exact (Hnone eq_refl)|].
  destruct (Hcand sample_candidate [] eq_refl H5) as [Hrdi Hcmra].
  split; [exact (Hrdi eq_refl) | exact (Hcmra eq_refl)].
Defined.

(** ** save_csv *)

Lemma temp_file_fresh (filename : string) : filename +:+ ".tmp" <> filename.
Proof.
  intros H. apply (f_equal String.length) in H.
  rewrite length_append in H. simpl in H. lia.
Qed.

Lemma writerows_ok (path : string) (fnames : list string) (rs : list row) :
  forall (fs : filesystem) (states : list filesystem) (ok : bool),
    writerows path fnames rs fs = (states, ok) ->
    ok = List.forallb (writable fnames) rs.
Proof.
  induction rs as [|r rs IH]; intros fs states ok; simpl.
  - now intros [= <- <-].
  - destruct (writable fnames r); [|now intros [= <- <-]].
    destruct (writerows path fnames rs _) as [states' ok'] eqn:Hrest.
    intros [= <- <-]. exact (IH _ _ _ Hrest).
Qed.

Lemma writerows_last (path : string) (fnames : list string) (rs : list row) :
  forall (fs : filesystem) (h : list string) (rows0 : list row),
    List.forallb (writable fnames) rs = true ->
    fs !! path = Some (Table h rows0) ->
    List.last (writerows path fnames rs fs).1 fs
    = <[path := Table h (rows0 ++ List.map (written_row fnames) rs)]> fs.
Proof.
  induction rs as [|r rs IH]; intros fs h rows0 Hw Hfs; simpl.
  - rewrite app_nil_r. symmetry. now apply insert_id.
  - simpl in Hw. apply andb_prop in Hw as [Hr Hrs]. rewrite Hr.
    rewrite (writerow_insert _ _ _ _ Hfs). cbn [fieldnames rows].
    destruct (writerows path fnames rs _) as [states ok] eqn:Hrest.
    cbn [fst].
    assert (Hl : List.last (writerows path fnames rs
                   (<[path := Table h (rows0 ++ [written_row fnames r])]> fs)).1
                   (<[path := Table h (rows0 ++ [written_row fnames r])]> fs)
                 = <[path := Table h ((rows0 ++ [written_row fnames r])
                                      ++ List.map (written_row fnames) rs)]>
                     (<[path := Table h (rows0 ++ [written_row fnames r])]> fs)).
    { apply IH; [exact Hrs | apply lookup_insert_eq]. }
    rewrite Hrest in Hl. cbn [fst] in Hl.
    rewrite insert_insert_eq, <- app_assoc in Hl. cbn [app] in Hl.
    destruct states as [|s states]; [exact Hl|].
    change (List.last (?a :: s :: states) fs) with (List.last (s :: states) fs).
    rewrite <- Hl. clear. revert s. induction states as [|s' states IH]; intros s.
    + reflexivity.
    + change (List.last (s :: s' :: states) ?d) with (List.last (s' :: states) d).
      now rewrite !IH.
Qed.

Lemma last_trace_two {A} (a b c d x : A) (l : list A) :
  List.last ([a; b] ++ l ++ [c; d]) x = d.
Proof.
  change [c; d] with ([c] ++ [d]). rewrite !app_assoc. apply List.last_last.
Qed.

Lemma last_trace_one {A} (a b c x : A) (l : list A) :
  List.last ([a; b] ++ l ++ [c]) x = c.
Proof. rewrite !app_assoc. apply List.last_last. Qed.

Lemma rename_after_write (filename : string) (t : table) (fs : filesystem) :
  let temp_file := filename +:+ ".tmp" in
  let fs3 := <[temp_file := t]> fs in
  rename temp_file filename (remove filename fs3)
  = <[filename := t]> (delete temp_file fs)
  /\ rename temp_file filename fs3 = <[filename := t]> (delete temp_file fs).
Proof.
  intros temp_file fs3. pose proof (temp_file_fresh filename) as Hne.
  fold temp_file in Hne. unfold rename, remove, fs3. clear fs3.
  clearbody temp_file.
  rewrite lookup_delete_ne, !lookup_insert_eq by congruence.
  split; apply map_eq; intros k.
  all: destruct (decide (k = filename)) as [Hk|Hk];
    destruct (decide (k = temp_file)) as [Hk'|Hk']; subst; try contradiction.
  all: repeat first
      [ rewrite lookup_insert_eq | rewrite lookup_delete_eq
      | rewrite lookup_insert_ne by congruence
      | rewrite lookup_delete_ne by congruence ]; reflexivity.
Qed.

Lemma save_csv_result (filename : string) (fnames : list string) (rs : list row)
    (fs fs' : filesystem) (ok : bool) :
  Detail.save_csv filename fnames rs fs = (fs', ok) ->
  ok = List.forallb (writable fnames) rs
  /\ (ok = true ->
      fs' = <[filename := saved_table fnames rs]> (delete (filename +:+ ".tmp") fs)).
Proof.
  unfold Detail.save_csv, Detail.save_csv_trace.
  set (temp_file := filename +:+ ".tmp").
  rewrite writeheader_open_w.
  destruct (writerows temp_file fnames rs _) as [written ok'] eqn:Hw.
  pose proof (writerows_ok _ _ _ _ _ _ Hw) as Hok.
  destruct ok'.
  - pose proof (writerows_last temp_file fnames rs
                  (<[temp_file := Table fnames []]> fs) fnames []
                  (eq_sym Hok) (lookup_insert_eq _ _ _)) as Hlast.
    rewrite Hw, insert_insert_eq in Hlast. cbn [fst app] in Hlast.
    rewrite Hlast.
    destruct (rename_after_write filename (saved_table fnames rs) fs) as [Ha Hb].
    fold temp_file in Ha, Hb.
    destruct (exists_ filename _).
    + rewrite last_trace_two. intros [= <- <-]. split; [exact Hok|].
      intros _. exact Ha.
    + rewrite last_trace_one. intros [= <- <-]. split; [exact Hok|].
      intros _. exact Hb.
  - intros [= <- <-]. split; [exact Hok | discriminate].
Qed.

Lemma save_csv_ok (filename : string) (fnames : list string) (rs : list row)
    (fs : filesystem) :
  List.forallb (writable fnames) rs = true ->
  Detail.save_csv filename fnames rs fs
  = (<[filename := saved_table fnames rs]> (delete (filename +:+ ".tmp") fs), true).
Proof.
  intros Hw. destruct (Detail.save_csv filename fnames rs fs) as [fs' ok] eqn:Hs.
  destruct (save_csv_result _ _ _ _ _ _ Hs) as [Hok Hfs].
  rewrite Hw in Hok. subst ok. now rewrite (Hfs eq_refl).
Qed.

(** ** The loop of process_file *)

Definition outcome_state (o : Detail.outcome) : Detail.state :=
  match o with Detail.Normal st | Detail.Uncaught st => st end.

Lemma enriched_refl (rs : list row) : Forall2 enriched rs rs.
Proof. induction rs; constructor; [now left | assumption]. Qed.

Lemma enriched_trans (r0 r1 r2 : row) :
  enriched r0 r1 -> enriched r1 r2 -> enriched r0 r2.
Proof.
  intros [->|[Hb [s ->]]] [->|[Hb' [s' ->]]].
  - now left.
  - right. eauto.
  - right. eauto.
  - right. split; [exact Hb|]. exists s'. apply insert_insert_eq.
Qed.

Lemma enriched_rows_trans (a b c : list row) :
  Forall2 enriched a b -> Forall2 enriched b c -> Forall2 enriched a c.
Proof.
  intros Hab. revert c. induction Hab as [|x y a b Hxy Hab IH]; intros c Hbc.
  - inversion Hbc. constructor.
  - inversion Hbc as [|? z ? c' Hyz Hbc']; subst. constructor.
    + exact (enriched_trans _ _ _ Hxy Hyz).
    + now apply IH.
Qed.

Lemma enriched_insert (rs : list row) (idx : nat) (r : row) (s : string) :
  rs !! idx = Some r -> blank r ->
  Forall2 enriched rs (<[idx := <[Detail.SUITE := Some s]> r]> rs).
Proof.
  revert idx. induction rs as [|x rs IH]; intros [|idx] Hr Hb; try discriminate.
  - injection Hr as ->. constructor; [|apply enriched_refl].
    right. split; [exact Hb|]. now exists s.
  - constructor; [now left|]. now apply IH.
Qed.

Section PassFacts.
Variable net : Detail.network.
Variable output_file : string.
Variable fnames : list string.
Variable total : nat.

Let temp_file := output_file +:+ ".tmp".
Let checkpoint := Detail.checkpoint output_file fnames total.
Let visit := Detail.visit net output_file fnames total.
Let loop := Detail.loop net output_file fnames total.

(** The save of the loop body is due. *)
Definition due (idx : nat) (st : Detail.state) : bool :=
  Detail.updated_any st && ((idx mod 10 =? 0) || (idx =? total - 1)).

Definition persisted (st : Detail.state) : filesystem :=
  <[output_file := saved_table fnames (Detail.all_rows st)]>
    (delete temp_file (Detail.disk st)).

Lemma checkpoint_cases (idx : nat) (st : Detail.state) :
  (due idx st = false /\ checkpoint idx st = Detail.Normal st)
  \/ (due idx st = true
      /\ List.forallb (writable fnames) (Detail.all_rows st) = true
      /\ checkpoint idx st
         = Detail.Normal (Detail.State (Detail.all_rows st) (Detail.success_count st)
                            false (persisted st) (Detail.requests st)))
  \/ (due idx st = true
      /\ List.forallb (writable fnames) (Detail.all_rows st) = false
      /\ exists fs',
           checkpoint idx st
           = Detail.Uncaught (Detail.State (Detail.all_rows st)
                                (Detail.success_count st) (Detail.updated_any st)
                                fs' (Detail.requests st))).
Proof.
  unfold checkpoint, Detail.checkpoint. fold (due idx st).
  destruct (due idx st); [|left; now split]. right.
  destruct (Detail.save_csv _ _ _ _) as [fs' ok] eqn:Hs.
  destruct (save_csv_result _ _ _ _ _ _ Hs) as [Hok Hfs].
  destruct ok.
  - left. repeat split; [now symmetry|]. now rewrite (Hfs eq_refl).
  - right. repeat split; [now symmetry|]. now exists fs'.
Qed.

(** What the body of the loop does to the state before its save. *)
Inductive touched (idx : nat) (st st1 : Detail.state) : Prop :=
  | touched_same :
      Detail.all_rows st1 = Detail.all_rows st ->
      Detail.updated_any st1 = Detail.updated_any st ->
      Detail.disk st1 = Detail.disk st ->
      touched idx st st1
  | touched_enrich (r : row) (s : string) :
      Detail.all_rows st !! idx = Some r ->
      blank r ->
      truthy s = true ->
      Detail.all_rows st1 = <[idx := <[Detail.SUITE := Some s]> r]> (Detail.all_rows st) ->
      Detail.updated_any st1 = true ->
      Detail.disk st1 = Detail.disk st ->
      touched idx st st1.

Lemma visit_cases (idx : nat) (st : Detail.state) :
  exists st1,
    touched idx st st1
    /\ (visit idx st = checkpoint idx st1
        \/ (visit idx st = Detail.Normal st1
            /\ Detail.all_rows st1 = Detail.all_rows st)
        \/ (visit idx st = Detail.Uncaught st
            /\ st1 = st
            /\ exists r, Detail.all_rows st !! idx = Some r /\ complete r = false)).
Proof.
  unfold visit, Detail.visit.
  destruct (Detail.all_rows st !! idx) as [r|] eqn:Hr.
  2:{ exists st. split; [now constructor | right; left; now split]. }
  destruct (get_cell Detail.SUITE r) as [suite|] eqn:Hsuite.
  2:{ exists st. split; [now constructor|]. right; right.
      split; [reflexivity|]. split; [reflexivity|]. exists r.
      split; [reflexivity | exact (get_cell_None _ _ Hsuite)]. }
  rewrite <- (get_cell_text _ _ _ Hsuite).
  destruct (truthy (strip (get Detail.SUITE r))) eqn:Hb.
  { eexists. split; [|right; left; split; reflexivity]. now constructor. }
  destruct (negb (truthy (get "City" r)) || negb (truthy (get "Street Address" r))).
  { exists st. split; [now constructor | right; left; now split]. }
  destruct (get_cell "Detail Url" r) as [detail_url|] eqn:Hurl.
  2:{ exists st. split; [now constructor|]. right; right.
      split; [reflexivity|]. split; [reflexivity|]. exists r.
      split; [reflexivity | exact (get_cell_None _ _ Hurl)]. }
  destruct (net idx _) as [|final status page].
  { eexists. split; [|left; reflexivity]. now constructor. }
  destruct (negb (String.eqb final _) && _).
  { eexists. split; [|right; left; split; reflexivity]. now constructor. }
  destruct (status =? 200).
  2:{ eexists. split; [|left; reflexivity]. now constructor. }
  destruct (truthy (Detail.extract_suite_info page)) eqn:Hs.
  2:{ eexists. split; [|left; reflexivity]. now constructor. }
  eexists. split; [|left; reflexivity].
  now apply (touched_enrich _ _ _ r (Detail.extract_suite_info page)).
Qed.

Lemma touched_rows (idx : nat) (st st1 : Detail.state) :
  touched idx st st1 -> Forall2 enriched (Detail.all_rows st) (Detail.all_rows st1).
Proof.
  intros [Hrows _ _|r s Hr Hb _ Hrows _ _]; rewrite Hrows.
  - apply enriched_refl.
  - now apply enriched_insert.
Qed.

Lemma checkpoint_rows (idx : nat) (st : Detail.state) :
  Detail.all_rows (outcome_state (checkpoint idx st)) = Detail.all_rows st.
Proof.
  destruct (checkpoint_cases idx st) as [[_ ->]|[(_ & _ & ->)|(_ & _ & fs' & ->)]];
    reflexivity.
Qed.

Lemma visit_rows (idx : nat) (st : Detail.state) :
  Forall2 enriched (Detail.all_rows st)
    (Detail.all_rows (outcome_state (visit idx st))).
Proof.
  destruct (visit_cases idx st) as (st1 & Ht & [->|[[-> _]|(-> & _)]]).
  - rewrite checkpoint_rows. now apply touched_rows with idx.
  - now apply touched_rows with idx.
  - apply enriched_refl.
Qed.

Lemma loop_rows (idxs : list nat) (st : Detail.state) :
  Forall2 enriched (Detail.all_rows st)
    (Detail.all_rows (outcome_state (loop idxs st))).
Proof.
  revert st. induction idxs as [|idx idxs IH]; intros st; [apply enriched_refl|].
  unfold loop in *. cbn [Detail.loop]. fold visit.
  pose proof (visit_rows idx st) as Hv.
  destruct (visit idx st) as [st'|st']; [|exact Hv].
  exact (enriched_rows_trans _ _ _ Hv (IH st')).
Qed.

End PassFacts.

Lemma writable_enriched (fnames : list string) (r0 r : row) :
  list_in Detail.SUITE fnames = true ->
  enriched r0 r -> writable fnames r0 = true -> writable fnames r = true.
Proof.
  intros Hs [->|[_ [s ->]]] Hw; [exact Hw|].
  apply writable_spec. intros k Hk.
  destruct (decide (k = Detail.SUITE)) as [->|Hne]; [now apply list_in_spec|].
  assert (Hne' : Detail.SUITE <> k) by (intros E; apply Hne; now symmetry).
  rewrite (lookup_insert_ne _ _ _ _ Hne') in Hk.
  now apply (proj1 (writable_spec fnames r0) Hw).
Qed.

Lemma writable_enriched_rows (fnames : list string) (rs0 rs : list row) :
  list_in Detail.SUITE fnames = true ->
  Forall2 enriched rs0 rs ->
  List.forallb (writable fnames) rs0 = true ->
  List.forallb (writable fnames) rs = true.
Proof.
  intros Hs. induction 1 as [|r0 r rs0 rs Hr Hrs IH]; [easy|]. simpl.
  intros [H0 Hrest]%andb_prop.
  now rewrite (writable_enriched _ _ _ Hs Hr H0), IH.
Qed.

Lemma complete_enriched (r0 r : row) :
  enriched r0 r -> complete r0 = true -> complete r = true.
Proof. intros [->|[_ [s ->]]] Hc; [exact Hc | now apply complete_insert]. Qed.

Lemma complete_enriched_rows (rs0 rs : list row) :
  Forall2 enriched rs0 rs ->
  List.forallb complete rs0 = true -> List.forallb complete rs = true.
Proof.
  induction 1 as [|r0 r rs0 rs Hr Hrs IH]; [easy|]. simpl.
  intros [H0 Hrest]%andb_prop. now rewrite (complete_enriched _ _ Hr H0), IH.
Qed.

Section PassSafety.
Variable net : Detail.network.
Variable output_file : string.
Variable fnames : list string.
Variable total : nat.
Hypothesis has_suite : list_in Detail.SUITE fnames = true.

Let temp_file := output_file +:+ ".tmp".
Let checkpoint := Detail.checkpoint output_file fnames total.
Let visit := Detail.visit net output_file fnames total.
Let loop := Detail.loop net output_file fnames total.

Lemma visit_safe (idx : nat) (st : Detail.state) :
  List.forallb (writable fnames) (Detail.all_rows st) = true ->
  List.forallb complete (Detail.all_rows st) = true ->
  exists st', visit idx st = Detail.Normal st'.
Proof.
  intros Hw Hc.
  destruct (visit_cases net output_file fnames total idx st)
    as (st1 & Ht & [Hv|[[Hv _]|(_ & _ & r & Hr & Hbad)]]); [|now exists st1|].
  2:{ rewrite forallb_forall in Hc. apply list_elem_of_lookup_2, list_elem_of_In in Hr.
      rewrite (Hc r Hr) in Hbad. discriminate Hbad. }
  clear Hc. fold visit in Hv. rewrite Hv.
  pose proof (writable_enriched_rows _ _ _ has_suite
                (touched_rows idx st st1 Ht) Hw) as Hw1.
  destruct (checkpoint_cases output_file fnames total idx st1)
    as [[_ Hc]|[(_ & _ & Hc)|(_ & Hbad & _)]].
  - eexists. exact Hc.
  - eexists. exact Hc.
  - congruence.
Qed.

Lemma loop_safe (idxs : list nat) (st : Detail.state) :
  List.forallb (writable fnames) (Detail.all_rows st) = true ->
  List.forallb complete (Detail.all_rows st) = true ->
  exists st', loop idxs st = Detail.Normal st'.
Proof.
  revert st. induction idxs as [|idx idxs IH]; intros st Hw Hc; [now exists st|].
  unfold loop in *. cbn [Detail.loop]. fold visit.
  destruct (visit_safe idx st Hw Hc) as [st' Hv]. rewrite Hv.
  pose proof (visit_rows net output_file fnames total idx st) as Hr.
  fold visit in Hr. rewrite Hv in Hr. apply IH.
  - exact (writable_enriched_rows _ _ _ has_suite Hr Hw).
  - exact (complete_enriched_rows _ _ Hr Hc).
Qed.

End PassSafety.

Section PassDisk.
Variable net : Detail.network.
Variable output_file : string.
Variable fnames : list string.
Variable total : nat.

Let temp_file := output_file +:+ ".tmp".
Let checkpoint := Detail.checkpoint output_file fnames total.
Let visit := Detail.visit net output_file fnames total.
Let loop := Detail.loop net output_file fnames total.

(** The paths a pass leaves alone. *)
Definition elsewhere (fs fs' : filesystem) : Prop :=
  forall p, p <> output_file -> p <> temp_file -> fs' !! p = fs !! p.

Lemma elsewhere_persisted (st : Detail.state) :
  elsewhere (Detail.disk st) (persisted output_file fnames st).
Proof.
  intros p Hp Hp'. unfold persisted.
  rewrite lookup_insert_ne by (intros E; now apply Hp).
  now rewrite lookup_delete_ne by (intros E; now apply Hp').
Qed.

Lemma visit_elsewhere (idx : nat) (st st' : Detail.state) :
  visit idx st = Detail.Normal st' -> elsewhere (Detail.disk st) (Detail.disk st').
Proof.
  destruct (visit_cases net output_file fnames total idx st)
    as (st1 & Ht & [Hv|[[Hv _]|[Hv _]]]); fold visit in Hv; rewrite Hv.
  - assert (Hd : Detail.disk st1 = Detail.disk st) by (now destruct Ht).
    destruct (checkpoint_cases output_file fnames total idx st1)
      as [[_ Hc]|[(_ & _ & Hc)|(_ & _ & fs' & Hc)]]; rewrite Hc.
    + intros [= <-]. rewrite Hd. now intros p _ _.
    + intros [= <-]. cbn [Detail.disk]. rewrite <- Hd.
      apply elsewhere_persisted.
    + discriminate.
  - intros [= <-]. assert (Hd : Detail.disk st1 = Detail.disk st)
      by (now destruct Ht). rewrite Hd. now intros p _ _.
  - discriminate.
Qed.

Lemma loop_elsewhere (idxs : list nat) (st st' : Detail.state) :
  loop idxs st = Detail.Normal st' -> elsewhere (Detail.disk st) (Detail.disk st').
Proof.
  revert st. induction idxs as [|idx idxs IH]; intros st.
  - intros [= <-]. now intros p _ _.
  - unfold loop in *. cbn [Detail.loop]. fold visit.
    destruct (visit idx st) as [st1|st1] eqn:Hv; [|discriminate].
    intros Hl p Hp Hp'.
    rewrite (IH _ Hl p Hp Hp'). exact (visit_elsewhere _ _ _ Hv p Hp Hp').
Qed.

(** Where no enrichment waits for a save, the output file holds the
    working table, or the pass has enriched nothing yet. *)
Definition in_sync (rows0 : list row) (st : Detail.state) : Prop :=
  Detail.updated_any st = false ->
  Detail.all_rows st = rows0
  \/ Detail.disk st !! output_file = Some (saved_table fnames (Detail.all_rows st)).

Lemma touched_in_sync (rows0 : list row) (idx : nat) (st st1 : Detail.state) :
  touched idx st st1 -> in_sync rows0 st -> in_sync rows0 st1.
Proof.
  intros [Hr Hu Hd|r s _ _ _ _ Hu _] Hs Hflag.
  - rewrite Hr, Hd. apply Hs. congruence.
  - congruence.
Qed.

Lemma visit_in_sync (rows0 : list row) (idx : nat) (st st' : Detail.state) :
  visit idx st = Detail.Normal st' -> in_sync rows0 st -> in_sync rows0 st'.
Proof.
  destruct (visit_cases net output_file fnames total idx st)
    as (st1 & Ht & [Hv|[[Hv _]|[Hv _]]]); fold visit in Hv; rewrite Hv.
  - destruct (checkpoint_cases output_file fnames total idx st1)
      as [[_ Hc]|[(_ & _ & Hc)|(_ & _ & fs' & Hc)]]; rewrite Hc.
    + intros [= <-]. exact (touched_in_sync rows0 idx st st1 Ht).
    + intros [= <-] _ _. right. cbn [Detail.disk Detail.all_rows].
      apply lookup_insert_eq.
    + discriminate.
  - intros [= <-]. exact (touched_in_sync rows0 idx st st1 Ht).
  - discriminate.
Qed.

Lemma loop_in_sync (rows0 : list row) (idxs : list nat) (st st' : Detail.state) :
  loop idxs st = Detail.Normal st' -> in_sync rows0 st -> in_sync rows0 st'.
Proof.
  revert st. induction idxs as [|idx idxs IH]; intros st.
  - now intros [= <-].
  - unfold loop in *. cbn [Detail.loop]. fold visit.
    destruct (visit idx st) as [st1|st1] eqn:Hv; [|discriminate].
    intros Hl Hs. apply (IH _ Hl). exact (visit_in_sync _ _ _ _ Hv Hs).
Qed.

(** An enrichment at an index where the save is due is persisted at
    once. *)
Lemma visit_boundary (idx : nat) (st st' : Detail.state) :
  visit idx st = Detail.Normal st' ->
  Detail.all_rows st' <> Detail.all_rows st ->
  (idx mod 10 = 0 \/ idx = total - 1) ->
  Detail.updated_any st' = false
  /\ Detail.disk st' !! output_file
     = Some (saved_table fnames (Detail.all_rows st')).
Proof.
  intros Hn Hchg Hidx.
  destruct (visit_cases net output_file fnames total idx st)
    as (st1 & Ht & [Hv|[[Hv Hsame]|[Hv _]]]); fold visit in Hv; rewrite Hv in Hn.
  2:{ injection Hn as <-. contradiction. }
  2:{ discriminate Hn. }
  assert (Hflag : Detail.updated_any st1 = true).
  { destruct Ht as [Hr _ _|]; [|assumption]. exfalso. apply Hchg.
    pose proof (checkpoint_rows output_file fnames total idx st1) as Hc.
    rewrite Hn in Hc. cbn in Hc. congruence. }
  assert (Hdue : due total idx st1 = true).
  { unfold due. rewrite Hflag. cbn [andb]. apply orb_true_iff.
    destruct Hidx as [H|H]; [left|right]; now apply Nat.eqb_eq. }
  destruct (checkpoint_cases output_file fnames total idx st1)
    as [[Hd _]|[(_ & _ & Hc)|(_ & _ & fs' & Hc)]].
  - congruence.
  - rewrite Hc in Hn. injection Hn as <-.
    split; [reflexivity|]. cbn [Detail.disk Detail.all_rows].
    apply lookup_insert_eq.
  - rewrite Hc in Hn. discriminate.
Qed.

End PassDisk.

(** ** process_file *)

Lemma default_output_cases (input_file : string) :
  Detail.default_output input_file = input_file
  \/ String.length (Detail.default_output input_file)
     = String.length input_file + 9.
Proof.
  unfold Detail.default_output. pose proof (splitext_join input_file) as H.
  destruct (splitext input_file) as [base ext]. cbn [fst snd] in H.
  destruct (contains "_detailed" base); [now left|right].
  rewrite <- H, !length_append. simpl. lia.
Qed.

Lemma input_not_temp (input_file : string) :
  input_file <> Detail.default_output input_file +:+ ".tmp".
Proof.
  intros H. apply (f_equal String.length) in H. rewrite length_append in H.
  simpl in H. destruct (default_output_cases input_file) as [Hc|Hc];
    rewrite Hc in H; lia.
Qed.

Lemma ensure_column_has_suite (fnames : list string) :
  list_in Detail.SUITE (Detail.ensure_column fnames) = true.
Proof.
  unfold Detail.ensure_column.
  destruct (list_in Detail.SUITE fnames) eqn:H; [exact H|]. cbn [negb].
  apply list_in_spec, elem_of_list_insert_at. now left.
Qed.

Lemma ensure_column_id (fnames : list string) :
  list_in Detail.SUITE fnames = true -> Detail.ensure_column fnames = fnames.
Proof. unfold Detail.ensure_column. now intros ->. Qed.

Lemma working_table_rows_le (input : table) (saved : option table) :
  length (rows input) <= length (rows (Detail.working_table input saved)).
Proof.
  unfold Detail.working_table, Detail.resume. destruct saved as [out|]; [|easy].
  destruct (length (rows input) <=? length (rows out)) eqn:H; [|easy].
  cbn [rows]. now apply Nat.leb_le.
Qed.

Lemma working_table_keeps_suite (input : table) (saved : option table) :
  list_in Detail.SUITE (fieldnames input) = true ->
  fieldnames (Detail.working_table input saved) = fieldnames input.
Proof.
  intros H. unfold Detail.working_table, Detail.resume. cbn [fieldnames].
  destruct saved as [out|]; [|now apply ensure_column_id].
  destruct (_ <=? _); cbn [fieldnames]; rewrite ?H; cbn [negb andb];
    now apply ensure_column_id.
Qed.

Lemma length_enriched (rs0 rs : list row) :
  Forall2 enriched rs0 rs -> length rs = length rs0.
Proof. induction 1; simpl; congruence. Qed.

Lemma process_file_done (net : Detail.network) (input_file : string)
    (fs : filesystem) (st : Detail.state) :
  Detail.process_file net input_file None fs = Detail.Done st ->
  exists input,
    fs !! input_file = Some input
    /\ rows input <> []
    /\ let out := Detail.default_output input_file in
       let w := Detail.working_table input (fs !! out) in
       Forall2 enriched (rows w) (Detail.all_rows st)
       /\ List.forallb (writable (fieldnames w)) (Detail.all_rows st) = true
       /\ Detail.disk st !! out = Some (saved_table (fieldnames w) (Detail.all_rows st))
       /\ Detail.disk st !! (out +:+ ".tmp") = None
       /\ forall p, p <> out -> p <> out +:+ ".tmp" -> Detail.disk st !! p = fs !! p.
Proof.
  unfold Detail.process_file. cbn [from_option id].
  destruct (fs !! input_file) as [input|] eqn:Hin; [|discriminate].
  destruct (rows input) as [|r0 rs0] eqn:Hrows; [discriminate|].
  set (out := Detail.default_output input_file).
  set (w := Detail.working_table input (fs !! out)).
  destruct (Detail.loop net out (fieldnames w) (length (rows w)) _ _)
    as [st1|st1] eqn:Hloop; [|discriminate].
  destruct (Detail.save_csv _ _ _ _) as [fs' ok] eqn:Hsave.
  destruct (save_csv_result _ _ _ _ _ _ Hsave) as [Hok Hfs].
  destruct ok; [|discriminate]. intros [= <-]. specialize (Hfs eq_refl).
  exists input. split; [reflexivity|]. split; [rewrite Hrows; discriminate|].
  cbn zeta. cbn [Detail.all_rows Detail.disk].
  pose proof (loop_rows net out (fieldnames w) (length (rows w))
                (seq 0 (length (rows w))) (Detail.initial w fs)) as Hr.
  rewrite Hloop in Hr. cbn in Hr.
  pose proof (loop_elsewhere net out (fieldnames w) (length (rows w)) _ _ _ Hloop)
    as He. cbn in He.
  pose proof (temp_file_fresh out) as Hne.
  repeat split.
  - exact Hr.
  - now symmetry.
  - rewrite Hfs. apply lookup_insert_eq.
  - rewrite Hfs. rewrite lookup_insert_ne by congruence. apply lookup_delete_eq.
  - intros p Hp Hp'. rewrite Hfs.
    rewrite lookup_insert_ne, lookup_delete_ne by congruence. now apply He.
Qed.

Lemma process_file_safe (net : Detail.network) (input_file : string)
    (fs : filesystem) (input : table) :
  fs !! input_file = Some input ->
  rows input <> [] ->
  (let w := Detail.working_table input (fs !! Detail.default_output input_file) in
   List.forallb (writable (fieldnames w)) (rows w) = true
   /\ List.forallb complete (rows w) = true) ->
  exists st, Detail.process_file net input_file None fs = Detail.Done st.
Proof.
  intros Hin Hrows Hw. unfold Detail.process_file. cbn [from_option id].
  rewrite Hin. destruct (rows input) as [|r0 rs0] eqn:Hr; [contradiction|].
  set (out := Detail.default_output input_file) in *.
  set (w := Detail.working_table input (fs !! out)) in *. cbn zeta in Hw.
  destruct Hw as [Hw Hc].
  assert (Hs : list_in Detail.SUITE (fieldnames w) = true)
    by apply ensure_column_has_suite.
  destruct (loop_safe net out (fieldnames w) (length (rows w)) Hs
              (seq 0 (length (rows w))) (Detail.initial w fs) Hw Hc) as [st1 Hl].
  rewrite Hl.
  pose proof (loop_rows net out (fieldnames w) (length (rows w))
                (seq 0 (length (rows w))) (Detail.initial w fs)) as Hev.
  rewrite Hl in Hev. cbn in Hev.
  rewrite (save_csv_ok _ _ _ _ (writable_enriched_rows _ _ _ Hs Hev Hw)).
  eexists. reflexivity.
Qed.

(** A pass over a well-formed table with rows and without previous
    output completes. *)
Lemma writable_more (fnames fnames' : list string) (r : row) :
  (forall k, k ∈ fnames -> k ∈ fnames') ->
  writable fnames r = true -> writable fnames' r = true.
Proof.
  intros Hsub Hw. apply writable_spec. intros k Hk. apply Hsub.
  now apply (proj1 (writable_spec fnames r) Hw).
Qed.

Lemma elem_of_ensure_column (k : string) (fnames : list string) :
  k ∈ fnames -> k ∈ Detail.ensure_column fnames.
Proof.
  unfold Detail.ensure_column. destruct (negb _); [|easy].
  intros H. apply elem_of_list_insert_at. now right.
Qed.

Lemma writable_ensure_column (fnames : list string) (rs : list row) :
  List.forallb (writable fnames) rs = true ->
  List.forallb (writable (Detail.ensure_column fnames)) rs = true.
Proof.
  induction rs as [|r rs IH]; [reflexivity|]. cbn [forallb].
  intros [Hr Hrs]%andb_prop.
  rewrite (writable_more _ _ _ (fun k => elem_of_ensure_column k _) Hr).
  now apply IH.
Qed.

Lemma fresh_pass_completes (net : Detail.network) (input_file : string)
    (fs : filesystem) (input : table) :
  fs !! input_file = Some input ->
  rows input <> [] ->
  well_formed input ->
  List.forallb complete (rows input) = true ->
  fs !! Detail.default_output input_file = None ->
  exists st, Detail.process_file net input_file None fs = Detail.Done st.
Proof.
  intros Hin Hrows Hwf Hc Hnone. apply (process_file_safe net _ _ _ Hin Hrows).
  rewrite Hnone. cbn. split; [now apply writable_ensure_column | exact Hc].
Qed.

Lemma written_rows_writable (fnames : list string) (rs : list row) :
  List.forallb (writable fnames) (List.map (written_row fnames) rs) = true.
Proof.
  induction rs as [|r rs IH]; [reflexivity|]. simpl.
  now rewrite written_row_writable, IH.
Qed.

Lemma written_rows_complete (fnames : list string) (rs : list row) :
  List.forallb complete (List.map (written_row fnames) rs) = true.
Proof.
  induction rs as [|r rs IH]; [reflexivity|]. simpl.
  now rewrite complete_written_row, IH.
Qed.

Lemma working_table_resumed (input : table) (fnames : list string) (rs : list row) :
  list_in Detail.SUITE fnames = true ->
  length (rows input) <= length rs ->
  (list_in Detail.SUITE (fieldnames input) = true -> fieldnames input = fnames) ->
  Detail.working_table input (Some (Table fnames rs)) = Table fnames rs.
Proof.
  intros Hs Hlen Hsame. unfold Detail.working_table, Detail.resume.
  cbn [rows fieldnames]. apply Nat.leb_le in Hlen. rewrite Hlen.
  cbn [rows fieldnames]. rewrite Hs.
  destruct (list_in Detail.SUITE (fieldnames input)) eqn:Hi; cbn [negb andb].
  - rewrite (Hsame eq_refl). now rewrite ensure_column_id.
  - now rewrite ensure_column_id.
Qed.

(** A second pass after a completed one completes as well; it works on
    the table the first pass saved, under the same field names. *)
Lemma second_run (net1 net2 : Detail.network) (input_file : string)
    (fs : filesystem) (st1 : Detail.state) :
  Detail.process_file net1 input_file None fs = Detail.Done st1 ->
  exists fnames st2,
    Detail.disk st1 !! Detail.default_output input_file
    = Some (saved_table fnames (Detail.all_rows st1))
    /\ list_in Detail.SUITE fnames = true
    /\ Detail.process_file net2 input_file None (Detail.disk st1) = Detail.Done st2
    /\ Forall2 enriched (List.map (written_row fnames) (Detail.all_rows st1))
                        (Detail.all_rows st2)
    /\ Detail.disk st2 !! Detail.default_output input_file
       = Some (saved_table fnames (Detail.all_rows st2)).
Proof.
  intros Hrun1.
  destruct (process_file_done _ _ _ _ Hrun1)
    as (input & Hin & Hrows & Hev & Hw & Hout & Htmp & Helse).
  set (out := Detail.default_output input_file) in *.
  set (w := Detail.working_table input (fs !! out)) in *.
  set (fnames := fieldnames w) in *.
  assert (Hs : list_in Detail.SUITE fnames = true)
    by apply ensure_column_has_suite.
  assert (Hlen : length (rows input) <= length (Detail.all_rows st1)).
  { rewrite (length_enriched _ _ Hev). apply working_table_rows_le. }
  assert (Hin2 : exists input2,
             Detail.disk st1 !! input_file = Some input2
             /\ rows input2 <> []
             /\ length (rows input2) <= length (Detail.all_rows st1)
             /\ (list_in Detail.SUITE (fieldnames input2) = true ->
                 fieldnames input2 = fnames)).
  { destruct (decide (input_file = out)) as [Heq|Hne].
    - exists (saved_table fnames (Detail.all_rows st1)).
      rewrite Heq. split; [exact Hout|]. cbn [saved_table rows fieldnames].
      rewrite length_map. split; [|split; [lia | reflexivity]].
      destruct (Detail.all_rows st1); [|discriminate].
      destruct (rows input); [contradiction | simpl in Hlen; lia].
    - exists input. split; [|split; [exact Hrows | split; [exact Hlen|]]].
      + rewrite Helse; [exact Hin | exact Hne | apply input_not_temp].
      + intros Hi. symmetry. now apply working_table_keeps_suite. }
  destruct Hin2 as (input2 & Hin2 & Hrows2 & Hlen2 & Hsame).
  assert (Hw2 : Detail.working_table input2 (Detail.disk st1 !! out)
                = saved_table fnames (Detail.all_rows st1)).
  { rewrite Hout. apply working_table_resumed; [exact Hs| |exact Hsame].
    now rewrite length_map. }
  destruct (process_file_safe net2 input_file (Detail.disk st1) input2 Hin2 Hrows2)
    as [st2 Hrun2].
  { cbn zeta. fold out. rewrite Hw2.
    split; [apply written_rows_writable | apply written_rows_complete]. }
  exists fnames, st2. split; [exact Hout|]. split; [exact Hs|].
  split; [exact Hrun2|].
  destruct (process_file_done _ _ _ _ Hrun2)
    as (input2' & Hin2' & _ & Hev2 & _ & Hout2 & _).
  rewrite Hin2 in Hin2'. injection Hin2' as <-. fold out in Hev2, Hout2.
  rewrite Hw2 in Hev2, Hout2. split; [exact Hev2 | exact Hout2].
Qed.

(** ** The claims on the enricher *)

Definition state_of (res : Detail.result) : Detail.state :=
  match res with
  | Detail.Done st | Detail.Crashed st => st
  | _ => Detail.State [] 0 false ∅ []
  end.

Lemma process_file_rows (net : Detail.network) (input_file : string)
    (fs : filesystem) (input : table) :
  fs !! input_file = Some input ->
  rows input <> [] ->
  exists st,
    (Detail.process_file net input_file None fs = Detail.Done st
     \/ Detail.process_file net input_file None fs = Detail.Crashed st)
    /\ Forall2 enriched
         (rows (Detail.working_table input
                  (fs !! Detail.default_output input_file)))
         (Detail.all_rows st).
Proof.
  intros Hin Hrows. unfold Detail.process_file. cbn [from_option id].
  rewrite Hin. destruct (rows input) as [|r0 rs0] eqn:Hr; [contradiction|].
  set (out := Detail.default_output input_file).
  set (w := Detail.working_table input (fs !! out)).
  pose proof (loop_rows net out (fieldnames w) (length (rows w))
                (seq 0 (length (rows w))) (Detail.initial w fs)) as Hev.
  destruct (Detail.loop net out (fieldnames w) (length (rows w)) _ _)
    as [st1|st1]; cbn in Hev.
  - destruct (Detail.save_csv _ _ _ _) as [fs' [|]]; eexists; split;
      [left; reflexivity | exact Hev | right; reflexivity | exact Hev].
  - exists st1. split; [now right | exact Hev].
Qed.

(** A network on which every detail page answers, with Suite 5 in its
    address container. *)
Definition unit_page : Detail.network :=
  fun _ url => Detail.Response url 200 (Some "Suite 5").

Definition reno : row :=
  <["City" := Some "Reno"]> (<["Street Address" := Some "1 Main St"]> ∅).

(** C1, as worded, fails: with an input table without rows the previous
    output is not loaded and no pass takes place, whatever its row
    count. *)
Lemma empty_input_counterexample :
  let fs : filesystem :=
    <["a_detailed.csv" := Table ["Street Address"; "Suite/Apartment"; "City"] [reno]]>
      (<["a.csv" := Table ["Street Address"; "City"] []]> ∅) in
  Detail.default_output "a.csv" = "a_detailed.csv"
  /\ Detail.process_file unit_page "a.csv" None fs = Detail.NoRows.
Proof. split; reflexivity. Qed.

(** C1, amended. For an invocation whose input table has at least one
    row and whose target path holds a previous output: when the loaded
    table has at least as many rows as the input, its rows become the
    working rows, all of them, and the working field names are the
    loaded ones if the input lacks the unit column and the loaded table
    has it, the input's otherwise (with the unit column ensured); when
    it has fewer rows, the working table is the input with the unit
    column ensured.  The pass then runs over these working rows: the
    rows it ends with are the working rows, some of them enriched. *)
Theorem resume_from_previous_output (net : Detail.network) (input_file : string)
    (fs : filesystem) (input saved : table) :
  fs !! input_file = Some input ->
  rows input <> [] ->
  fs !! Detail.default_output input_file = Some saved ->
  let w := Detail.working_table input (Some saved) in
  (length (rows input) <= length (rows saved) ->
   rows w = rows saved
   /\ fieldnames w
      = Detail.ensure_column
          (if negb (list_in Detail.SUITE (fieldnames input))
              && list_in Detail.SUITE (fieldnames saved)
           then fieldnames saved else fieldnames input))
  /\ (length (rows saved) < length (rows input) ->
      w = Table (Detail.ensure_column (fieldnames input)) (rows input))
  /\ exists st,
       (Detail.process_file net input_file None fs = Detail.Done st
        \/ Detail.process_file net input_file None fs = Detail.Crashed st)
       /\ Forall2 enriched (rows w) (Detail.all_rows st).
Proof.
  intros Hin Hrows Hout w. split; [|split].
  - intros Hle. unfold w, Detail.working_table, Detail.resume.
    apply Nat.leb_le in Hle. rewrite Hle. now split.
  - intros Hlt. unfold w, Detail.working_table, Detail.resume.
    apply Nat.leb_gt in Hlt. now rewrite Hlt.
  - unfold w. rewrite <- Hout. now apply process_file_rows.
Qed.

Definition two_rows : table := Table ["Street Address"; "City"] [reno; reno].

Definition two_rows_saved : table :=
  Table ["Street Address"; "Suite/Apartment"; "City"]
    [<["Suite/Apartment" := Some "Suite 5"]> reno; <["Suite/Apartment" := Some ""]> reno].

Definition resumed_disk : filesystem :=
  <["a_detailed.csv" := two_rows_saved]> (<["a.csv" := two_rows]> ∅).

Lemma resume_from_previous_output_witness :
  resumed_disk !! "a.csv" = Some two_rows
  /\ rows two_rows <> []
  /\ resumed_disk !! Detail.default_output "a.csv" = Some two_rows_saved
  /\ Detail.working_table two_rows (Some two_rows_saved) = two_rows_saved
  /\ exists st,
       (Detail.process_file unit_page "a.csv" None resumed_disk = Detail.Done st
        \/ Detail.process_file unit_page "a.csv" None resumed_disk = Detail.Crashed st)
       /\ Forall2 enriched (rows two_rows_saved) (Detail.all_rows st).
Proof.
  assert (H1 : resumed_disk !! "a.csv" = Some two_rows) by reflexivity.
  assert (H2 : rows two_rows <> []) by discriminate.
  assert (H3 : resumed_disk !! Detail.default_output "a.csv" = Some two_rows_saved)
    by reflexivity.
  destruct (resume_from_previous_output unit_page "a.csv" resumed_disk
              two_rows two_rows_saved H1 H2 H3) as (_ & _ & Hrun).
  repeat split; assumption.
Defined.

(** C2, as worded, fails: a unit that is not empty but blank does not
    count as resolved; the record is fetched and its unit replaced. *)
Lemma blank_unit_counterexample :
  let r : row := <["Suite/Apartment" := Some " "]> reno in
  let fs : filesystem :=
    <["a.csv" := Table ["Street Address"; "Suite/Apartment"; "City"] [r]]> ∅ in
  get "Suite/Apartment" r = " "
  /\ exists st,
       Detail.process_file unit_page "a.csv" None fs = Detail.Done st
       /\ Detail.requests st = ["https://www.anytimemailbox.com/s/reno-1-main-st"]
       /\ List.map (get "Suite/Apartment") (Detail.all_rows st) = ["Suite 5"].
Proof.
  split; [reflexivity|]. eexists. split; [vm_compute; reflexivity|].
  split; reflexivity.
Qed.

(** C2, amended. A record whose unit is not blank (not empty once
    trimmed) at loop entry is skipped: it is counted as successful, no
    request is made, and neither the table nor the disk changes.
    Consequently, after a completed pass a second pass on the same
    input completes too, whatever the network does, and every record of
    the saved table whose unit is not blank is the same after it. *)
Theorem resolved_records_kept (net1 net2 : Detail.network) (input_file : string)
    (fs : filesystem) (st1 : Detail.state) :
  Detail.process_file net1 input_file None fs = Detail.Done st1 ->
  (forall net output_file fnames total idx st r,
     Detail.all_rows st !! idx = Some r ->
     truthy (strip (get Detail.SUITE r)) = true ->
     Detail.visit net output_file fnames total idx st
     = Detail.Normal
         (Detail.State (Detail.all_rows st) (S (Detail.success_count st))
            (Detail.updated_any st) (Detail.disk st) (Detail.requests st)))
  /\ exists st2 t1 t2,
       Detail.process_file net2 input_file None (Detail.disk st1) = Detail.Done st2
       /\ Detail.disk st1 !! Detail.default_output input_file = Some t1
       /\ Detail.disk st2 !! Detail.default_output input_file = Some t2
       /\ length (rows t2) = length (rows t1)
       /\ forall i r,
            rows t1 !! i = Some r ->
            truthy (strip (get Detail.SUITE r)) = true ->
            rows t2 !! i = Some r.
Proof.
  intros Hrun1. split.
  { intros net output_file fnames total idx st r Hr Hs.
    unfold Detail.visit. rewrite Hr. unfold get in Hs.
    destruct (get_cell Detail.SUITE r) as [suite|]; [|discriminate Hs].
    cbn [default from_option id] in Hs. now rewrite Hs. }
  destruct (second_run net1 net2 _ _ _ Hrun1)
    as (fnames & st2 & Hout1 & Hs & Hrun2 & Hev & Hout2).
  exists st2. do 2 eexists.
  split; [exact Hrun2|]. split; [exact Hout1|]. split; [exact Hout2|].
  cbn [saved_table rows]. split.
  { rewrite !length_map. rewrite (length_enriched _ _ Hev). apply length_map. }
  intros i r Hr Hres.
  destruct (Forall2_lookup_l _ _ _ _ _ Hev Hr) as (r2 & Hr2 & Henr).
  assert (r2 = r) as ->.
  { destruct Henr as [->|[Hb _]]; [reflexivity|]. unfold blank in Hb. congruence. }
  change (List.map (written_row fnames) (Detail.all_rows st2))
    with (written_row fnames <$> Detail.all_rows st2).
  rewrite list_lookup_fmap, Hr2. cbn.
  change (List.map (written_row fnames) (Detail.all_rows st1))
    with (written_row fnames <$> Detail.all_rows st1) in Hr.
  rewrite list_lookup_fmap in Hr.
  destruct (Detail.all_rows st1 !! i) as [r1|]; [|discriminate].
  cbn in Hr. injection Hr as <-. now rewrite written_row_idem.
Qed.

Definition three_rows : table := Table ["Street Address"; "City"] [reno; reno; reno].

Definition fresh_disk : filesystem := <["a.csv" := three_rows]> ∅.

(** A network on which every request fails. *)
Definition no_network : Detail.network := fun _ _ => Detail.Raises.

Lemma fresh_pass_done :
  Detail.process_file unit_page "a.csv" None fresh_disk
  = Detail.Done (state_of (Detail.process_file unit_page "a.csv" None fresh_disk)).
Proof. vm_compute. reflexivity. Qed.

Lemma resolved_records_kept_witness :
  Detail.process_file unit_page "a.csv" None fresh_disk
  = Detail.Done (state_of (Detail.process_file unit_page "a.csv" None fresh_disk))
  /\ exists st2 t1 t2,
       Detail.process_file no_network "a.csv" None
         (Detail.disk (state_of (Detail.process_file unit_page "a.csv" None fresh_disk)))
       = Detail.Done st2
       /\ Detail.disk (state_of (Detail.process_file unit_page "a.csv" None fresh_disk))
          !! "a_detailed.csv" = Some t1
       /\ Detail.disk st2 !! "a_detailed.csv" = Some t2
       /\ length (rows t2) = length (rows t1).
Proof.
  split; [exact fresh_pass_done|].
  destruct (resolved_records_kept unit_page no_network "a.csv" fresh_disk _
              fresh_pass_done) as (_ & st2 & t1 & t2 & H2 & Ht1 & Ht2 & Hlen & _).
  exists st2, t1, t2. repeat split; assumption.
Defined.

(** C4, as worded, fails: the enrichment of a record whose index is
    neither a multiple of 10 nor the last is not followed by a save.
    After the records 0 and 1 of three are visited, record 1 carries its
    unit in the working table and none in the persisted one. *)
Lemma unsaved_enrichment_counterexample :
  let w := Detail.working_table three_rows None in
  exists st,
    Detail.loop unit_page "a_detailed.csv" (fieldnames w) 3 [0; 1]
      (Detail.initial w fresh_disk) = Detail.Normal st
    /\ List.map (get "Suite/Apartment") (Detail.all_rows st)
       = ["Suite 5"; "Suite 5"; ""]
    /\ (fun t => List.map (get "Suite/Apartment") (rows t))
         <$> Detail.disk st !! "a_detailed.csv"
       = Some ["Suite 5"; ""; ""].
Proof.
  eexists. split; [vm_compute; reflexivity|]. split; vm_compute; reflexivity.
Qed.

(** C4, amended. During a pass the full working table is persisted
    right after a successful enrichment of a record whose index is a
    multiple of 10 or the last one; whenever no enrichment waits for a
    save, the persisted table is the full working table, unless the
    pass has enriched nothing yet; and when the pass completes, the
    full working table, with every enrichment made, is what the target
    path holds. *)
Theorem checkpoints (net : Detail.network) (input_file : string)
    (fs : filesystem) (input : table) :
  fs !! input_file = Some input ->
  rows input <> [] ->
  let out := Detail.default_output input_file in
  let w := Detail.working_table input (fs !! out) in
  let fnames := fieldnames w in
  let total := length (rows w) in
  (forall k st,
     Detail.loop net out fnames total (seq 0 k) (Detail.initial w fs)
     = Detail.Normal st ->
     (Detail.updated_any st = false ->
      Detail.all_rows st = rows w
      \/ Detail.disk st !! out = Some (saved_table fnames (Detail.all_rows st)))
     /\ forall st',
          Detail.visit net out fnames total k st = Detail.Normal st' ->
          Detail.all_rows st' <> Detail.all_rows st ->
          k mod 10 = 0 \/ k = total - 1 ->
          Detail.updated_any st' = false
          /\ Detail.disk st' !! out
             = Some (saved_table fnames (Detail.all_rows st')))
  /\ forall st,
       Detail.process_file net input_file None fs = Detail.Done st ->
       Detail.disk st !! out = Some (saved_table fnames (Detail.all_rows st))
       /\ Forall2 enriched (rows w) (Detail.all_rows st).
Proof.
  intros Hin Hrows out w fnames total. split.
  - intros k st Hloop. split.
    + apply (loop_in_sync net out fnames total (rows w) _ _ _ Hloop).
      intros _. now left.
    + intros st' Hv Hchg Hk.
      exact (visit_boundary net out fnames total k st st' Hv Hchg Hk).
  - intros st Hrun.
    destruct (process_file_done _ _ _ _ Hrun)
      as (input' & Hin' & _ & Hev & _ & Hout & _).
    rewrite Hin in Hin'. injection Hin' as <-. now split.
Qed.

Lemma checkpoints_witness :
  fresh_disk !! "a.csv" = Some three_rows
  /\ rows three_rows <> []
  /\ exists st,
       Detail.process_file unit_page "a.csv" None fresh_disk = Detail.Done st
       /\ Detail.disk st !! Detail.default_output "a.csv"
          = Some (saved_table
                    (fieldnames (Detail.working_table three_rows
                                   (fresh_disk !! Detail.default_output "a.csv")))
                    (Detail.all_rows st)).
Proof.
  assert (H1 : fresh_disk !! "a.csv" = Some three_rows) by reflexivity.
  assert (H2 : rows three_rows <> []) by discriminate.
  repeat split; try assumption.
  exists (state_of (Detail.process_file unit_page "a.csv" None fresh_disk)).
  split; [exact fresh_pass_done|].
  exact (proj1 (proj2 (checkpoints unit_page "a.csv" fresh_disk three_rows H1 H2)
                  _ fresh_pass_done)).
Defined.

(** C6. After a completed pass, a further pass on the same input,
    whatever the network does and whichever records it enriches,
    completes and persists the table under the same field names, the
    unit column among them at the same index.  Where the input lacks the
    unit column (and no previous output brings it), the first pass puts
    it at index 1 of the input's field names. *)
Theorem unit_column_stable (net1 net2 : Detail.network) (input_file : string)
    (fs : filesystem) (st1 : Detail.state) :
  Detail.process_file net1 input_file None fs = Detail.Done st1 ->
  exists st2 t1 t2,
    Detail.process_file net2 input_file None (Detail.disk st1) = Detail.Done st2
    /\ Detail.disk st1 !! Detail.default_output input_file = Some t1
    /\ Detail.disk st2 !! Detail.default_output input_file = Some t2
    /\ fieldnames t2 = fieldnames t1
    /\ list_in Detail.SUITE (fieldnames t1) = true
    /\ list_index Detail.SUITE (fieldnames t2)
       = list_index Detail.SUITE (fieldnames t1)
    /\ forall input,
         fs !! input_file = Some input ->
         fieldnames input <> [] ->
         list_in Detail.SUITE (fieldnames input) = false ->
         match fs !! Detail.default_output input_file with
         | Some saved => list_in Detail.SUITE (fieldnames saved) = false
         | None => True
         end ->
         fieldnames t1 = list_insert_at 1 Detail.SUITE (fieldnames input)
         /\ list_index Detail.SUITE (fieldnames t1) = 1.
Proof.
  intros Hrun1.
  destruct (second_run net1 net2 _ _ _ Hrun1)
    as (fnames & st2 & Hout1 & Hs & Hrun2 & _ & Hout2).
  exists st2. do 2 eexists.
  split; [exact Hrun2|]. split; [exact Hout1|]. split; [exact Hout2|].
  cbn [saved_table fieldnames].
  split; [reflexivity|]. split; [exact Hs|]. split; [reflexivity|].
  intros input Hin Hhead Hno Hsaved.
  destruct (process_file_done _ _ _ _ Hrun1)
    as (input' & Hin' & _ & _ & _ & Hout1' & _).
  rewrite Hin in Hin'. injection Hin' as <-.
  rewrite Hout1 in Hout1'. injection Hout1' as Hf _.
  assert (Hfn : fnames = list_insert_at 1 Detail.SUITE (fieldnames input)).
  { rewrite Hf. unfold Detail.working_table, Detail.resume, Detail.ensure_column.
    destruct (fs !! Detail.default_output input_file) as [saved|];
      [destruct (_ <=? _)|]; cbn [fieldnames]; rewrite ?Hsaved, ?Hno;
      cbn [negb andb]; rewrite ?Hno; reflexivity. }
  split; [exact Hfn|]. rewrite Hfn.
  destruct (fieldnames input) as [|f rest]; [contradiction|].
  unfold list_in in Hno. cbn [existsb] in Hno.
  apply orb_false_iff in Hno as [Hf0 _].
  change (list_insert_at 1 Detail.SUITE (f :: rest))
    with (f :: Detail.SUITE :: rest).
  cbn [list_index]. now rewrite String.eqb_sym, Hf0, String.eqb_refl.
Qed.

Lemma unit_column_stable_witness :
  Detail.process_file unit_page "a.csv" None fresh_disk
  = Detail.Done (state_of (Detail.process_file unit_page "a.csv" None fresh_disk))
  /\ exists st2 t1 t2,
       Detail.process_file no_network "a.csv" None
         (Detail.disk (state_of (Detail.process_file unit_page "a.csv" None fresh_disk)))
       = Detail.Done st2
       /\ Detail.disk (state_of (Detail.process_file unit_page "a.csv" None fresh_disk))
          !! "a_detailed.csv" = Some t1
       /\ Detail.disk st2 !! "a_detailed.csv" = Some t2
       /\ fieldnames t2 = fieldnames t1
       /\ fieldnames t1 = ["Street Address"; "Suite/Apartment"; "City"].
Proof.
  split; [exact fresh_pass_done|].
  destruct (unit_column_stable unit_page no_network "a.csv" fresh_disk _
              fresh_pass_done)
    as (st2 & t1 & t2 & H2 & Ht1 & Ht2 & Hsame & _ & _ & Hfirst).
  exists st2, t1, t2. repeat split; try assumption.
  exact (proj1 (Hfirst three_rows eq_refl
                  (fun H => eq_ind (fieldnames three_rows)
                              (fun l => match l with [] => False | _ => True end)
                              I [] H)
                  eq_refl I)).
Defined.

(** ** save_csv is not atomic *)

(** C3 fails on the code.  The states of the target path during a save
    over an existing table: the old table while the temporary file is
    written, then no file at all once [os.remove] has run, and the new
    table only after [os.rename]. *)
Theorem save_csv_target_gap :
  let old := Table ["Street Address"; "City"] [reno] in
  let new := Table ["Street Address"; "Suite/Apartment"; "City"]
               [<["Suite/Apartment" := Some "Suite 5"]> reno] in
  let fs : filesystem := <["out.csv" := old]> ∅ in
  let '(states, ok) := Detail.save_csv_trace "out.csv" (fieldnames new) (rows new) fs in
  ok = true
  /\ (fun st : filesystem => st !! "out.csv") <$> states
     = [Some old; Some old; Some old; None; Some new].
Proof. vm_compute. split; reflexivity. Qed.

(** The gap is there for every save over an existing target. *)
Lemma save_csv_trace_gap (filename : string) (fnames : list string)
    (rs : list row) (fs : filesystem) :
  is_Some (fs !! filename) ->
  List.forallb (writable fnames) rs = true ->
  exists before gap after,
    (Detail.save_csv_trace filename fnames rs fs).1 = before ++ gap :: after
    /\ gap !! filename = None.
Proof.
  intros Hex Hw. unfold Detail.save_csv_trace.
  set (temp_file := filename +:+ ".tmp").
  rewrite writeheader_open_w.
  destruct (writerows temp_file fnames rs _) as [written ok] eqn:Hrows.
  pose proof (writerows_ok _ _ _ _ _ _ Hrows) as Hok. rewrite Hw in Hok. subst ok.
  pose proof (writerows_last temp_file fnames rs
                (<[temp_file := Table fnames []]> fs) fnames []
                Hw (lookup_insert_eq _ _ _)) as Hlast.
  rewrite Hrows, insert_insert_eq in Hlast. cbn [fst app] in Hlast.
  rewrite Hlast.
  assert (Hex' : exists_ filename
                   (<[temp_file := Table fnames (List.map (written_row fnames) rs)]> fs)
                 = true).
  { unfold exists_. apply bool_decide_eq_true.
    rewrite lookup_insert_ne; [exact Hex | apply temp_file_fresh]. }
  rewrite Hex'. cbn [fst].
  eexists (_ :: _ :: written), _, [_]. split.
  - reflexivity.
  - apply lookup_delete_eq.
Qed.

(** * Further properties *)

(** ** Trimming *)

Lemma rstrip_by_cons (p : ascii -> bool) (c : ascii) (s : string) :
  rstrip_by p (String c s)
  = match rstrip_by p s with
    | EmptyString => if p c then EmptyString else String c EmptyString
    | r => String c r
    end.
Proof. reflexivity. Qed.

Lemma rstrip_by_idem (p : ascii -> bool) (s : string) :
  rstrip_by p (rstrip_by p s) = rstrip_by p s.
Proof.
  induction s as [|c s IH]; [reflexivity|]. rewrite rstrip_by_cons.
  destruct (rstrip_by p s) as [|c' r] eqn:Hr.
  - destruct (p c) eqn:Hc; [reflexivity|]. rewrite rstrip_by_cons. cbn.
    now rewrite Hc.
  - rewrite rstrip_by_cons. now rewrite IH.
Qed.

Lemma rstrip_by_head (p : ascii -> bool) (c : ascii) (s : string) :
  p c = false -> exists r, rstrip_by p (String c s) = String c r.
Proof.
  intros Hc. rewrite rstrip_by_cons. destruct (rstrip_by p s) as [|c' r].
  - rewrite Hc. now exists "".
  - now eexists.
Qed.

Lemma lstrip_by_head (p : ascii -> bool) (s : string) :
  lstrip_by p s = ""
  \/ exists c r, lstrip_by p s = String c r /\ p c = false.
Proof.
  induction s as [|c s IH]; [now left|]. cbn [lstrip_by].
  destruct (p c) eqn:Hc; [exact IH|]. right. now exists c, s.
Qed.

Lemma strip_by_idem (p : ascii -> bool) (s : string) :
  rstrip_by p (lstrip_by p (rstrip_by p (lstrip_by p s)))
  = rstrip_by p (lstrip_by p s).
Proof.
  destruct (lstrip_by_head p s) as [->|(c & r & -> & Hc)]; [reflexivity|].
  destruct (rstrip_by_head p c r Hc) as [r' Hr]. rewrite Hr.
  cbn [lstrip_by]. rewrite Hc, <- Hr. apply rstrip_by_idem.
Qed.

Lemma strip_idem (s : string) : strip (strip s) = strip s.
Proof. apply strip_by_idem. Qed.

(** A trimmed text neither starts nor ends with whitespace. *)
Lemma rstrip_by_last (p : ascii -> bool) (s : string) :
  rstrip_by p s = ""
  \/ exists r c, rstrip_by p s = r +:+ String c "" /\ p c = false.
Proof.
  induction s as [|c s IH]; [now left|]. rewrite rstrip_by_cons.
  destruct IH as [->|(r & c' & -> & Hc')].
  - destruct (p c) eqn:Hc; [now left|]. right. now exists "", c.
  - right. exists (String c r), c'. split; [|exact Hc'].
    destruct r; reflexivity.
Qed.

(** ** extract_suite_info *)

Lemma find_filter_some {A} (f g : A -> bool) (l : list A) (x : A) :
  List.find f (List.filter g l) = Some x -> In x l /\ g x = true /\ f x = true.
Proof.
  intros H. apply List.find_some in H as [Hin Hf].
  apply filter_In in Hin as [Hin Hg]. auto.
Qed.

Lemma extract_cases (text : string) :
  Detail.extract_suite_info (Some text) = ""
  \/ exists line,
       In line (trimmed_lines text)
       /\ Detail.boilerplate line = false
       /\ Detail.unit_pattern line = true
       /\ 1 < String.length (strip (replace "MAILBOX" "" line))
       /\ Detail.extract_suite_info (Some text) = strip (replace "MAILBOX" "" line).
Proof.
  unfold Detail.extract_suite_info. rewrite scan_lines_find.
  fold (trimmed_lines text).
  destruct (List.find _ _) as [line|] eqn:Hfind; [|now left].
  right. apply find_filter_some in Hfind as (Hin & Hb & [Hu Hlen]%andb_prop).
  exists line. repeat split; try assumption.
  - now apply negb_true_iff.
  - now apply Nat.ltb_lt.
Qed.

(** A unit that was extracted is not blank. *)
Lemma extract_not_blank (page : option string) :
  truthy (Detail.extract_suite_info page) = true ->
  truthy (strip (Detail.extract_suite_info page)) = true.
Proof.
  destruct page as [text|]; [|discriminate].
  destruct (extract_cases text) as [->|(line & _ & _ & _ & _ & ->)];
    [discriminate|]. now rewrite strip_idem.
Qed.

(** X1.  What [extract_suite_info] returns is empty, or else longer than one
    character, trimmed, and the cleaned form of a non-empty trimmed line
    of the container that carries no boundary marker and has a unit word
    or a hash. *)
Theorem extract_suite_info_shape (page : option string) :
  Detail.extract_suite_info page = ""
  \/ (1 < String.length (Detail.extract_suite_info page)
      /\ strip (Detail.extract_suite_info page) = Detail.extract_suite_info page
      /\ exists text line,
           page = Some text
           /\ In line (trimmed_lines text)
           /\ Detail.boilerplate line = false
           /\ Detail.unit_pattern line = true
           /\ Detail.extract_suite_info page = strip (replace "MAILBOX" "" line)).
Proof.
  destruct page as [text|]; [|now left].
  destruct (extract_cases text) as [->|(line & Hin & Hb & Hu & Hlen & ->)];
    [now left|right].
  split; [exact Hlen|]. split; [apply strip_idem|].
  exists text, line. repeat split; assumption.
Qed.

(** ** construct_url *)

Lemma all_chars_append (p : ascii -> bool) (a b : string) :
  all_chars p (a +:+ b) = all_chars p a && all_chars p b.
Proof.
  induction a as [|c a IH]; [reflexivity|]. simpl. now rewrite IH, andb_assoc.
Qed.

Lemma all_chars_remove (p q : ascii -> bool) (s : string) :
  all_chars p s = true -> all_chars p (remove_chars q s) = true.
Proof.
  induction s as [|c s IH]; [reflexivity|]. simpl.
  intros [Hc Hs]%andb_prop. destruct (q c); simpl; [auto|].
  now rewrite Hc, IH.
Qed.

Lemma all_chars_removed (q : ascii -> bool) (s : string) :
  all_chars (fun c => negb (q c)) (remove_chars q s) = true.
Proof.
  induction s as [|c s IH]; [reflexivity|]. simpl.
  destruct (q c) eqn:Hq; [exact IH|]. simpl. now rewrite Hq, IH.
Qed.

Lemma all_chars_join (p : ascii -> bool) (sep : string) (ws : list string) :
  all_chars p sep = true ->
  Forall (fun w => all_chars p w = true) ws ->
  all_chars p (join sep ws) = true.
Proof.
  intros Hsep. induction 1 as [|w ws Hw Hws IH]; [reflexivity|].
  destruct ws as [|w' ws']; [exact Hw|].
  rewrite join_cons, !all_chars_append, Hw, Hsep. exact IH.
Qed.

Lemma lower_char_plain (c : ascii) :
  isupper (lower_char c) = false.
Proof. destruct c as [[] [] [] [] [] [] [] []]; reflexivity. Qed.

(** A character of a URL path made by [construct_url]: no whitespace
    and no capital letter. *)
Definition url_char (c : ascii) : bool := negb (isspace c) && negb (isupper c).

Lemma url_char_lower (w : string) :
  all_chars (fun c => negb (isspace c)) w = true ->
  all_chars url_char (lower w) = true.
Proof.
  induction w as [|c w IH]; [reflexivity|]. simpl.
  intros [Hc Hw]%andb_prop. unfold url_char at 1.
  now rewrite isspace_lower_char, Hc, lower_char_plain, IH.
Qed.

Lemma url_char_slug (text : string) : all_chars url_char (spec_slug text) = true.
Proof.
  unfold spec_slug. apply all_chars_join; [reflexivity|].
  induction (split_no_space text) as [|w ws Hw _ IH]; simpl; constructor;
    [now apply url_char_lower | exact IH].
Qed.

(** X2.  Whatever the city and the street, the synthesized URL is the fixed
    prefix, a city part, a hyphen and a street part; neither part holds
    whitespace or a capital letter, and the street part holds no period
    and no hash. *)
Theorem construct_url_shape (city street : string) :
  exists city_slug street_slug,
    Detail.construct_url city street
    = "https://www.anytimemailbox.com/s/" +:+ city_slug +:+ "-" +:+ street_slug
    /\ all_chars url_char city_slug = true
    /\ all_chars url_char street_slug = true
    /\ all_chars (fun c => negb (Ascii.eqb c "." || Ascii.eqb c "#")) street_slug
       = true.
Proof.
  rewrite construct_url_spec. unfold spec_synthesized_url.
  do 2 eexists. split; [reflexivity|].
  split; [apply url_char_slug|].
  split; [apply all_chars_remove, url_char_slug | apply all_chars_removed].
Qed.

(** X3.  Two addresses with the same words up to letter case, however the
    words are spaced, get the same URL. *)
Theorem construct_url_words (city1 street1 city2 street2 : string) :
  List.map lower (split city1) = List.map lower (split city2) ->
  List.map lower (split street1) = List.map lower (split street2) ->
  Detail.construct_url city1 street1 = Detail.construct_url city2 street2.
Proof.
  intros Hc Hs. rewrite !construct_url_spec.
  unfold spec_synthesized_url, spec_slug. now rewrite Hc, Hs.
Qed.

Lemma construct_url_words_witness :
  List.map lower (split "  New   York ") = List.map lower (split "new york")
  /\ List.map lower (split "123 MAIN St.") = List.map lower (split "123 main st.")
  /\ Detail.construct_url "  New   York " "123 MAIN St."
     = Detail.construct_url "new york" "123 main st.".
Proof.
  split; [reflexivity|]. split; [reflexivity|].
  exact (construct_url_words "  New   York " "123 MAIN St." "new york"
           "123 main st." eq_refl eq_refl).
Defined.

(** ** clean_text *)

Lemma split_cons (c : ascii) (s : string) :
  split (String c s)
  = if isspace c then split s
    else match s with
         | EmptyString => [String c EmptyString]
         | String c' _ =>
             if isspace c' then String c EmptyString :: split s
             else match split s with
                  | h :: t => String c h :: t
                  | [] => [String c EmptyString]
                  end
         end.
Proof. reflexivity. Qed.

Lemma split_nonempty (s : string) : Forall (fun w => w <> "") (split s).
Proof.
  induction s as [|c s IH]; [constructor|]. rewrite split_cons.
  destruct (isspace c); [exact IH|].
  destruct s as [|c' s']; [repeat constructor; discriminate|].
  destruct (isspace c').
  - constructor; [discriminate | exact IH].
  - destruct (split (String c' s')) as [|h t]; [repeat constructor; discriminate|].
    inversion IH; subst. constructor; [discriminate | assumption].
Qed.

Lemma split_word_then (w t : string) :
  w <> "" ->
  all_chars (fun c => negb (isspace c)) w = true ->
  split (w +:+ " " +:+ t) = w :: split t.
Proof.
  induction w as [|c w IH]; [contradiction|]. intros _ Hw. simpl in Hw.
  apply andb_prop in Hw as [Hc Hw]. apply negb_true_iff in Hc.
  change (String c w +:+ " " +:+ t) with (String c (w +:+ " " +:+ t)).
  rewrite split_cons, Hc. destruct w as [|c' w'].
  - change ("" +:+ " " +:+ t) with (String " " t). cbn [isspace]. 
    change (isspace " ") with true. cbn iota. now rewrite split_cons.
  - change (String c' w' +:+ " " +:+ t) with (String c' (w' +:+ " " +:+ t)) in *.
    simpl in Hw. pose proof Hw as Hw'. apply andb_prop in Hw' as [Hc' _].
    apply negb_true_iff in Hc'. rewrite Hc'.
    rewrite (IH ltac:(discriminate) Hw). reflexivity.
Qed.

Lemma split_word (w : string) :
  w <> "" ->
  all_chars (fun c => negb (isspace c)) w = true ->
  split w = [w].
Proof.
  induction w as [|c w IH]; [contradiction|]. intros _ Hw. simpl in Hw.
  apply andb_prop in Hw as [Hc Hw]. apply negb_true_iff in Hc.
  rewrite split_cons, Hc. destruct w as [|c' w']; [reflexivity|].
  simpl in Hw. pose proof Hw as Hw'. apply andb_prop in Hw' as [Hc' _].
  apply negb_true_iff in Hc'. rewrite Hc'.
  rewrite (IH ltac:(discriminate) Hw). reflexivity.
Qed.

Lemma split_join (ws : list string) :
  Forall (fun w => w <> "") ws ->
  Forall (fun w => all_chars (fun c => negb (isspace c)) w = true) ws ->
  split (join " " ws) = ws.
Proof.
  induction ws as [|w ws IH]; [reflexivity|].
  intros Hne Hns. inversion Hne as [|? ? Hw Hne']; subst.
  inversion Hns as [|? ? Hw' Hns']; subst.
  destruct ws as [|w' ws']; [now apply split_word|].
  rewrite join_cons, split_word_then by assumption. now rewrite IH.
Qed.

(** X4.  [clean_text] is a normal form: the words of its result are the
    words of the text, and cleaning a cleaned text changes nothing. *)
Theorem clean_text_idem (text : string) :
  split (Detail.clean_text text) = split text
  /\ Detail.clean_text (Detail.clean_text text) = Detail.clean_text text.
Proof.
  assert (H : split (Detail.clean_text text) = split text).
  { unfold Detail.clean_text.
    apply split_join; [apply split_nonempty | apply split_no_space]. }
  split; [exact H|]. unfold Detail.clean_text at 1. now rewrite H.
Qed.

(** ** save_csv: success and failure *)

Lemma last_cons_default {A} (x d : A) (l : list A) :
  List.last (x :: l) d = List.last l x.
Proof.
  revert x d. induction l as [|y l IH]; intros x d; [reflexivity|].
  change (List.last (x :: y :: l) d) with (List.last (y :: l) d).
  now rewrite !IH.
Qed.

Lemma last_trace_written {A} (a b d : A) (l : list A) :
  List.last ([a; b] ++ l) d = List.last l b.
Proof.
  change ([a; b] ++ l) with (a :: b :: l).
  rewrite last_cons_default. apply last_cons_default.
Qed.

Lemma writerows_stops (path : string) (fnames : list string) (rs : list row) :
  forall (fs : filesystem) (h : list string) (rows0 : list row),
    fs !! path = Some (Table h rows0) ->
    List.forallb (writable fnames) rs = false ->
    exists done bad rest,
      rs = done ++ bad :: rest
      /\ List.forallb (writable fnames) done = true
      /\ writable fnames bad = false
      /\ (writerows path fnames rs fs).2 = false
      /\ List.last (writerows path fnames rs fs).1 fs
         = <[path := Table h (rows0 ++ List.map (written_row fnames) done)]> fs.
Proof.
  induction rs as [|r rs IH]; intros fs h rows0 Hfs Hbad; [discriminate|].
  cbn [forallb] in Hbad. cbn [writerows].
  destruct (writable fnames r) eqn:Hr.
  - cbn [andb] in Hbad.
    rewrite (writerow_insert _ _ _ _ Hfs). cbn [fieldnames rows].
    set (fs1 := <[path := Table h (rows0 ++ [written_row fnames r])]> fs).
    destruct (IH fs1 h (rows0 ++ [written_row fnames r])
                (lookup_insert_eq _ _ _) Hbad)
      as (done & bad & rest & -> & Hdone & Hb & Hok & Hlast).
    exists (r :: done), bad, rest.
    destruct (writerows path fnames (done ++ bad :: rest) fs1) as [states ok].
    cbn [fst snd] in *. split; [reflexivity|].
    split; [cbn [forallb]; now rewrite Hr, Hdone|].
    split; [exact Hb|]. split; [exact Hok|].
    rewrite last_cons_default, Hlast. unfold fs1.
    rewrite insert_insert_eq, <- app_assoc. reflexivity.
  - exists [], r, rs. cbn [fst snd app map forallb List.last].
    split; [reflexivity|]. split; [reflexivity|]. split; [exact Hr|].
    split; [reflexivity|]. rewrite app_nil_r. symmetry. now apply insert_id.
Qed.

Lemma save_csv_cases (filename : string) (fnames : list string)
    (rs : list row) (fs : filesystem) :
  (List.forallb (writable fnames) rs = true
   /\ Detail.save_csv filename fnames rs fs
      = (<[filename := saved_table fnames rs]> (delete (filename +:+ ".tmp") fs),
         true))
  \/ (exists done bad rest,
        rs = done ++ bad :: rest
        /\ List.forallb (writable fnames) done = true
        /\ writable fnames bad = false
        /\ Detail.save_csv filename fnames rs fs
           = (<[filename +:+ ".tmp" := saved_table fnames done]> fs, false)).
Proof.
  destruct (List.forallb (writable fnames) rs) eqn:Hw.
  - left. split; [reflexivity|]. now apply save_csv_ok.
  - right. unfold Detail.save_csv, Detail.save_csv_trace.
    set (temp_file := filename +:+ ".tmp"). rewrite writeheader_open_w.
    set (fs2 := <[temp_file := Table fnames []]> fs).
    destruct (writerows_stops temp_file fnames rs fs2 fnames []
                (lookup_insert_eq _ _ _) Hw)
      as (done & bad & rest & Hrs & Hdone & Hbad & Hok & Hlast).
    exists done, bad, rest. split; [exact Hrs|]. split; [exact Hdone|].
    split; [exact Hbad|].
    destruct (writerows temp_file fnames rs fs2) as [written ok].
    cbn [fst snd] in Hok, Hlast. subst ok.
    rewrite last_trace_written. f_equal.
    destruct written as [|s written].
    + cbn [List.last] in Hlast |- *. rewrite Hlast. unfold fs2.
      now rewrite insert_insert_eq.
    + rewrite last_cons_default. rewrite last_cons_default in Hlast.
      rewrite Hlast. unfold fs2. now rewrite insert_insert_eq.
Qed.

(** X5.  [save_csv] returns exactly when every record has its fields among
    the field names.  When it returns, the target holds the whole table,
    the temporary file is gone and no other file has changed.  When it
    raises, the target and every file but the temporary one are as they
    were, and the temporary file holds the header and the records
    before the first one that could not be written. *)
Theorem save_csv_outcome (filename : string) (fnames : list string)
    (rs : list row) (fs : filesystem) :
  let res := Detail.save_csv filename fnames rs fs in
  let temp_file := filename +:+ ".tmp" in
  res.2 = List.forallb (writable fnames) rs
  /\ (res.2 = true ->
      res.1 !! filename = Some (saved_table fnames rs)
      /\ res.1 !! temp_file = None
      /\ forall p, p <> filename -> p <> temp_file -> res.1 !! p = fs !! p)
  /\ (res.2 = false ->
      res.1 !! filename = fs !! filename
      /\ (forall p, p <> temp_file -> res.1 !! p = fs !! p)
      /\ exists done bad rest,
           rs = done ++ bad :: rest
           /\ List.forallb (writable fnames) done = true
           /\ writable fnames bad = false
           /\ res.1 !! temp_file = Some (saved_table fnames done)).
Proof.
  intros res temp_file. pose proof (temp_file_fresh filename) as Hne.
  fold temp_file in Hne. unfold res.
  destruct (save_csv_cases filename fnames rs fs)
    as [[Hw ->]|(done & bad & rest & Hrs & Hdone & Hbad & ->)];
    fold temp_file; cbn [fst snd].
  - split; [now symmetry|]. split; [|discriminate]. intros _.
    split; [apply lookup_insert_eq|]. split.
    + rewrite lookup_insert_ne by congruence. apply lookup_delete_eq.
    + intros p Hp Hp'. now rewrite lookup_insert_ne, lookup_delete_ne by congruence.
  - split.
    { rewrite Hrs, forallb_app. cbn [forallb]. rewrite Hbad.
      now rewrite andb_false_r. }
    split; [discriminate|]. intros _.
    split; [now rewrite lookup_insert_ne by exact Hne|].
    split; [intros p Hp; now rewrite lookup_insert_ne by congruence|].
    exists done, bad, rest. repeat split; try assumption.
    apply lookup_insert_eq.
Qed.

(** ** process_file: what it leaves alone *)

Section PassFrame.
Variable net : Detail.network.
Variable output_file : string.
Variable fnames : list string.
Variable total : nat.

Lemma checkpoint_elsewhere (idx : nat) (st : Detail.state) :
  elsewhere output_file (Detail.disk st)
    (Detail.disk (outcome_state (Detail.checkpoint output_file fnames total idx st))).
Proof.
  intros p Hp Hp'. unfold Detail.checkpoint.
  destruct (_ && _); [|reflexivity].
  destruct (save_csv_cases output_file fnames (Detail.all_rows st) (Detail.disk st))
    as [[_ ->]|(done & bad & rest & _ & _ & _ & ->)]; cbn [outcome_state Detail.disk].
  - now rewrite lookup_insert_ne, lookup_delete_ne by congruence.
  - now rewrite lookup_insert_ne by congruence.
Qed.

Lemma visit_elsewhere_any (idx : nat) (st : Detail.state) :
  elsewhere output_file (Detail.disk st)
    (Detail.disk (outcome_state (Detail.visit net output_file fnames total idx st))).
Proof.
  destruct (visit_cases net output_file fnames total idx st)
    as (st1 & Ht & [Hv|[[Hv _]|[Hv _]]]); rewrite Hv.
  - assert (Hd : Detail.disk st1 = Detail.disk st) by (now destruct Ht).
    rewrite <- Hd. apply checkpoint_elsewhere.
  - assert (Hd : Detail.disk st1 = Detail.disk st) by (now destruct Ht).
    cbn [outcome_state]. rewrite Hd. now intros p _ _.
  - now intros p _ _.
Qed.

Lemma loop_elsewhere_any (idxs : list nat) (st : Detail.state) :
  elsewhere output_file (Detail.disk st)
    (Detail.disk (outcome_state (Detail.loop net output_file fnames total idxs st))).
Proof.
  revert st. induction idxs as [|idx idxs IH]; intros st; [now intros p _ _|].
  cbn [Detail.loop]. pose proof (visit_elsewhere_any idx st) as Hv.
  destruct (Detail.visit net output_file fnames total idx st) as [st1|st1];
    [|exact Hv].
  intros p Hp Hp'. rewrite (IH st1 p Hp Hp'). exact (Hv p Hp Hp').
Qed.

End PassFrame.

(** X6.  Whether a pass completes or ends with an exception, it changes no
    file but its output file and the temporary file beside it; the input
    file in particular is as it was, unless the pass updates it in
    place. *)
Theorem process_file_frame (net : Detail.network) (input_file : string)
    (fs : filesystem) (st : Detail.state) :
  Detail.process_file net input_file None fs = Detail.Done st
  \/ Detail.process_file net input_file None fs = Detail.Crashed st ->
  (forall p,
     p <> Detail.default_output input_file ->
     p <> Detail.default_output input_file +:+ ".tmp" ->
     Detail.disk st !! p = fs !! p)
  /\ (Detail.default_output input_file <> input_file ->
      Detail.disk st !! input_file = fs !! input_file).
Proof.
  intros Hrun.
  assert (Hframe : forall p,
     p <> Detail.default_output input_file ->
     p <> Detail.default_output input_file +:+ ".tmp" ->
     Detail.disk st !! p = fs !! p).
  { revert Hrun. unfold Detail.process_file. cbn [from_option id].
    destruct (fs !! input_file) as [input|]; [|intros [|]; discriminate].
    destruct (rows input) as [|r0 rs0]; [intros [|]; discriminate|].
    set (out := Detail.default_output input_file).
    set (w := Detail.working_table input (fs !! out)).
    pose proof (loop_elsewhere_any net out (fieldnames w) (length (rows w))
                  (seq 0 (length (rows w))) (Detail.initial w fs)) as Hl.
    destruct (Detail.loop net out (fieldnames w) (length (rows w)) _ _)
      as [st1|st1]; cbn [outcome_state] in Hl.
    - destruct (save_csv_cases out (fieldnames w) (Detail.all_rows st1)
                  (Detail.disk st1))
        as [[_ ->]|(done & bad & rest & _ & _ & _ & ->)];
        intros [[= <-]|[= <-]] p Hp Hp'; cbn [Detail.disk].
      + rewrite lookup_insert_ne, lookup_delete_ne by congruence.
        exact (Hl p Hp Hp').
      + rewrite lookup_insert_ne by congruence. exact (Hl p Hp Hp').
    - intros [|[= <-]]; [discriminate|]. exact Hl. }
  split; [exact Hframe|]. intros Hne. apply Hframe; [congruence|].
  apply input_not_temp.
Qed.

Lemma process_file_frame_witness :
  (Detail.process_file unit_page "a.csv" None fresh_disk
   = Detail.Done (state_of (Detail.process_file unit_page "a.csv" None fresh_disk))
   \/ Detail.process_file unit_page "a.csv" None fresh_disk
      = Detail.Crashed (state_of (Detail.process_file unit_page "a.csv" None fresh_disk)))
  /\ Detail.disk (state_of (Detail.process_file unit_page "a.csv" None fresh_disk))
     !! "a.csv" = Some three_rows.
Proof.
  split; [left; exact fresh_pass_done|].
  refine (proj2 (process_file_frame unit_page "a.csv" fresh_disk _
                   (or_introl fresh_pass_done)) _).
  vm_compute. discriminate.
Defined.

(** ** process_file: what it changes, and what it counts *)

(** The unit of a record is not blank. *)
Definition resolved (r : row) : bool := truthy (strip (get Detail.SUITE r)).

Definition count_resolved (rs : list row) : nat :=
  length (List.filter resolved rs).

Definition count_blank (rs : list row) : nat :=
  length (List.filter (fun r => negb (resolved r)) rs).

(** X7.  A completed pass drops no record and changes no field but the unit:
    the saved table has the working field names and as many records as
    the working table (no fewer than the input); each saved record
    agrees with its working record on every other field, and keeps a
    unit that was not blank. *)
Theorem enrichment_frame (net : Detail.network) (input_file : string)
    (fs : filesystem) (st : Detail.state) :
  Detail.process_file net input_file None fs = Detail.Done st ->
  exists input t,
    fs !! input_file = Some input
    /\ Detail.disk st !! Detail.default_output input_file = Some t
    /\ let w := Detail.working_table input
                  (fs !! Detail.default_output input_file) in
       fieldnames t = fieldnames w
       /\ length (rows t) = length (rows w)
       /\ length (rows input) <= length (rows t)
       /\ forall i r0,
            rows w !! i = Some r0 ->
            exists r,
              rows t !! i = Some r
              /\ (forall f, f ∈ fieldnames w -> f <> Detail.SUITE ->
                            r !! f = Some (Some (get f r0)))
              /\ (resolved r0 = true ->
                  r !! Detail.SUITE = Some (Some (get Detail.SUITE r0))).
Proof.
  intros Hrun.
  destruct (process_file_done _ _ _ _ Hrun)
    as (input & Hin & _ & Hev & _ & Hout & _).
  exists input. eexists. split; [exact Hin|]. split; [exact Hout|].
  cbn zeta. cbn [saved_table fieldnames rows]. split; [reflexivity|].
  pose proof (length_enriched _ _ Hev) as Hlen.
  split; [now rewrite length_map|].
  split; [rewrite length_map, Hlen; apply working_table_rows_le|].
  intros i r0 Hr0.
  destruct (Forall2_lookup_l _ _ _ _ _ Hev Hr0) as (r1 & Hr1 & Henr).
  exists (written_row (fieldnames (Detail.working_table input
            (fs !! Detail.default_output input_file))) r1).
  split.
  { change (List.map ?f ?l) with (f <$> l). now rewrite list_lookup_fmap, Hr1. }
  split.
  - intros f Hf Hne. rewrite written_row_lookup, decide_True by exact Hf.
    do 2 f_equal. destruct Henr as [->|[_ [s ->]]]; [reflexivity|].
    apply get_insert_ne. congruence.
  - intros Hres. rewrite written_row_lookup, decide_True
      by (apply list_in_spec, ensure_column_has_suite).
    do 2 f_equal. destruct Henr as [->|[Hb _]]; [reflexivity|].
    unfold blank in Hb. unfold resolved in Hres. congruence.
Qed.

Lemma enrichment_frame_witness :
  Detail.process_file unit_page "a.csv" None fresh_disk
  = Detail.Done (state_of (Detail.process_file unit_page "a.csv" None fresh_disk))
  /\ exists t,
       Detail.disk (state_of (Detail.process_file unit_page "a.csv" None fresh_disk))
       !! "a_detailed.csv" = Some t
       /\ length (rows t) = 3.
Proof.
  split; [exact fresh_pass_done|].
  destruct (enrichment_frame unit_page "a.csv" fresh_disk _ fresh_pass_done)
    as (input & t & Hin & Hout & _ & Hlen & _).
  exists t. split; [exact Hout|].
  assert (Hthree : fresh_disk !! "a.csv" = Some three_rows) by reflexivity.
  assert (input = three_rows) as -> by congruence.
  exact Hlen.
Defined.

Section PassCount.
Variable net : Detail.network.
Variable output_file : string.
Variable fnames : list string.
Variable total : nat.

Lemma checkpoint_keeps (idx : nat) (st1 st' : Detail.state) :
  Detail.checkpoint output_file fnames total idx st1 = Detail.Normal st' ->
  Detail.all_rows st' = Detail.all_rows st1
  /\ Detail.success_count st' = Detail.success_count st1
  /\ Detail.requests st' = Detail.requests st1.
Proof.
  destruct (checkpoint_cases output_file fnames total idx st1)
    as [[_ ->]|[(_ & _ & ->)|(_ & _ & fs' & ->)]]; [| |discriminate];
    intros [= <-]; now repeat split.
Qed.

(** One visit: the record may change, the count grows by one exactly
    when the record ends resolved, and a request is made only for a
    record that was blank. *)
Lemma visit_count (idx : nat) (st st' : Detail.state) (r : row) :
  Detail.visit net output_file fnames total idx st = Detail.Normal st' ->
  Detail.all_rows st !! idx = Some r ->
  exists r',
    Detail.all_rows st' = <[idx := r']> (Detail.all_rows st)
    /\ Detail.success_count st'
       = Detail.success_count st + (if resolved r' then 1 else 0)
    /\ length (Detail.requests st')
       <= length (Detail.requests st) + (if resolved r then 0 else 1).
Proof.
  intros Hv Hr. unfold Detail.visit in Hv. rewrite Hr in Hv.
  destruct (get_cell Detail.SUITE r) as [suite|] eqn:Hsuite; [|discriminate Hv].
  rewrite <- (get_cell_text _ _ _ Hsuite) in Hv.
  fold (resolved r) in Hv. destruct (resolved r) eqn:Hres.
  { injection Hv as <-. exists r. cbn. rewrite list_insert_id by exact Hr.
    rewrite Hres. repeat split; lia. }
  assert (Hsame : forall st1,
            Detail.all_rows st1 = Detail.all_rows st ->
            Detail.success_count st1 = Detail.success_count st ->
            length (Detail.requests st1) <= length (Detail.requests st) + 1 ->
            (Detail.checkpoint output_file fnames total idx st1 = Detail.Normal st'
             \/ st1 = st') ->
            exists r',
              Detail.all_rows st' = <[idx := r']> (Detail.all_rows st)
              /\ Detail.success_count st'
                 = Detail.success_count st + (if resolved r' then 1 else 0)
              /\ length (Detail.requests st') <= length (Detail.requests st) + 1).
  { intros st1 Hrows Hcnt Hreq Hend. exists r.
    rewrite list_insert_id by exact Hr. rewrite Hres, Nat.add_0_r.
    destruct Hend as [Hc| <-]; [|now repeat split].
    destruct (checkpoint_keeps _ _ _ Hc) as (-> & -> & ->). now repeat split. }
  destruct (negb (truthy (get "City" r)) || negb (truthy (get "Street Address" r))).
  { injection Hv as <-. apply (Hsame st); auto. lia. }
  destruct (get_cell "Detail Url" r) as [detail_url|]; [|discriminate Hv].
  destruct (net idx _) as [|final status page].
  { eapply Hsame; [| | |left; exact Hv]; cbn; try reflexivity.
    rewrite length_app. cbn. lia. }
  destruct (negb (String.eqb final _) && _).
  { injection Hv as <-. eapply Hsame; [| | |right; reflexivity]; cbn;
      try reflexivity. rewrite length_app. cbn. lia. }
  destruct (status =? 200).
  2:{ eapply Hsame; [| | |left; exact Hv]; cbn; try reflexivity.
      rewrite length_app. cbn. lia. }
  destruct (truthy (Detail.extract_suite_info page)) eqn:Hinfo.
  2:{ eapply Hsame; [| | |left; exact Hv]; cbn; try reflexivity.
      rewrite length_app. cbn. lia. }
  destruct (checkpoint_keeps _ _ _ Hv) as (Hrows & Hcnt & Hreq).
  cbn in Hrows, Hcnt, Hreq.
  exists (<[Detail.SUITE := Some (Detail.extract_suite_info page)]> r).
  split; [exact Hrows|]. split.
  - rewrite Hcnt. unfold resolved. rewrite get_insert.
    rewrite (extract_not_blank _ Hinfo). lia.
  - rewrite Hreq, length_app. cbn. lia.
Qed.

Lemma count_resolved_cons (r : row) (rs : list row) :
  count_resolved (r :: rs) = (if resolved r then 1 else 0) + count_resolved rs.
Proof. unfold count_resolved. cbn. now destruct (resolved r). Qed.

Lemma count_blank_cons (r : row) (rs : list row) :
  count_blank (r :: rs) = (if resolved r then 0 else 1) + count_blank rs.
Proof. unfold count_blank. cbn. now destruct (resolved r). Qed.

Lemma loop_count (n : nat) :
  forall (a : nat) (st st' : Detail.state),
    Detail.loop net output_file fnames total (seq a n) st = Detail.Normal st' ->
    a + n <= length (Detail.all_rows st) ->
    length (Detail.all_rows st') = length (Detail.all_rows st)
    /\ firstn a (Detail.all_rows st') = firstn a (Detail.all_rows st)
    /\ skipn (a + n) (Detail.all_rows st') = skipn (a + n) (Detail.all_rows st)
    /\ Detail.success_count st'
       = Detail.success_count st
         + count_resolved (firstn n (skipn a (Detail.all_rows st')))
    /\ length (Detail.requests st')
       <= length (Detail.requests st)
          + count_blank (firstn n (skipn a (Detail.all_rows st))).
Proof.
  induction n as [|n IH]; intros a st st' Hloop Hlen.
  - injection Hloop as <-. rewrite Nat.add_0_r, !take_0.
    unfold count_resolved, count_blank. cbn [List.filter length].
    repeat split; lia || reflexivity.
  - cbn [seq Detail.loop] in Hloop.
    destruct (Detail.visit net output_file fnames total a st) as [st1|st1] eqn:Hv;
      [|discriminate].
    destruct (lookup_lt_is_Some_2 (Detail.all_rows st) a ltac:(lia)) as [r Hr].
    destruct (visit_count a st st1 r Hv Hr) as (r' & Hrows1 & Hcnt1 & Hreq1).
    assert (Hlen1 : length (Detail.all_rows st1) = length (Detail.all_rows st))
      by (rewrite Hrows1; apply length_insert).
    destruct (IH (S a) st1 st' Hloop ltac:(lia))
      as (Hl & Hfirst & Hskip & Hcnt & Hreq).
    assert (Ha' : Detail.all_rows st' !! a = Some r').
    { rewrite <- (lookup_take_lt _ (S a)) by lia. rewrite Hfirst.
      rewrite lookup_take_lt by lia. rewrite Hrows1.
      apply list_lookup_insert_eq. lia. }
    split; [congruence|]. split; [|split; [|split]].
    + assert (H1 : firstn a (firstn (S a) (Detail.all_rows st'))
                   = firstn a (Detail.all_rows st'))
        by (rewrite take_take; f_equal; lia).
      rewrite <- H1, Hfirst, take_take.
      replace (a `min` S a) with a by lia. rewrite Hrows1.
      now apply take_insert_ge.
    + replace (a + S n) with (S a + n) by lia. rewrite Hskip, Hrows1.
      apply drop_insert_lt. lia.
    + rewrite (drop_S _ _ _ Ha'). cbn [firstn]. rewrite count_resolved_cons.
      rewrite Hcnt, Hcnt1. lia.
    + rewrite (drop_S _ _ _ Hr). cbn [firstn]. rewrite count_blank_cons.
      assert (Hd : skipn (S a) (Detail.all_rows st1) = skipn (S a) (Detail.all_rows st))
        by (rewrite Hrows1; apply drop_insert_lt; lia).
      rewrite Hd in Hreq. lia.
Qed.

End PassCount.

(** X8.  The count a completed pass reports is the number of records with a
    unit that is not blank in the table it saves, and the pass makes no
    more requests than the working table had records with a blank
    unit. *)
Theorem filled_count (net : Detail.network) (input_file : string)
    (fs : filesystem) (st : Detail.state) :
  Detail.process_file net input_file None fs = Detail.Done st ->
  exists input t,
    fs !! input_file = Some input
    /\ Detail.disk st !! Detail.default_output input_file = Some t
    /\ Detail.success_count st = count_resolved (rows t)
    /\ length (Detail.requests st)
       <= count_blank (rows (Detail.working_table input
                               (fs !! Detail.default_output input_file))).
Proof.
  intros Hrun.
  destruct (process_file_done _ _ _ _ Hrun)
    as (input & Hin & _ & _ & _ & Hout & _).
  exists input. eexists. split; [exact Hin|]. split; [exact Hout|].
  revert Hrun. unfold Detail.process_file. cbn [from_option id]. rewrite Hin.
  destruct (rows input) as [|r0 rs0]; [discriminate|].
  set (out := Detail.default_output input_file).
  set (w := Detail.working_table input (fs !! out)).
  destruct (Detail.loop net out (fieldnames w) (length (rows w)) _ _)
    as [st1|st1] eqn:Hloop; [|discriminate].
  destruct (Detail.save_csv _ _ _ _) as [fs' [|]]; [|discriminate].
  intros [= <-]. cbn [Detail.success_count Detail.requests Detail.all_rows].
  destruct (loop_count net out (fieldnames w) (length (rows w)) (length (rows w))
              0 _ _ Hloop ltac:(cbn; lia)) as (Hl & _ & _ & Hcnt & Hreq).
  cbn [Detail.initial Detail.all_rows Detail.success_count Detail.requests
       skipn length] in Hl, Hcnt, Hreq.
  rewrite drop_0 in Hcnt, Hreq.
  rewrite <- Hl, firstn_all in Hcnt. rewrite firstn_all in Hreq.
  split; [|exact Hreq]. rewrite Hcnt. cbn [plus saved_table rows].
  unfold count_resolved. clear.
  induction (Detail.all_rows st1) as [|r rs IH]; [reflexivity|]. cbn [map List.filter].
  assert (Hres : resolved (written_row (fieldnames w) r) = resolved r).
  { unfold resolved. rewrite get_written_row
      by (apply list_in_spec, ensure_column_has_suite). reflexivity. }
  rewrite Hres. destruct (resolved r); cbn [length]; now rewrite IH.
Qed.

Lemma filled_count_witness :
  Detail.process_file unit_page "a.csv" None fresh_disk
  = Detail.Done (state_of (Detail.process_file unit_page "a.csv" None fresh_disk))
  /\ exists t,
       Detail.disk (state_of (Detail.process_file unit_page "a.csv" None fresh_disk))
       !! "a_detailed.csv" = Some t
       /\ Detail.success_count
            (state_of (Detail.process_file unit_page "a.csv" None fresh_disk))
          = count_resolved (rows t).
Proof.
  split; [exact fresh_pass_done|].
  destruct (filled_count unit_page "a.csv" fresh_disk _ fresh_pass_done)
    as (input & t & _ & Hout & Hcnt & _).
  exists t. split; [exact Hout | exact Hcnt].
Defined.

(** ** process_file on a network that yields nothing *)

Section Unproductive.
Variable net : Detail.network.
Variable output_file : string.
Variable fnames : list string.
Variable total : nat.
Hypothesis no_unit :
  forall idx url final page,
    net idx url = Detail.Response final 200 page ->
    Detail.extract_suite_info page = "".

Lemma visit_unproductive (idx : nat) (st : Detail.state) :
  Detail.updated_any st = false ->
  (exists st',
     Detail.visit net output_file fnames total idx st = Detail.Normal st'
     /\ Detail.all_rows st' = Detail.all_rows st
     /\ Detail.updated_any st' = false
     /\ Detail.disk st' = Detail.disk st)
  \/ (Detail.visit net output_file fnames total idx st = Detail.Uncaught st
      /\ List.forallb complete (Detail.all_rows st) = false).
Proof.
  intros Hflag.
  assert (Hcp : forall st1,
            Detail.updated_any st1 = false ->
            Detail.checkpoint output_file fnames total idx st1 = Detail.Normal st1).
  { intros st1 H1. unfold Detail.checkpoint. now rewrite H1. }
  assert (Hbad : forall r k,
            Detail.all_rows st !! idx = Some r -> get_cell k r = None ->
            List.forallb complete (Detail.all_rows st) = false).
  { intros r k Hr Hk. apply not_true_is_false. intros Hc.
    rewrite forallb_forall in Hc.
    apply list_elem_of_lookup_2, list_elem_of_In in Hr.
    specialize (Hc r Hr). rewrite (get_cell_None _ _ Hk) in Hc. discriminate Hc. }
  unfold Detail.visit.
  destruct (Detail.all_rows st !! idx) as [r|] eqn:Hr; [|left; now exists st].
  destruct (get_cell Detail.SUITE r) as [suite|] eqn:Hsuite;
    [|right; split; [reflexivity | exact (Hbad _ _ eq_refl Hsuite)]].
  destruct (truthy (strip suite)); [left; now eexists|].
  destruct (negb _ || negb _); [left; now exists st|].
  destruct (get_cell "Detail Url" r) as [detail_url|] eqn:Hurl;
    [|right; split; [reflexivity | exact (Hbad _ _ eq_refl Hurl)]].
  left. destruct (net idx _) as [|final status page] eqn:Hnet.
  { rewrite Hcp by exact Hflag. now eexists. }
  destruct (negb (String.eqb final _) && _); [now eexists|].
  destruct (Nat.eqb_spec status 200) as [->|Hne].
  - rewrite (no_unit _ _ _ _ Hnet). cbn [truthy].
    rewrite Hcp by exact Hflag. now eexists.
  - rewrite Hcp by exact Hflag. now eexists.
Qed.

Lemma loop_unproductive (idxs : list nat) (st : Detail.state) :
  Detail.updated_any st = false ->
  exists st',
    Detail.all_rows st' = Detail.all_rows st
    /\ Detail.disk st' = Detail.disk st
    /\ (Detail.loop net output_file fnames total idxs st = Detail.Normal st'
        \/ (Detail.loop net output_file fnames total idxs st = Detail.Uncaught st'
            /\ List.forallb complete (Detail.all_rows st) = false)).
Proof.
  revert st. induction idxs as [|idx idxs IH]; intros st Hflag;
    [exists st; now repeat split; try left|].
  cbn [Detail.loop].
  destruct (visit_unproductive idx st Hflag)
    as [(st1 & -> & Hr & Hu & Hd)|[-> Hbad]].
  - destruct (IH st1 Hu) as (st' & Hr' & Hd' & Hl).
    exists st'. split; [congruence|]. split; [congruence|].
    destruct Hl as [Hl|[Hl Hbad]]; [now left | right].
    split; [exact Hl | now rewrite <- Hr].
  - exists st. split; [reflexivity|]. split; [reflexivity|]. now right.
Qed.

End Unproductive.

(** X9.  When no request yields a unit (the requests fail, are redirected,
    or answer with pages without one), a pass neither saves within the
    loop nor changes a record.  It ends with the working table as it
    found it: either it completes, having saved the table once, or it
    ends with an exception and the output file as it was, which
    happens only where a record cannot be written or a record has a
    cell missing. *)
Theorem unproductive_pass (net : Detail.network) (input_file : string)
    (fs : filesystem) (input : table) :
  (forall idx url final page,
     net idx url = Detail.Response final 200 page ->
     Detail.extract_suite_info page = "") ->
  fs !! input_file = Some input ->
  rows input <> [] ->
  let out := Detail.default_output input_file in
  let w := Detail.working_table input (fs !! out) in
  exists st,
    Detail.all_rows st = rows w
    /\ ((List.forallb (writable (fieldnames w)) (rows w) = true
         /\ Detail.process_file net input_file None fs = Detail.Done st
         /\ Detail.disk st
            = <[out := saved_table (fieldnames w) (rows w)]>
                (delete (out +:+ ".tmp") fs))
        \/ (Detail.process_file net input_file None fs = Detail.Crashed st
            /\ Detail.disk st !! out = fs !! out
            /\ (List.forallb (writable (fieldnames w)) (rows w) = false
                \/ List.forallb complete (rows w) = false))).
Proof.
  intros Hnet Hin Hrows out w. unfold Detail.process_file.
  cbn [from_option id]. rewrite Hin.
  destruct (rows input) as [|r0 rs0]; [contradiction|]. fold out. fold w.
  destruct (loop_unproductive net out (fieldnames w) (length (rows w)) Hnet
              (seq 0 (length (rows w))) (Detail.initial w fs) eq_refl)
    as (st1 & Hr & Hd & [->|[-> Hbad]]);
    cbn [Detail.initial Detail.all_rows Detail.disk] in Hr, Hd.
  2:{ exists st1. split; [exact Hr|]. right. split; [reflexivity|].
      split; [now rewrite Hd | now right]. }
  rewrite Hr, Hd.
  destruct (save_csv_cases out (fieldnames w) (rows w) fs)
    as [[Hw ->]|(done & bad & rest & Hrs & Hdone & Hbad & ->)].
  - eexists. split; [|left; split; [exact Hw|split; reflexivity]]. reflexivity.
  - eexists. split; [|right; split; [reflexivity|split]].
    + reflexivity.
    + cbn [Detail.disk]. rewrite lookup_insert_ne; [reflexivity|].
      apply temp_file_fresh.
    + left. rewrite Hrs, forallb_app. cbn [forallb]. rewrite Hbad.
      now rewrite andb_false_r.
Qed.

Lemma unproductive_pass_witness :
  (forall idx url final page,
     no_network idx url = Detail.Response final 200 page ->
     Detail.extract_suite_info page = "")
  /\ fresh_disk !! "a.csv" = Some three_rows
  /\ rows three_rows <> []
  /\ exists st,
       Detail.all_rows st = rows (Detail.working_table three_rows None)
       /\ Detail.process_file no_network "a.csv" None fresh_disk = Detail.Done st.
Proof.
  assert (H1 : forall idx url final page,
     no_network idx url = Detail.Response final 200 page ->
     Detail.extract_suite_info page = "") by discriminate.
  assert (H2 : fresh_disk !! "a.csv" = Some three_rows) by reflexivity.
  assert (H3 : rows three_rows <> []) by discriminate.
  repeat split; try assumption.
  destruct (unproductive_pass no_network "a.csv" fresh_disk three_rows H1 H2 H3)
    as (st & Hrows & [(_ & Hdone & _)|(_ & _ & [Hbad|Hbad])]).
  - exists st. split; [exact Hrows | exact Hdone].
  - exfalso. vm_compute in Hbad. discriminate Hbad.
  - exfalso. vm_compute in Hbad. discriminate Hbad.
Defined.

(** ** The city, state and zip pattern *)

Lemma span_spec (p : ascii -> bool) (s a b : string) :
  span p s = (a, b) -> s = a +:+ b /\ all_chars p a = true.
Proof.
  revert a b. induction s as [|c s IH]; intros a b; cbn [span].
  - now intros [= <- <-].
  - destruct (p c) eqn:Hc; [|now intros [= <- <-]].
    destruct (span p s) as [a' b'] eqn:Hs. intros [= <- <-].
    destruct (IH _ _ eq_refl) as [-> Ha]. split; [reflexivity|].
    cbn [all_chars]. now rewrite Hc, Ha.
Qed.

Lemma drop_drop (n m : nat) (s : string) : drop n (drop m s) = drop (m + n) s.
Proof.
  revert s. induction m as [|m IH]; intros s; [reflexivity|].
  destruct s as [|c s]; [now destruct n|]. cbn [drop Nat.add]. apply IH.
Qed.

Lemma all_chars_take (p : ascii -> bool) (n : nat) (s : string) :
  all_chars p s = true -> all_chars p (take n s) = true.
Proof.
  revert s. induction n as [|n IH]; intros [|c s]; try reflexivity.
  cbn [take all_chars]. intros [Hc Hs]%andb_prop. now rewrite Hc, IH.
Qed.

(** A zip code: five digits, or five digits, a hyphen and four
    digits. *)
Definition zip_shape (z : string) : Prop :=
  (String.length z = 5 /\ all_chars isdigit z = true)
  \/ exists a b,
       z = a +:+ "-" +:+ b
       /\ String.length a = 5 /\ all_chars isdigit a = true
       /\ String.length b = 4 /\ all_chars isdigit b = true.

(** A state: two capital letters. *)
Definition state_shape (st : string) : Prop :=
  String.length st = 2 /\ all_chars isupper st = true.

Lemma state_zip_sound (s st zip : string) :
  Scrape.state_zip s = Some (st, zip) ->
  exists ws1 ws2 e,
    s = ws1 +:+ st +:+ ws2 +:+ zip +:+ e
    /\ ws1 <> "" /\ all_chars isspace ws1 = true
    /\ state_shape st
    /\ ws2 <> "" /\ all_chars isspace ws2 = true
    /\ zip_shape zip
    /\ Scrape.at_end e = true.
Proof.
  unfold Scrape.state_zip.
  destruct (span isspace s) as [ws1 s1] eqn:H1.
  destruct (span isspace (drop 2 s1)) as [ws2 s2] eqn:H2.
  destruct (span_spec _ _ _ _ H1) as [Hs Hws1].
  destruct (span_spec _ _ _ _ H2) as [Hs1 Hws2].
  destruct (truthy ws1 && _ && _ && _ && _ && _) eqn:Hguard; [|discriminate].
  repeat (apply andb_prop in Hguard as [Hguard ?]).
  assert (Hne1 : ws1 <> "") by (intros ->; discriminate).
  assert (Hne2 : ws2 <> "") by (intros ->; discriminate).
  assert (Hst : state_shape (take 2 s1)).
  { split; [now apply Nat.eqb_eq | assumption]. }
  assert (Hdecomp : s = ws1 +:+ take 2 s1 +:+ ws2 +:+ s2).
  { rewrite Hs at 1. f_equal. rewrite <- (take_drop 2 s1) at 1. now rewrite Hs1. }
  destruct (_ && _ && _ && Scrape.at_end (drop 10 s2)) eqn:Hext.
  - repeat (apply andb_prop in Hext as [Hext ?]).
    intros [= <- <-]. exists ws1, ws2, (drop 10 s2).
    split.
    { rewrite Hdecomp. do 3 f_equal. rewrite append_assoc.
      rewrite <- (take_drop 5 s2) at 1. f_equal.
      rewrite <- (take_drop 5 (drop 5 s2)) at 1. f_equal. apply drop_drop. }
    assert (Hzip : zip_shape (take 5 s2 +:+ take 5 (drop 5 s2))).
    { right. exists (take 5 s2), (drop 1 (take 5 (drop 5 s2))).
      destruct (take 5 (drop 5 s2)) as [|c ext] eqn:He; [discriminate|].
      cbn [String.prefix] in *.
      destruct (ascii_dec "-" c) as [<-|]; [|discriminate].
      cbn [drop] in *. split; [reflexivity|].
      split; [now apply Nat.eqb_eq|]. split; [assumption|].
      split; [|assumption]. apply Nat.eqb_eq in Hext. cbn in Hext. lia. }
    repeat (split; [assumption|]). assumption.
  - destruct (Scrape.at_end (drop 5 s2)) eqn:Hend; [|discriminate].
    intros E. assert (Est : st = take 2 s1) by congruence.
    assert (Ez : zip = take 5 s2) by congruence. subst st zip.
    exists ws1, ws2, (drop 5 s2).
    split; [rewrite Hdecomp; now rewrite take_drop|].
    assert (Hzip : zip_shape (take 5 s2))
      by (left; split; [now apply Nat.eqb_eq | assumption]).
    repeat (split; [assumption|]). assumption.
Qed.

Lemma city_state_zip_sound (s : string) :
  forall before c st zip,
    Scrape.city_state_zip before s = Some (c, st, zip) ->
    exists mid rest,
      c = before +:+ mid
      /\ s = mid +:+ "," +:+ rest
      /\ Scrape.state_zip rest = Some (st, zip).
Proof.
  induction s as [|x s IH]; intros before c st zip; cbn [Scrape.city_state_zip];
    [discriminate|].
  destruct (Ascii.eqb x "010"); [discriminate|].
  destruct (Scrape.city_state_zip (before +:+ String x "") s)
    as [[[c' st'] zip']|] eqn:Hrec.
  - intros [= <- <- <-]. destruct (IH _ _ _ _ Hrec) as (mid & rest & -> & -> & Hz).
    exists (String x mid), rest. rewrite append_assoc. now repeat split.
  - destruct (Ascii.eqb_spec x ",") as [->|]; [|discriminate].
    destruct (Scrape.state_zip s) as [[st' zip']|] eqn:Hz; [|discriminate].
    intros [= <- <- <-]. exists "", s. rewrite append_empty_r. now repeat split.
Qed.

(** X10.  A line that matches reads: the city, a comma, whitespace, a state
    of two capital letters, whitespace, a zip code of five digits with
    an optional hyphen and four digits, and the end of the line. *)
Theorem city_state_zip_shape (line c st zip : string) :
  Scrape.city_state_zip "" line = Some (c, st, zip) ->
  exists ws1 ws2 e,
    line = c +:+ "," +:+ ws1 +:+ st +:+ ws2 +:+ zip +:+ e
    /\ ws1 <> "" /\ all_chars isspace ws1 = true
    /\ state_shape st
    /\ ws2 <> "" /\ all_chars isspace ws2 = true
    /\ zip_shape zip
    /\ Scrape.at_end e = true.
Proof.
  intros Hm. destruct (city_state_zip_sound _ _ _ _ _ Hm)
    as (mid & rest & Hc & -> & Hz). cbn in Hc. subst mid.
  destruct (state_zip_sound _ _ _ Hz)
    as (ws1 & ws2 & e & -> & H1 & H2 & H3 & H4 & H5 & H6 & H7).
  exists ws1, ws2, e. split; [reflexivity|].
  repeat (split; [assumption|]). assumption.
Qed.

Lemma city_state_zip_shape_witness :
  Scrape.city_state_zip "" "New York, NY 10001-1234"
  = Some ("New York", "NY", "10001-1234")
  /\ state_shape "NY" /\ zip_shape "10001-1234".
Proof.
  split; [reflexivity|].
  destruct (city_state_zip_shape "New York, NY 10001-1234" "New York" "NY"
              "10001-1234" eq_refl) as (_ & _ & _ & _ & _ & _ & Hst & _ & _ & Hz & _).
  split; [exact Hst | exact Hz].
Defined.

(** ** The default output path *)

Lemma drop_app_le (n : nat) (a s : string) :
  n <= String.length a -> drop n (a +:+ s) = drop n a +:+ s.
Proof.
  revert a. induction n as [|n IH]; intros a Hn; [now destruct a|].
  destruct a as [|c a]; cbn [String.length] in Hn; [lia|].
  cbn [drop String.append]. apply IH. lia.
Qed.

Lemma take_app_le (n : nat) (a s : string) :
  n <= String.length a -> take n (a +:+ s) = take n a.
Proof.
  revert a. induction n as [|n IH]; intros a Hn; [now destruct a, s|].
  destruct a as [|c a]; cbn [String.length] in Hn; [lia|].
  cbn [take String.append]. f_equal. apply IH. lia.
Qed.

Lemma take_app_length (a s : string) : take (String.length a) (a +:+ s) = a.
Proof.
  induction a as [|c a IH]; [now destruct s|].
  cbn [String.length take String.append]. now rewrite IH.
Qed.

Lemma drop_app_length (a s : string) : drop (String.length a) (a +:+ s) = s.
Proof. induction a as [|c a IH]; [now destruct s|]. exact IH. Qed.

Lemma length_drop (n : nat) (s : string) :
  String.length (drop n s) = String.length s - n.
Proof.
  revert s. induction n as [|n IH]; intros [|c s]; cbn [drop String.length];
    try lia. apply IH.
Qed.

Lemma rfind_app (c : ascii) (a b : string) :
  rfind c (a +:+ b)
  = match rfind c b with
    | Some i => Some (String.length a + i)
    | None => rfind c a
    end.
Proof.
  induction a as [|x a IH].
  - cbn [String.append String.length rfind Nat.add]. now destruct (rfind c b).
  - cbn [String.append rfind String.length]. rewrite IH.
    destruct (rfind c b); reflexivity.
Qed.

(** The last occurrence of a character splits the text. *)
Lemma rfind_Some (c : ascii) (p : string) (d : nat) :
  rfind c p = Some d ->
  exists a b, p = a +:+ String c b /\ String.length a = d /\ rfind c b = None.
Proof.
  revert d. induction p as [|x p IH]; intros d; cbn [rfind]; [discriminate|].
  destruct (rfind c p) as [i|] eqn:Hp.
  - intros [= <-]. destruct (IH i eq_refl) as (a & b & -> & <- & Hb).
    now exists (String x a), b.
  - destruct (Ascii.eqb_spec x c) as [->|]; [|discriminate].
    intros [= <-]. now exists "", p.
Qed.

Lemma contains_app_r (sub a : string) : contains sub (a +:+ sub) = true.
Proof.
  induction a as [|c a IH].
  - cbn [String.append]. destruct sub as [|x sub]; [reflexivity|].
    cbn [contains]. replace (String.prefix (String x sub) (String x sub)) with true;
      [reflexivity|]. symmetry. apply String.prefix_correct.
    induction (String x sub) as [|y s IHs]; [reflexivity|].
    cbn [String.length String.substring]. now rewrite IHs.
  - cbn [String.append contains]. rewrite IH. apply orb_true_r.
Qed.

Lemma existsb_string_app (f : ascii -> bool) (a b : string) :
  List.existsb f (list_ascii_of_string (a +:+ b))
  = List.existsb f (list_ascii_of_string a) || List.existsb f (list_ascii_of_string b).
Proof.
  induction a as [|c a IH]; [reflexivity|].
  cbn [String.append list_ascii_of_string List.existsb]. now rewrite IH, orb_assoc.
Qed.

(** The extension of a name stays its extension when [_detailed] comes
    before it. *)
Lemma splitext_detailed (p : string) :
  splitext ((splitext p).1 +:+ "_detailed" +:+ (splitext p).2)
  = ((splitext p).1 +:+ "_detailed", (splitext p).2).
Proof.
  unfold splitext at 2 3 4 5.
  destruct (rfind "." p) as [d|] eqn:Hdot.
  2:{ cbn [fst snd]. rewrite append_empty_r. unfold splitext.
      rewrite rfind_app, Hdot. reflexivity. }
  destruct (rfind_Some _ _ _ Hdot) as (a & b & -> & <- & Hb).
  set (f := match rfind "/" (a +:+ String "." b) with Some i => S i | None => 0 end).
  destruct ((f <=? String.length a) && _) eqn:Hcond.
  - rewrite take_app_length, drop_app_length. cbn [fst snd].
    apply andb_prop in Hcond as [Hf%Nat.leb_le Hex].
    assert (Hslash : rfind "/" (String "." b) = None).
    { subst f. rewrite rfind_app in Hf.
      destruct (rfind "/" (String "." b)); [lia | reflexivity]. }
    assert (Hf' : f = match rfind "/" a with Some i => S i | None => 0 end).
    { subst f. now rewrite rfind_app, Hslash. }
    unfold splitext. rewrite <- append_assoc.
    rewrite rfind_app. cbn [rfind]. rewrite Hb. cbn [Ascii.eqb Bool.eqb].
    rewrite (rfind_app "/" (a +:+ "_detailed")), Hslash.
    rewrite (rfind_app "/" a "_detailed"). cbn [rfind Ascii.eqb Bool.eqb].
    rewrite <- Hf'. clearbody f. rewrite Nat.add_0_r.
    rewrite take_app_length, drop_app_length.
    replace (_ && _) with true; [reflexivity|]. symmetry. apply andb_true_intro.
    rewrite length_append. cbn [String.length]. split; [apply Nat.leb_le; lia|].
    rewrite append_assoc, (drop_app_le f a) by lia.
    rewrite <- append_assoc.
    replace (String.length a + 9 - f) with (String.length (drop f a +:+ "_detailed"))
      by (rewrite length_append, length_drop; cbn [String.length]; lia).
    rewrite take_app_length, existsb_string_app. apply orb_true_r.
  - cbn [fst snd]. rewrite append_empty_r. unfold splitext.
    rewrite rfind_app. cbn [rfind]. rewrite Hdot.
    rewrite (rfind_app "/"). cbn [rfind Ascii.eqb Bool.eqb]. fold f.
    replace (_ && _) with false; [reflexivity|]. symmetry.
    apply andb_false_iff in Hcond as [Hf|Hex]; [now rewrite Hf|].
    destruct (f <=? String.length a) eqn:Hf; [|reflexivity]. cbn [andb].
    apply Nat.leb_le in Hf.
    rewrite (drop_app_le f (a +:+ String "." b)) by (rewrite length_append; lia).
    rewrite take_app_le; [exact Hex|].
    rewrite length_drop, length_append. cbn [String.length]. lia.
Qed.

(** X11.  The default output path of an input is its own default
    output path: its name before the extension has [_detailed] in it,
    so a run on the output of an earlier run updates that file in
    place. *)
Theorem default_output_settles (input_file : string) :
  contains "_detailed" (splitext (Detail.default_output input_file)).1 = true
  /\ Detail.default_output (Detail.default_output input_file)
     = Detail.default_output input_file.
Proof.
  assert (H : contains "_detailed" (splitext (Detail.default_output input_file)).1
              = true).
  { unfold Detail.default_output. pose proof (splitext_detailed input_file) as Hs.
    destruct (splitext input_file) as [base ext] eqn:Hp. cbn [fst snd] in Hs.
    destruct (contains "_detailed" base) eqn:Hc.
    - now rewrite Hp.
    - rewrite Hs. cbn [fst]. apply contains_app_r. }
  split; [exact H|]. unfold Detail.default_output at 1.
  destruct (splitext (Detail.default_output input_file)) as [base ext].
  cbn [fst] in H. now rewrite H.
Qed.

(** ** The rows of a harvest *)














Lemma row_of_writable (fnames cells : list string) :
  writable fnames (Scrape.row_of fnames cells) = true.
Proof.
  apply writable_spec. intros k [v Hv]. unfold Scrape.row_of in Hv.
  apply elem_of_list_to_map_2 in Hv. now apply elem_of_zip_l in Hv.
Qed.

Lemma row_of_complete (fnames cells : list string) :
  complete (Scrape.row_of fnames cells) = true.
Proof.
  apply complete_spec. intros k Hk. unfold Scrape.row_of in Hk.
  apply elem_of_list_to_map_2, elem_of_zip_r in Hk.
  apply list_elem_of_fmap in Hk as (c & Hc & _). discriminate Hc.
Qed.




(** ** Harvests of different states *)





Definition reno_page : list Scrape.location_item :=
  [Scrape.LocationItem (Some ("5470 Kietzke Ln" +:+ LF +:+ "Reno, NV 89511"))
     (Some "/s/reno-5470-kietzke-ln")].



(** ** Where the verifier puts its two columns *)

Definition without (x : string) (l : list string) : list string :=
  List.filter (fun f => negb (String.eqb f x)) l.

Lemma without_absent (x : string) (l : list string) : x ∉ l -> without x l = l.
Proof.
  unfold without. induction l as [|y l IH]; [reflexivity|].
  intros [Hy Hl]%not_elem_of_cons. cbn [List.filter].
  destruct (String.eqb_spec y x) as [->|_]; [contradiction|].
  cbn [negb]. now rewrite IH.
Qed.

Lemma list_remove_without (x : string) (l : list string) :
  NoDup l ->
  (if list_in x l then list_remove x l else l) = without x l.
Proof.
  intros Hnd. destruct (list_in x l) eqn:Hin.
  - clear Hin. induction Hnd as [|y l Hy Hnd IH]; [reflexivity|].
    cbn [list_remove without List.filter].
    destruct (String.eqb_spec y x) as [->|Hne]; cbn [negb].
    + symmetry. now apply without_absent.
    + f_equal. exact IH.
  - apply list_in_false in Hin. symmetry. now apply without_absent.
Qed.

Lemma NoDup_without (x : string) (l : list string) : NoDup l -> NoDup (without x l).
Proof.
  intros H. apply NoDup_ListNoDup. apply List.NoDup_filter. now apply NoDup_ListNoDup.
Qed.

Lemma without_both (l : list string) :
  without "CMRA" (without "RDI" l) = other_columns l.
Proof.
  unfold without, other_columns. induction l as [|y l IH]; [reflexivity|].
  cbn [List.filter]. destruct (String.eqb y "RDI"); cbn [negb andb]; [exact IH|].
  cbn [List.filter]. destruct (String.eqb y "CMRA"); cbn [negb]; [exact IH|].
  now rewrite IH.
Qed.

(** Two insertions right after the first occurrence of a name. *)
Lemma insert_after (x a b : string) (l : list string) :
  x ∈ l ->
  exists pre post,
    l = pre ++ x :: post
    /\ (x ∉ pre)
    /\ list_insert_at (list_index x l + 1) a (list_insert_at (list_index x l + 1) b l)
       = pre ++ x :: a :: b :: post.
Proof.
  induction l as [|y l IH]; [now intros ?%elem_of_nil|].
  intros Hin. cbn [list_index]. destruct (String.eqb_spec y x) as [->|Hne].
  - exists [], l. split; [reflexivity|]. split; [apply not_elem_of_nil | reflexivity].
  - apply elem_of_cons in Hin as [->|Hin]; [contradiction|].
    destruct (IH Hin) as (pre & post & Hl & Hpre & Hins).
    exists (y :: pre), post. split; [now rewrite Hl at 1|].
    split; [apply not_elem_of_cons; split; [congruence | exact Hpre]|].
    unfold list_insert_at in *. cbn [Nat.add firstn skipn app].
    cbn [app]. f_equal. exact Hins.
Qed.

Lemma place_columns_cases (fnames : list string) :
  NoDup fnames ->
(("Zip Code" ∉ fnames)
   /\ Verify.place_columns fnames = other_columns fnames ++ ["RDI"; "CMRA"])
  \/ exists pre post,
       other_columns fnames = pre ++ "Zip Code" :: post
       /\ ("Zip Code" ∉ pre)
       /\ Verify.place_columns fnames = pre ++ "Zip Code" :: "RDI" :: "CMRA" :: post.
Proof.
  intros Hnd. unfold Verify.place_columns.
  rewrite (list_remove_without "RDI" fnames Hnd).
  rewrite (list_remove_without "CMRA" _ (NoDup_without "RDI" _ Hnd)).
  rewrite without_both.
  destruct (list_in "Zip Code" (other_columns fnames)) eqn:Hz.
  - right. apply list_in_spec in Hz.
    destruct (insert_after "Zip Code" "RDI" "CMRA" _ Hz) as (pre & post & H1 & H2 & H3).
    exists pre, post. split; [exact H1|]. split; [exact H2 | exact H3].
  - left. split; [|reflexivity]. apply list_in_false in Hz. intros Hin. apply Hz.
    unfold other_columns. apply list_elem_of_In, List.filter_In.
    split; [now apply list_elem_of_In | reflexivity].
Qed.

Lemma first_split_unique (x : string) (pre pre' post post' : list string) :
  pre ++ x :: post = pre' ++ x :: post' ->
  x ∉ pre -> x ∉ pre' -> pre = pre' /\ post = post'.
Proof.
  revert pre'. induction pre as [|y pre IH]; intros [|y' pre'] H Hx Hx'.
  - now injection H as ->.
  - injection H as <- _. exfalso. apply Hx'. now left.
  - injection H as -> _. exfalso. apply Hx. now left.
  - injection H as -> H. apply not_elem_of_cons in Hx as [_ Hx].
    apply not_elem_of_cons in Hx' as [_ Hx'].
    destruct (IH _ H Hx Hx') as [-> ->]. now split.
Qed.

Lemma other_columns_spec (k : string) (l : list string) :
  k ∈ other_columns l <-> k ∈ l /\ k <> "RDI" /\ k <> "CMRA".
Proof.
  unfold other_columns. rewrite !list_elem_of_In, List.filter_In, andb_true_iff.
  rewrite !negb_true_iff. split.
  - intros (H & H1%String.eqb_neq & H2%String.eqb_neq). now repeat split.
  - intros (H & H1%String.eqb_neq & H2%String.eqb_neq). now repeat split.
Qed.

Lemma NoDup_place_columns (fnames : list string) :
  NoDup fnames -> NoDup (Verify.place_columns fnames).
Proof.
  intros Hnd.
  assert (Ho : NoDup ("RDI" :: "CMRA" :: other_columns fnames)).
  { apply NoDup_cons. split.
    - intros [H|H]%elem_of_cons; [discriminate|].
      apply other_columns_spec in H as (_ & H & _). now apply H.
    - apply NoDup_cons. split.
      + intros H. apply other_columns_spec in H as (_ & _ & H). now apply H.
      + apply NoDup_ListNoDup, List.NoDup_filter. now apply NoDup_ListNoDup. }
  destruct (place_columns_cases fnames Hnd) as [[_ ->]|(pre & post & Hpre & _ & ->)].
  - eapply NoDup_Permutation_proper; [|exact Ho].
    symmetry. apply (Permutation_app_comm ["RDI"; "CMRA"]).
  - rewrite Hpre in Ho.
    replace (pre ++ "Zip Code" :: "RDI" :: "CMRA" :: post)
      with ((pre ++ ["Zip Code"]) ++ "RDI" :: "CMRA" :: post)
      by (now rewrite <- app_assoc).
    rewrite <- Permutation_middle. rewrite <- Permutation_middle.
    now rewrite <- app_assoc.
Qed.

(** X14.  Under a header without repeated names the two classification
    columns come right after the first [Zip Code] column, [RDI] before
    [CMRA], or at the end where there is no such column; the other
    columns keep their order; no name is repeated in the result, and
    placing the columns in a header that has them already leaves it as
    it is. *)
Theorem place_columns_layout (fnames : list string) :
  NoDup fnames ->
  ((("Zip Code" ∉ fnames)
    /\ Verify.place_columns fnames = other_columns fnames ++ ["RDI"; "CMRA"])
   \/ exists pre post,
        other_columns fnames = pre ++ "Zip Code" :: post
        /\ ("Zip Code" ∉ pre)
        /\ Verify.place_columns fnames
           = pre ++ "Zip Code" :: "RDI" :: "CMRA" :: post)
  /\ NoDup (Verify.place_columns fnames)
  /\ Verify.place_columns (Verify.place_columns fnames) = Verify.place_columns fnames.
Proof.
  intros Hnd. pose proof (NoDup_place_columns fnames Hnd) as Hnd'.
  split; [exact (place_columns_cases fnames Hnd)|]. split; [exact Hnd'|].
  destruct (place_columns_cases _ Hnd') as [[Hz' H']|(pre' & post' & Ho' & Hp' & H')];
    rewrite other_columns_place in *;
    destruct (place_columns_cases _ Hnd) as [[Hz H]|(pre & post & Ho & Hp & H)].
  - congruence.
  - exfalso. apply Hz'. apply elem_of_place_columns. right. right.
    assert (Hin : "Zip Code" ∈ other_columns fnames)
      by (rewrite Ho; apply elem_of_app; right; now left).
    now apply other_columns_spec in Hin as [Hin _].
  - exfalso. apply Hz.
    assert (Hin : "Zip Code" ∈ other_columns fnames)
      by (rewrite Ho'; apply elem_of_app; right; now left).
    now apply other_columns_spec in Hin as [Hin _].
  - rewrite Ho in Ho'. destruct (first_split_unique _ _ _ _ _ Ho' Hp Hp') as [-> ->].
    congruence.
Qed.

Lemma place_columns_layout_witness :
  NoDup ["City"; "CMRA"; "Zip Code"; "Detail Url"]
  /\ Verify.place_columns ["City"; "CMRA"; "Zip Code"; "Detail Url"]
     = ["City"; "Zip Code"; "RDI"; "CMRA"; "Detail Url"]
  /\ NoDup (Verify.place_columns ["City"; "CMRA"; "Zip Code"; "Detail Url"]).
Proof.
  assert (Hnd : NoDup ["City"; "CMRA"; "Zip Code"; "Detail Url"])
    by (apply (bool_decide_unpack _); vm_compute; exact I).
  split; [exact Hnd|]. split; [reflexivity|].
  exact (proj1 (proj2 (place_columns_layout _ Hnd))).
Defined.

(** ** A run of the verifier that stops early *)

(** X15.  With credentials, an input file and a header that is not
    empty, the verifier writes the placed header and, in order, the
    completed records up to the first one its loop does not get
    through: a record with a key that is neither in the header nor one
    of the two classification columns or, in a detailed run, a record
    whose unit cell is missing.  When it gets through all of them it
    ends reporting their number; otherwise it ends in the handler of
    the exception, with the records written so far in the output
    file. *)
Theorem main_stops_at_first_rejected (py_str : Verify.json -> string)
    (api : Verify.service) (auth_id auth_token input_file : string)
    (fs : filesystem) (input : table) :
  fs !! input_file = Some input ->
  fieldnames input <> [] ->
  let is_detailed := endswith "_detailed.csv" (lower input_file) in
  let fnames := Verify.place_columns (fieldnames input) in
  let n := accepted is_detailed fnames (rows input) in
  let fs' :=
    <[Verify.output_path input_file :=
        Table fnames
          (imap (fun i r =>
                   written_row fnames
                     (completed_row py_str api auth_id auth_token is_detailed i r))
                (firstn n (rows input)))]> fs in
  Verify.main py_str api (Some (auth_id, auth_token)) input_file fs
  = (if n =? length (rows input) then Verify.Ran fs' n else Verify.Stopped fs')
  /\ n <= length (rows input)
  /\ (n = length (rows input)
      <-> forall r, r ∈ rows input ->
            (forall k, is_Some (r !! k) ->
                       k = "RDI" \/ k = "CMRA" \/ k ∈ fieldnames input)
            /\ (is_detailed = true -> r !! "Suite/Apartment" <> Some None)).
Proof.
  intros Hin Hhead. cbv zeta.
  split; [exact (main_outcome py_str api auth_id auth_token _ _ _ Hin Hhead)|].
  split; [apply accepted_le|].
  rewrite accepted_all, forallb_forall. split.
  - intros H r Hr. apply passes_spec, H. now apply list_elem_of_In.
  - intros H r Hr. apply passes_spec, H. now apply list_elem_of_In.
Qed.

Lemma main_stops_at_first_rejected_witness :
  exists fs' out,
    Verify.main (fun _ => "") sample_service (Some ("id", "token")) "a.csv"
      (<["a.csv" := stray_table]> ∅)
    = Verify.Stopped fs'
    /\ fs' !! "a_verified.csv" = Some out
    /\ length (rows out) = 1.
Proof.
  destruct (main_stops_at_first_rejected (fun _ => "") sample_service "id" "token"
              "a.csv" (<["a.csv" := stray_table]> ∅) stray_table)
    as (Hrun & _ & _); [reflexivity | discriminate |].
  eexists _, _. split; [exact Hrun|]. split; [reflexivity | reflexivity].
Defined.

(** ** The query sent for a record *)

Lemma param_lookup_ne (key k : string) (value : option string)
    (params : gmap string string) :
  key <> k -> Verify.param key value params !! k = params !! k.
Proof.
  intros H. destruct value as [v|]; [|reflexivity]. cbn [Verify.param].
  now rewrite lookup_insert_ne.
Qed.

Lemma query_secondary (auth_id auth_token : string)
    (street city state zipcode : option string) (secondary : string) :
  Verify.query auth_id auth_token street city state zipcode secondary !! "secondary"
  = if truthy secondary then Some secondary else None.
Proof.
  unfold Verify.query.
  assert (Hbase : forall params : gmap string string,
            params = <["match" := "strict"]> (<["candidates" := "1"]>
                       (Verify.param "zipcode" zipcode
                       (Verify.param "state" state (Verify.param "city" city
                       (Verify.param "street" street
                       (<["auth-token" := auth_token]> (<["auth-id" := auth_id]> ∅)))))))
            -> params !! "secondary" = None).
  { intros params ->. rewrite !lookup_insert_ne by discriminate.
    rewrite !param_lookup_ne by discriminate.
    now rewrite !lookup_insert_ne by discriminate. }
  destruct (truthy secondary); [apply lookup_insert_eq | now apply Hbase].
Qed.

(** X16.  The query for a record carries a secondary unit exactly when
    the name of the input file ends in [_detailed.csv], whatever the
    case of its letters, and the unit of the record, trimmed, is
    neither empty nor a lone [#]; the unit is sent trimmed. *)
Theorem record_query_secondary (auth_id auth_token input_file : string) (r : row)
    (u : string) :
  record_query auth_id auth_token input_file r !! "secondary" = Some u
  <-> endswith "_detailed.csv" (lower input_file) = true
      /\ u = strip (get "Suite/Apartment" r)
      /\ u <> "" /\ u <> "#".
Proof.
  unfold record_query. rewrite query_secondary. unfold Verify.secondary_of, get.
  destruct (endswith "_detailed.csv" (lower input_file)).
  2:{ cbn [default from_option id truthy]. split; [discriminate | now intros [? _]]. }
  destruct (get_cell "Suite/Apartment" r) as [unit|]; cbn [default from_option id].
  2:{ cbn [truthy]. split; [discriminate|]. now intros (_ & -> & H & _). }
  destruct (String.eqb_spec (strip unit) "#") as [E|E].
  - cbn [truthy]. split; [discriminate|]. intros (_ & -> & _ & H). contradiction.
  - destruct (strip unit) as [|c s] eqn:Hs; cbn [truthy].
    + split; [discriminate|]. intros (_ & -> & H & _). contradiction.
    + split.
      * intros [= <-]. now repeat split.
      * now intros (_ & -> & _).
Qed.

(** ** The credentials file *)

Lemma prefix_drop (p s : string) :
  String.prefix p s = true -> s = p +:+ drop (String.length p) s.
Proof.
  revert s. induction p as [|a p IH]; intros s; [now destruct s|].
  destruct s as [|b s]; [discriminate|]. cbn [String.prefix].
  destruct (ascii_dec a b) as [<-|]; [|discriminate].
  intros H. cbn [String.length drop String.append]. f_equal. now apply IH.
Qed.

Lemma auth_id_line (line : string) :
  startswith "auth_id=" line = true ->
  Verify.after_first "=" line = Some (drop 8 line)
  /\ startswith "auth_token=" line = false.
Proof.
  intros H. apply prefix_drop in H. cbn [String.length] in H.
  rewrite H at 1 3. split; reflexivity.
Qed.

Lemma auth_token_line (line : string) :
  startswith "auth_token=" line = true ->
  Verify.after_first "=" line = Some (drop 11 line)
  /\ startswith "auth_id=" line = false.
Proof.
  intros H. apply prefix_drop in H. cbn [String.length] in H.
  rewrite H at 1 3. split; reflexivity.
Qed.

(** The value a variable of the loop holds at its end: that of the last
    line with the given start, or else the one it had. *)
Definition last_value (start : string) (lines : list string) (before : option string)
  : option string :=
  match List.filter (startswith start) (List.map strip lines) with
  | [] => before
  | l :: ls => Some (strip (drop (String.length start) (List.last (l :: ls) "")))
  end.

Lemma last_value_cons (start line : string) (lines : list string)
    (before : option string) :
  last_value start (line :: lines) before
  = last_value start lines
      (if startswith start (strip line)
       then Some (strip (drop (String.length start) (strip line)))
       else before).
Proof.
  unfold last_value. cbn [List.map List.filter].
  destruct (startswith start (strip line)); [|reflexivity].
  destruct (List.filter _ _) as [|l ls]; reflexivity.
Qed.

Lemma read_credentials_spec (lines : list string) :
  forall auth_id auth_token,
    Verify.read_credentials lines auth_id auth_token
    = Some (last_value "auth_id=" lines auth_id,
            last_value "auth_token=" lines auth_token).
Proof.
  induction lines as [|line lines IH]; intros auth_id auth_token; [reflexivity|].
  rewrite !last_value_cons. cbn [Verify.read_credentials].
  destruct (startswith "auth_id=" (strip line)) eqn:Hid.
  - destruct (auth_id_line _ Hid) as [-> ->]. apply IH.
  - destruct (startswith "auth_token=" (strip line)) eqn:Htok; [|apply IH].
    destruct (auth_token_line _ Htok) as [-> _]. apply IH.
Qed.

(** X17.  Reading a credentials file never raises.  Each of the two
    values is the text after [auth_id=] (after [auth_token=]) on the
    last line that, trimmed, starts with it, trimmed again; the
    function exits where a value is missing or empty, and returns the
    two values otherwise. *)
Theorem load_credentials_spec (text : string) :
  let lines := List.map strip (Verify.file_lines text) in
  let auth_id :=
    strip (drop 8 (List.last (List.filter (startswith "auth_id=") lines) "")) in
  let auth_token :=
    strip (drop 11 (List.last (List.filter (startswith "auth_token=") lines) "")) in
  Verify.load_credentials (Some text)
  = if truthy auth_id && truthy auth_token
    then Verify.Credentials auth_id auth_token
    else Verify.Exits.
Proof.
  cbv zeta. unfold Verify.load_credentials. rewrite read_credentials_spec.
  unfold last_value. cbn [String.length].
  destruct (List.filter (startswith "auth_id=") _) as [|l1 ls1];
    [reflexivity|].
  cbn [default from_option id].
  destruct (truthy (strip (drop 8 (List.last (l1 :: ls1) "")))); [|reflexivity].
  destruct (List.filter (startswith "auth_token=") _) as [|l2 ls2];
    [reflexivity|].
  cbn [default from_option id negb orb andb].
  now destruct (truthy (strip (drop 11 (List.last (l2 :: ls2) "")))).
Qed.

(** ** From the harvest to the verified table *)

(** X18.  The three programs in a row.  On a harvest that wrote a
    file, with no earlier output in the way, the enricher completes,
    and on its output the verifier writes every record: the table it
    leaves has the five harvested columns, the unit column at the
    second place and the two classification columns right after the
    zip code, and one record for each record harvested. *)
Theorem harvest_enrich_verify (items : list Scrape.location_item) (slug : string)
    (fs : filesystem) (net : Detail.network) (py_str : Verify.json -> string)
    (api : Verify.service) (auth_id auth_token : string) :
  let harvest := Scrape.OUTPUT_DIR +:+ "/" +:+ slug +:+ ".csv" in
  let fs1 := (Scrape.scrape_state (Some items) slug fs).1 in
  let detailed := Detail.default_output harvest in
  (Scrape.scrape_items items).1 <> [] ->
  fs1 !! detailed = None ->
  exists st fs3 t,
    Detail.process_file net harvest None fs1 = Detail.Done st
    /\ Verify.main py_str api (Some (auth_id, auth_token)) detailed (Detail.disk st)
       = Verify.Ran fs3 (length (Scrape.scrape_items items).1)
    /\ fs3 !! Verify.output_path detailed = Some t
    /\ fieldnames t
       = ["Street Address"; "Suite/Apartment"; "City"; "State Abbreviation";
          "Zip Code"; "RDI"; "CMRA"; "Detail Url"]
    /\ length (rows t) = length (Scrape.scrape_items items).1.
Proof.
  intros harvest fs1 detailed Hdata Hfree.
  assert (Hfs1 : fs1 !! harvest
                 = Some (Table Scrape.HEADER
                           (Scrape.row_of Scrape.HEADER
                              <$> (Scrape.scrape_items items).1))).
  { subst fs1. rewrite scrape_state_written.
    destruct (Scrape.scrape_items items).1 as [|d data]; [contradiction|].
    apply lookup_insert_eq. }
  set (input := Table Scrape.HEADER
                  (Scrape.row_of Scrape.HEADER <$> (Scrape.scrape_items items).1)) in *.
  assert (Hrows : rows input <> []).
  { cbn [input rows].
    destruct (Scrape.scrape_items items).1; [contradiction|discriminate]. }
  assert (Hwf : well_formed input).
  { unfold well_formed. apply forallb_forall. intros r Hr. cbn [input rows] in Hr.
    apply list_elem_of_In, list_elem_of_fmap in Hr as (cells & -> & _).
    apply row_of_writable. }
  assert (Hfull : forallb complete (rows input) = true).
  { apply forallb_forall. intros r Hr. cbn [input rows] in Hr.
    apply list_elem_of_In, list_elem_of_fmap in Hr as (cells & -> & _).
    apply row_of_complete. }
  destruct (fresh_pass_completes net harvest fs1 input Hfs1 Hrows Hwf Hfull Hfree)
    as [st Hst].
  destruct (process_file_done _ _ _ _ Hst) as (input' & Hin' & _ & Hdone).
  rewrite Hfs1 in Hin'. injection Hin' as <-. cbv zeta in Hdone.
  fold detailed in Hdone. rewrite Hfree in Hdone.
  destruct Hdone as (Henr & _ & Hout & _).
  apply length_enriched in Henr.
  change (fieldnames (Detail.working_table input None))
    with ["Street Address"; "Suite/Apartment"; "City"; "State Abbreviation";
          "Zip Code"; "Detail Url"] in Hout.
  cbn [Detail.working_table Detail.resume rows input] in Henr.
  rewrite length_fmap in Henr.
  eexists st, _, _. split; [exact Hst|].
  erewrite main_runs; [| exact Hout | discriminate | |].
  2:{ unfold well_formed, saved_table. cbn [fieldnames rows].
      apply written_rows_writable. }
  2:{ apply complete_unit_cells. apply written_rows_complete. }
  split; [unfold saved_table; cbn [rows]; now rewrite length_map, Henr|].
  split; [apply lookup_insert_eq|]. split; [reflexivity|].
  cbn [rows saved_table]. now rewrite length_imap, length_map.
Qed.

Lemma harvest_enrich_verify_witness :
  (Scrape.scrape_items reno_page).1 <> []
  /\ exists st fs3 t,
       Detail.process_file no_network "Public/nevada.csv" None
         (Scrape.scrape_state (Some reno_page) "nevada" ∅).1 = Detail.Done st
       /\ Verify.main (fun _ => "") sample_service (Some ("id", "token"))
            "Public/nevada_detailed.csv" (Detail.disk st)
          = Verify.Ran fs3 1
       /\ fs3 !! "Public/nevada_detailed_verified.csv" = Some t
       /\ length (rows t) = 1.
Proof.
  assert (H1 : (Scrape.scrape_items reno_page).1 <> []) by (vm_compute; discriminate).
  split; [exact H1|].
  assert (H2 : (Scrape.scrape_state (Some reno_page) "nevada" ∅).1
               !! Detail.default_output "Public/nevada.csv" = None)
    by (vm_compute; reflexivity).
  destruct (harvest_enrich_verify reno_page "nevada" ∅ no_network (fun _ => "")
              sample_service "id" "token" H1 H2)
    as (st & fs3 & t & Hst & Hrun & Ht & _ & Hlen).
  exists st, fs3, t. split; [exact Hst|]. split; [exact Hrun|].
  split; [exact Ht | exact Hlen].
Defined.
